(** * atinysynth-pic: the MML compiler of [mml.c]

    A shallow embedding of the MML parser ([mml_parse] and the helpers it
    calls) and the properties of its scanner, its per-channel state, its
    duration quantizer and its frame emitter.

    Conventions of the embedding.
    - [int] is a 32-bit and [long] a 64-bit signed integer, [char] is a
      signed byte (the LP64 host the parser is built for: the file needs a
      heap and is "not optimized for microcontroller usage").
    - [double] is the IEEE 754 binary64 format.  A finite value is held as
      the rational it is; every arithmetic operation computes the exact
      result and rounds it to the nearest value of the format, ties to
      even.  A result that is not finite (a division by zero, a result
      beyond the largest value) is an outcome of its own: [mml.c] converts
      every such value to an integer type within the same function, and C
      leaves a conversion that does not fit undefined.  Every conversion of
      a [double] to an integer type goes through a range check.
    - The C globals ([line], [pos], [mml_channel_states], [frame_map]) and
      the reports handed to [error_handler] are the fields of one record
      that is passed along.
    - What C leaves undefined is an outcome of its own ([Undef]): a read
      past the terminator of the input, a read of storage that was never
      written, an integer conversion or sum that does not fit.
    - [synth_freq], [ADSR_TIME_UNITS], [voice_wf_setup_def] and libm's
      [pow] are declared outside [mml.c]; they are the variables of the
      section.
    - A handler was installed with [mml_set_error_handler], and it
      returns. *)

From Stdlib Require Import ZArith QArith Qround Qabs List String Ascii Bool Lia Lqa.
Import ListNotations.
Open Scope Z_scope.

(** ** Characters and the input buffer *)

(** A [char] as the signed byte it is on the host. *)
Definition to_char (n : Z) : Z := (n + 128) mod 256 - 128.

Definition char_of_ascii (a : ascii) : Z :=
  to_char (Z.of_N (N_of_ascii a)).

(** A character constant, as in ['a']. *)
Definition ch (c : ascii) : Z := char_of_ascii c.
Arguments ch c%_char.

(** The text before the terminating NUL; the NUL itself is the position
    just after the last element. *)
Definition buffer := list ascii.

(** A [const char*] into the input: [At l] points at the first character
    of [l] (at the terminator when [l] is empty), [Past] is the address one
    past the terminator, which may be formed but not read. *)
Inductive cursor : Type :=
| At (l : buffer)
| Past.

(** ** Outcomes *)

Record report : Type := mkReport {
  err : string;
  err_line : Z;
  err_column : Z
}.

Inductive undefined : Type :=
| OutOfBounds      (* a read past the terminator of the input *)
| UninitRead       (* a read of storage that was never written *)
| NotRepresentable (* an integer conversion or sum out of range, or a
                      [double] that is not finite on its way to one *).

(** [Ret] is normal completion, [Fail] is a return of failure after the
    listed calls of [error_handler], [OutOfFuel] is the exhaustion of the
    fuel of a loop. *)
Inductive result (A : Type) : Type :=
| Ret (a : A)
| Fail (log : list report)
| Undef (u : undefined)
| OutOfFuel.

Arguments Ret {A} a.
Arguments Fail {A} log.
Arguments Undef {A} u.
Arguments OutOfFuel {A}.

Definition bind {A B : Type} (m : result A) (k : A -> result B) : result B :=
  match m with
  | Ret a => k a
  | Fail log => Fail log
  | Undef u => Undef u
  | OutOfFuel => OutOfFuel
  end.

Notation "x <- m ;; k" := (bind m (fun x => k))
  (at level 61, m at next level, right associativity).
Notation "' p <- m ;; k" := (bind m (fun x => let 'p := x in k))
  (at level 61, p pattern, m at next level, right associativity).

(** A read of a field that may never have been written. *)
Definition load {A : Type} (field : option A) : result A :=
  match field with
  | Some v => Ret v
  | None => Undef UninitRead
  end.

(** ** Integer types and [double] *)

Definition INT_MAX : Z := 2147483647.
Definition INT_MIN : Z := -2147483648.
Definition LONG_MAX : Z := 9223372036854775807.
Definition LONG_MIN : Z := -9223372036854775808.
Definition UINT16_MAX : Z := 65535.

(** The value an [int] takes from a [long]. *)
Definition int_of_long (v : Z) : Z := (v + 2147483648) mod 4294967296 - 2147483648.

(** The value a 16-bit unsigned field takes from an [int]. *)
Definition to_uint16 (v : Z) : Z := v mod 65536.

(** A signed [int] sum or product is defined only when it fits. *)
Definition int_arith (v : Z) : result Z :=
  if (INT_MIN <=? v) && (v <=? INT_MAX) then Ret v else Undef NotRepresentable.

(** A finite [double], as the rational it is. *)
Definition double := Q.

(** The power of two of an exponent. *)
Definition pow2 (e : Z) : Q :=
  if 0 <=? e then inject_Z (2 ^ e) else 1 # Z.to_pos (2 ^ (- e)).

(** The exponent of the binade of a positive rational: the floor of its
    binary logarithm. *)
Definition ilog2 (x : Q) : Z :=
  let e := Z.log2 (Qnum x) - Z.log2 (Z.pos (Qden x)) in
  if Qle_bool (pow2 e) x then e else e - 1.

(** The nearest integer, ties to even. *)
Definition rne (x : Q) : Z :=
  let f := Qfloor x in
  match (x - inject_Z f ?= 1 # 2)%Q with
  | Lt => f
  | Gt => f + 1
  | Eq => if Z.even f then f else f + 1
  end.

(** The nearest value of binary64, ties to even: 53 bits of significand,
    and no exponent below that of the subnormal numbers. *)
Definition binary64 (x : Q) : double :=
  if Qeq_bool x 0 then 0%Q else
  let e := Z.max (ilog2 (Qabs x) - 52) (-1074) in
  Qred (inject_Z (rne (x / pow2 e)) * pow2 e).

(** The result of an operation: the exact result rounded, unless that is
    beyond the largest finite value. *)
Definition rounded (x : Q) : result double :=
  let y := binary64 x in
  if Qle_bool (pow2 1024) (Qabs y) then Undef NotRepresentable else Ret y.

Definition fadd (a b : double) : result double := rounded (a + b).
Definition fsub (a b : double) : result double := rounded (a - b).
Definition fmul (a b : double) : result double := rounded (a * b).
Definition fdiv (a b : double) : result double :=
  if Qeq_bool b 0 then Undef NotRepresentable else rounded (a / b).

Arguments fadd (a b)%_Q_scope.
Arguments fsub (a b)%_Q_scope.
Arguments fmul (a b)%_Q_scope.
Arguments fdiv (a b)%_Q_scope.

Definition trunc (x : double) : Z :=
  if Qle_bool 0%Q x then Qfloor x else Qceiling x.

(** [(int)x] *)
Definition to_int (x : double) : result Z := int_arith (trunc x).

(** [(uint8_t)x] *)
Definition to_uint8 (x : double) : result Z :=
  let v := trunc x in
  if (0 <=? v) && (v <=? 255) then Ret v else Undef NotRepresentable.

(** The nearest integer, halves away from zero. *)
Definition nearest (x : double) : Z :=
  if Qle_bool 0%Q x then Qfloor (x + (1 # 2))%Q else Qceiling (x - (1 # 2))%Q.

(** libm's [round]: its result is a value of the format, no rounding error
    is added. *)
Definition round (x : double) : double := inject_Z (nearest x).

(** ** [strtol], [read_digit], [read_number] *)

Definition isspace (c : Z) : bool := (c =? 32) || ((9 <=? c) && (c <=? 13)).
Definition isdigit (c : Z) : bool := (ch "0" <=? c) && (c <=? ch "9").

Fixpoint skip_spaces (l : buffer) : nat * buffer :=
  match l with
  | c :: r =>
      if isspace (char_of_ascii c)
      then let '(n, r') := skip_spaces r in (S n, r')
      else (O, l)
  | [] => (O, [])
  end.

Fixpoint read_digits (acc : Z) (l : buffer) : Z * nat * buffer :=
  match l with
  | c :: r =>
      if isdigit (char_of_ascii c)
      then let '(v, n, r') := read_digits (acc * 10 + (char_of_ascii c - ch "0")) r in
           (v, S n, r')
      else (acc, O, l)
  | [] => (acc, O, [])
  end.

(** The digits of [strtol], after [n1] skipped characters: without a
    digit nothing is consumed and the value is 0; a value that does not fit
    a [long] is clamped. *)
Definition strtol_digits (str : buffer) (neg : bool) (n1 : nat) (l1 : buffer)
  : Z * nat * buffer :=
  match read_digits 0 l1 with
  | (_, O, _) => (0, O, str)
  | (v, n2, l2) =>
      let v := if neg then - v else v in
      (Z.max LONG_MIN (Z.min LONG_MAX v), (n1 + n2)%nat, l2)
  end.

(** [strtol(str, &end, 10)]: the value, the number of characters between
    [str] and [end], and [end].  Blanks and one sign are skipped. *)
Definition strtol (str : buffer) : Z * nat * buffer :=
  let '(n0, l0) := skip_spaces str in
  match l0 with
  | c :: r =>
      if char_of_ascii c =? ch "-" then strtol_digits str true (S n0) r
      else if char_of_ascii c =? ch "+" then strtol_digits str false (S n0) r
      else strtol_digits str false n0 l0
  | [] => strtol_digits str false n0 l0
  end.

(** Read a single digit from the stream and advance. *)
Definition read_digit (str : buffer) (pos : Z) : Z * cursor * Z :=
  match str with
  | [] => (255, Past, pos + 1)
  | c :: r =>
      let code := char_of_ascii c in
      (if (code <? ch "0") || (code >? ch "9") then 255 else code - ch "0", At r, pos + 1)
  end.

(** Read a number from the stream and advance. *)
Definition read_number (str : buffer) (pos : Z) : Z * buffer * Z :=
  let '(v, n, end_) := strtol str in
  let ret := int_of_long v in
  if (ret =? 0) || (Nat.eqb n O) then (-1, str, pos)
  else (ret, end_, pos + Z.of_nat n).

(** A run of decimal digits, its value, and what may follow it: the end
    of the text or a character that is not a digit. *)
Definition digits (ds : buffer) : bool := forallb (fun c => isdigit (char_of_ascii c)) ds.
Definition decimal_from (acc : Z) (ds : buffer) : Z :=
  fold_left (fun acc c => acc * 10 + (char_of_ascii c - ch "0")) ds acc.
Definition decimal (ds : buffer) : Z := decimal_from 0 ds.
Definition stops (rest : buffer) : bool :=
  match rest with
  | c :: _ => negb (isdigit (char_of_ascii c))
  | [] => true
  end.

(** ** Parser state *)

(** Parser state, per channel.  A slot that [realloc] handed out and
    nobody wrote yet holds [None] in every field. *)
Record mml_channel_state_t : Type := mkChannel {
  octave : option Z;
  default_length : option Z;
  default_length_dot : option Z;
  tempo : option Z;
  volume : option Z;
  articulation : option double;
  isActive : option Z;
  seconds : option double;
  time_units : option Z
}.

Definition unwritten : mml_channel_state_t :=
  mkChannel None None None None None None None None None.

Definition ARTICULATION_STACCATO : double := ((5 # 2) / 4)%Q.
Definition ARTICULATION_NORMAL : double := (7 / 8)%Q.
Definition ARTICULATION_LEGATO : double := 1%Q.

Definition set_octave (v : Z) (s : mml_channel_state_t) :=
  mkChannel (Some v) (default_length s) (default_length_dot s) (tempo s) (volume s)
            (articulation s) (isActive s) (seconds s) (time_units s).
Definition set_default_length (v d : Z) (s : mml_channel_state_t) :=
  mkChannel (octave s) (Some v) (Some d) (tempo s) (volume s)
            (articulation s) (isActive s) (seconds s) (time_units s).
Definition set_tempo (v : Z) (s : mml_channel_state_t) :=
  mkChannel (octave s) (default_length s) (default_length_dot s) (Some v) (volume s)
            (articulation s) (isActive s) (seconds s) (time_units s).
Definition set_volume (v : Z) (s : mml_channel_state_t) :=
  mkChannel (octave s) (default_length s) (default_length_dot s) (tempo s) (Some v)
            (articulation s) (isActive s) (seconds s) (time_units s).
Definition set_articulation (v : double) (s : mml_channel_state_t) :=
  mkChannel (octave s) (default_length s) (default_length_dot s) (tempo s) (volume s)
            (Some v) (isActive s) (seconds s) (time_units s).
Definition set_isActive (v : Z) (s : mml_channel_state_t) :=
  mkChannel (octave s) (default_length s) (default_length_dot s) (tempo s) (volume s)
            (articulation s) (Some v) (seconds s) (time_units s).
Definition set_running_time (sec : double) (units : Z) (s : mml_channel_state_t) :=
  mkChannel (octave s) (default_length s) (default_length_dot s) (tempo s) (volume s)
            (articulation s) (isActive s) (Some sec) (Some units).

(** [mml_channel_states[i] = f(mml_channel_states[i])] *)
Fixpoint update {A : Type} (i : nat) (f : A -> A) (l : list A) : list A :=
  match l, i with
  | [], _ => []
  | x :: r, O => f x :: r
  | x :: r, S j => x :: update j f r
  end.

(** What [enable_channel] writes into a channel it sees for the first
    time; [isActive] is written just after. *)
Definition new_channel : mml_channel_state_t :=
  mkChannel (Some 4) (Some 4) (Some 0) (Some 120) (Some 63)
            (Some ARTICULATION_NORMAL) None (Some 0%Q) (Some 0).

(** Channel 0 as [mml_parse] finds it after its first
    [reset_active_state]. *)
Definition first_channel : mml_channel_state_t := set_isActive 1 new_channel.

Definition enable_channel (channel : Z) (states : list mml_channel_state_t)
  : list mml_channel_state_t :=
  let count := Z.of_nat (List.length states) in
  let states :=
    if channel >=? count
    then states ++ repeat unwritten (Z.to_nat (channel - count)) ++ [new_channel]
    else states in
  update (Z.to_nat channel) (set_isActive 1) states.

(** By default, if no channel identifier at the beginning of a MML line,
    it is referring to A channel only. *)
Definition reset_active_state (states : list mml_channel_state_t)
  : list mml_channel_state_t :=
  let states :=
    match states with
    | [] => []
    | s0 :: r => s0 :: map (set_isActive 0) r
    end in
  enable_channel 0 states.

(** The C globals of [mml.c] and the reports [error_handler] received so
    far.  [mml_channel_count] is the length of [mml_channel_states] and
    [frame_map.channel_count] the length of [frame_map]. *)
Record globals (frame : Type) : Type := mkGlobals {
  line : Z;
  pos : Z;
  mml_channel_states : list mml_channel_state_t;
  frame_map : list (list frame);
  reported : list report
}.

Arguments mkGlobals {frame}.
Arguments line {frame}.
Arguments pos {frame}.
Arguments mml_channel_states {frame}.
Arguments frame_map {frame}.
Arguments reported {frame}.

Definition set_pos {F : Type} (p : Z) (g : globals F) : globals F :=
  mkGlobals (line g) p (mml_channel_states g) (frame_map g) (reported g).
Definition set_states {F : Type} (s : list mml_channel_state_t) (g : globals F) : globals F :=
  mkGlobals (line g) (pos g) s (frame_map g) (reported g).
Definition set_frame_map {F : Type} (m : list (list F)) (g : globals F) : globals F :=
  mkGlobals (line g) (pos g) (mml_channel_states g) m (reported g).

(** [line++; reset_active_state(); pos = 0;] *)
Definition next_line {F : Type} (g : globals F) : globals F :=
  mkGlobals (line g + 1) 0 (reset_active_state (mml_channel_states g))
            (frame_map g) (reported g).

(** The log after [error_handler(msg, line, pos)]. *)
Definition error_handler {F : Type} (msg : string) (g : globals F) : list report :=
  reported g ++ [mkReport msg (line g) (pos g)].

(** [for (i = 0; i < mml_channel_count; i++)
       if (mml_channel_states[i].isActive) body] *)
Fixpoint for_active (body : mml_channel_state_t -> result mml_channel_state_t)
    (states : list mml_channel_state_t) : result (list mml_channel_state_t) :=
  match states with
  | [] => Ret []
  | s :: r =>
      a <- load (isActive s) ;;
      s' <- (if a =? 0 then Ret s else body s) ;;
      r' <- for_active body r ;;
      Ret (s' :: r')
  end.

(** [for (; dots > 0; dots--) l /= 1.5;] *)
Fixpoint apply_dots (dots : nat) (l : double) : result double :=
  match dots with
  | O => Ret l
  | S d => l <- fdiv l (3 # 2) ;; apply_dots d l
  end.

(** The loop that counts the dots under the cursor:
    [dot++; content++; pos++] while the cursor is at a ['.']. *)
Fixpoint count_dots (content : buffer) (dot pos : Z) : Z * buffer * Z :=
  match content with
  | c :: r =>
      if char_of_ascii c =? ch "." then count_dots r (dot + 1) (pos + 1)
      else (dot, content, pos)
  | [] => (dot, [], pos)
  end.

(** The loop that skips a line comment: [content++] until the cursor is at
    a newline, then [content++] once more.  The test reads the terminator
    like any other character and steps over it; the read after that is
    outside the buffer. *)
Fixpoint skip_comment (content : buffer) : result buffer :=
  match content with
  | [] => Undef OutOfBounds
  | c :: r => if char_of_ascii c =? 10 then Ret r else skip_comment r
  end.

(** The loop over the remaining letters of a channel selector: while the
    cursor is at an uppercase letter, [enable_channel] of its offset from
    ['A'], [content++], [pos++]. *)
Fixpoint select_channels (content : buffer) (states : list mml_channel_state_t) (pos : Z)
  : list mml_channel_state_t * buffer * Z :=
  match content with
  | c :: r =>
      let next := char_of_ascii c in
      if (next >=? ch "A") && (next <=? ch "Z")
      then select_channels r (enable_channel (next - ch "A") states) (pos + 1)
      else (states, content, pos)
  | [] => (states, [], pos)
  end.

Section Compiler.

(** The sample rate, [extern const uint16_t synth_freq]. *)
Variable synth_freq : Z.
(** The macro of [adsr.h]. *)
Variable ADSR_TIME_UNITS : Z.
(** libm's [pow]. *)
Variable pow : double -> double -> double.
(** The waveform part of a frame, and what [voice_wf_setup_def] writes
    there for a frequency and an amplitude, when it accepts them. *)
Variable waveform : Type.
Variable voice_wf_setup_def : Z -> Z -> option waveform.

(** Modelled from the spec: [struct seq_frame_t] is declared in
    [sequencer.h], which is not among the sources.  The spec gives a frame
    a waveform descriptor that the compiler does not look into, the
    duration minus one in a 16-bit field, and the start of the release. *)
Record seq_frame_t : Type := mkFrame {
  wf : waveform;
  adsr_time_scale_1 : Z;
  adsr_release_start : Z
}.

Definition state : Type := globals seq_frame_t.

(** Convert a node 0-84 to frequency. *)
Definition get_freq_from_code (noteCode : Z) : result Z :=
  exponent <- fdiv (inject_Z noteCode - 33) 12 ;;
  frequency <- fmul 440 (pow 2%Q exponent) ;;
  to_int frequency.

(** Convert a a-g code chromatic scale to frequency. *)
Definition get_freq_from_note (note sharp octave : Z) : result Z :=
  let semitone := Z.rem (note - ch "a" + 5) 7 * 2 in
  let semitone := if semitone >? 4 then semitone - 1 else semitone in
  let semitone := if sharp =? 0 then semitone else semitone + 1 in
  get_freq_from_code (semitone + octave * 12).

(** Get duration in ADSR time scale units.  Returns the time scale and
    the channel state with its running time advanced. *)
Definition get_adsr_time_scale (st : mml_channel_state_t) (length dots : Z)
  : result (Z * mml_channel_state_t) :=
  l <- apply_dots (Z.to_nat dots) (inject_Z length) ;;
  tempo_ <- load (tempo st) ;;
  (* 60.0 * 4 is 240 without rounding; a zero divisor gives an infinity or
     a NaN, which no integer type holds *)
  whole <- fdiv (60 * 4) (inject_Z tempo_) ;;
  seconds_ <- fdiv whole l ;;
  running <- load (seconds st) ;;
  running <- fadd running seconds_ ;;
  (* Round note duration to not accumulate errors (skew between channels) *)
  samples <- fmul running (inject_Z synth_freq) ;;
  total <- to_int (round samples) ;;
  let time_units_total : double := inject_Z total in
  units <- load (time_units st) ;;
  delta_units <- fsub time_units_total (inject_Z units) ;;
  quotient <- fdiv delta_units (inject_Z ADSR_TIME_UNITS) ;;
  time_scale <- to_int (round quotient) ;;
  step <- int_arith (time_scale * ADSR_TIME_UNITS) ;;
  units <- int_arith (units + step) ;;
  Ret (time_scale, set_running_time running units st).

(** [frame_map.channels] grown to hold [channel], every new list empty. *)
Definition grow_frame_map (channel : Z) (m : list (list seq_frame_t))
  : list (list seq_frame_t) :=
  let count := Z.of_nat (List.length m) in
  if channel >=? count then m ++ repeat [] (Z.to_nat (channel + 1 - count)) else m.

(** [add_channel_frame]: [Ret] is the return of 1, [Fail] the return of 0
    after the call of [error_handler].  On failure the map is left with a
    half-written frame that [mml_compile] never hands out; it is not part
    of the outcome. *)
Definition add_channel_frame (g : state) (channel frequency time_scale volume : Z)
    (articulation : double) (edit_last_duration : Z) : result state :=
  let m := grow_frame_map channel (frame_map g) in
  let frames := nth (Z.to_nat channel) m [] in
  if negb (edit_last_duration =? 0) && (Nat.eqb (List.length frames) 0)
  then Fail (error_handler "Can't join, no note before" g) else
  (* the frame to amend, or none when a new one is appended *)
  let amended := if edit_last_duration =? 0 then None else nth_error (rev frames) 0 in
  wave <- (if frequency =? 0
           then match voice_wf_setup_def 0 0 with
                | Some w => Ret w
                | None => Fail (error_handler "Can't pack frame: pause" g)
                end
           else match voice_wf_setup_def frequency volume with
                | Some w => Ret w
                | None => Fail (error_handler "Can't pack frame: waveform" g)
                end) ;;
  (* Calc duration and scale *)
  let time_scale :=
    match amended with
    | Some frame => time_scale + (adsr_time_scale_1 frame + 1)
    | None => time_scale
    end in
  if time_scale >? UINT16_MAX
  then Fail (error_handler "Can't pack frame: adsr time_scale" g) else
  release <- (product <- fmul (inject_Z ADSR_TIME_UNITS) articulation ;;
              to_uint8 (round product)) ;;
  let frame := mkFrame wave (to_uint16 (time_scale - 1)) (release - 1) in
  let frames := match amended with
                | Some _ => removelast frames ++ [frame]
                | None => frames ++ [frame]
                end in
  Ret (set_frame_map (update (Z.to_nat channel) (fun _ => frames) m) g).

(** ** The scanner *)

(** What the modifier loop of a note leaves behind. *)
Record note_t : Type := mkNote {
  n_code : Z;
  n_sharp : Z;
  n_length : Z;
  n_dot : Z;
  n_noteCode : Z;
  n_content : buffer;
  n_pos : Z
}.

(** The [while (1)] loop after the entry code of a note or a pause.
    [isNoteCode] is [None] when the entry code was a pause: the
    condition that assigns it is cut short by [isPause], and the variable
    keeps no value from the previous turn of the main loop. *)
Fixpoint modifiers (fuel : nat) (g : state) (isPause : Z) (isNoteCode : option Z)
    (code sharp length dot customLength noteCode : Z) (content : buffer) (pos : Z)
  : result note_t :=
  match fuel with
  | O => OutOfFuel
  | S fuel =>
      let next := match content with c :: _ => char_of_ascii c | [] => 0 end in
      letter <- (if isPause =? 0 then n <- load isNoteCode ;; Ret (n =? 0) else Ret false) ;;
      if letter && ((next =? ch "-") || (next =? ch "+") || (next =? ch "#")) then
        (* Sharp/flat? *)
        let code := if next =? ch "-" then to_char (code - 1) else code in
        if (code =? ch "e") || (code =? ch "b")
        then Fail (error_handler "Invalid sharp" (set_pos pos g))
        else modifiers fuel g isPause isNoteCode code 1 length dot customLength noteCode
                       (tl content) (pos + 1)
      else if isdigit next then
        n <- load isNoteCode ;;
        if negb (n =? 0) then
          if negb (noteCode =? -1)
          then Fail (error_handler "Invalid note code" (set_pos pos g)) else
          let '(noteCode, content, pos) := read_number content pos in
          if (noteCode <? 0) || (noteCode >? 84)
          then Fail (error_handler "Invalid note code" (set_pos pos g))
          else modifiers fuel g isPause isNoteCode code sharp length dot customLength noteCode
                         content pos
        else
          if negb (customLength =? 0)
          then Fail (error_handler "Invalid length" (set_pos pos g)) else
          (* Length *)
          let '(length, content, pos) := read_number content pos in
          if length <? 0
          then Fail (error_handler "Invalid length" (set_pos pos g))
          else modifiers fuel g isPause isNoteCode code sharp length dot 1 noteCode
                         content pos
      else if next =? ch "." then
        (* Half length *)
        modifiers fuel g isPause isNoteCode code sharp length (dot + 1) customLength noteCode
                  (tl content) (pos + 1)
      else Ret (mkNote code sharp length dot noteCode content pos)
  end.

(** The loop that sets the note on every active channel, from channel
    [i] on; [states] are the channels from [i] on.  The test
    [isNoteCode && noteCode == 0] reads [isNoteCode] also after a pause,
    where it holds no value: the outcome is the same for every value as
    long as [noteCode] is not 0. *)
Fixpoint set_note (g : state) (note : note_t) (join : Z) (isNoteCode : option Z)
    (isPause : Z) (i : Z) (states : list mml_channel_state_t)
  : result (list mml_channel_state_t * state) :=
  match states with
  | [] => Ret ([], g)
  | s :: r =>
      a <- load (isActive s) ;;
      if a =? 0 then
        ' (r', g') <- set_note g note join isNoteCode isPause (i + 1) r ;;
        Ret (s :: r', g')
      else
        isPause <- match isNoteCode with
                   | Some n => Ret (if negb (n =? 0) && (n_noteCode note =? 0)
                                    then 1 else isPause)
                   | None => if n_noteCode note =? 0 then Undef UninitRead else Ret isPause
                   end ;;
        frequency <- (if negb (isPause =? 0) then Ret 0 else
                      n <- load isNoteCode ;;
                      if negb (n =? 0) then get_freq_from_code (n_noteCode note)
                      else o <- load (octave s) ;;
                           get_freq_from_note (n_code note) (n_sharp note) o) ;;
        length <- (if n_length note <? 0 then load (default_length s)
                   else Ret (n_length note)) ;;
        dots <- (if (n_length note <? 0) && (n_dot note =? 0)
                 then load (default_length_dot s) else Ret (n_dot note)) ;;
        ' (time_scale, s') <- get_adsr_time_scale s length dots ;;
        volume_ <- load (volume s') ;;
        articulation_ <- load (articulation s') ;;
        g' <- add_channel_frame g i frequency time_scale volume_ articulation_ join ;;
        ' (r', g'') <- set_note g' note join isNoteCode isPause (i + 1) r ;;
        Ret (s' :: r', g'')
  end.

(** [<] and [>] on one active channel. *)
Definition octave_down (g : state) (s : mml_channel_state_t) : result mml_channel_state_t :=
  o <- load (octave s) ;;
  if o =? 0 then Fail (error_handler "Invalid octave step down" g)
  else Ret (set_octave (o - 1) s).

Definition octave_up (g : state) (s : mml_channel_state_t) : result mml_channel_state_t :=
  o <- load (octave s) ;;
  if o =? 9 then Fail (error_handler "Invalid octave step up" g)
  else Ret (set_octave (o + 1) s).

(** The commands: the [if ... else if] chain of the main loop, for a
    character that is neither blank, comment, join nor channel selector. *)
Definition command (g : state) (join : Z) (code : Z) (content : buffer)
  : result (state * cursor) :=
  if code =? ch "o" then
    let '(octave_, content, pos_) := read_digit content (pos g) in
    let g := set_pos pos_ g in
    if (octave_ =? 255) || (octave_ >? 6)
    then Fail (error_handler "Invalid octave" g) else
    states <- for_active (fun s => Ret (set_octave octave_ s)) (mml_channel_states g) ;;
    Ret (set_states states g, content)
  else if code =? ch "l" then
    let '(length, content, pos_) := read_number content (pos g) in
    let g := set_pos pos_ g in
    if length <? 0 then Fail (error_handler "Invalid length" g) else
    let '(dot, content, pos_) := count_dots content 0 pos_ in
    let g := set_pos pos_ g in
    states <- for_active (fun s => Ret (set_default_length length dot s))
                         (mml_channel_states g) ;;
    Ret (set_states states g, At content)
  else if code =? ch "t" then
    let '(tempo_, content, pos_) := read_number content (pos g) in
    let g := set_pos pos_ g in
    if tempo_ <? 0 then Fail (error_handler "Invalid tempo" g) else
    states <- for_active (fun s => Ret (set_tempo tempo_ s)) (mml_channel_states g) ;;
    Ret (set_states states g, At content)
  else if code =? ch "v" then
    let '(volume_, content, pos_) := read_number content (pos g) in
    let g := set_pos pos_ g in
    if (volume_ <? 0) || (volume_ >? 128) then Fail (error_handler "Invalid volume" g) else
    states <- for_active (fun s => Ret (set_volume volume_ s)) (mml_channel_states g) ;;
    Ret (set_states states g, At content)
  else if code =? ch "<" then
    states <- for_active (octave_down g) (mml_channel_states g) ;;
    Ret (set_states states g, At content)
  else if code =? ch ">" then
    states <- for_active (octave_up g) (mml_channel_states g) ;;
    Ret (set_states states g, At content)
  else if code =? ch "m" then
    (* Music articulation *)
    let next := match content with c :: _ => char_of_ascii c | [] => 0 end in
    articulation_ <- (if next =? ch "l" then Ret ARTICULATION_LEGATO
                      else if next =? ch "n" then Ret ARTICULATION_NORMAL
                      else if next =? ch "s" then Ret ARTICULATION_STACCATO
                      else Fail (error_handler "Invalid music articulation" g)) ;;
    states <- for_active (fun s => Ret (set_articulation articulation_ s))
                         (mml_channel_states g) ;;
    Ret (set_pos (pos g + 1) (set_states states g), At (tl content))
  else
    let isPause := if (code =? ch "p") || (code =? ch "r") then 1 else 0 in
    let isNoteCode :=
      if isPause =? 0 then Some (if code =? ch "n" then 1 else 0) else None in
    if negb (isPause =? 0) || (code =? ch "n") || ((code >=? ch "a") && (code <=? ch "g"))
    then
      (* Note or pause *)
      note <- modifiers (S (List.length content)) g isPause isNoteCode
                        code 0 (-1) 0 0 (-1) content (pos g) ;;
      let g := set_pos (n_pos note) g in
      (* Set note *)
      ' (states, g) <- set_note g note join isNoteCode isPause 0 (mml_channel_states g) ;;
      Ret (set_states states g, At (n_content note))
    else Fail (error_handler "Unknown command" g).

(** One turn of the main loop for the character [code], with [pos]
    already advanced and the cursor already behind [code]. *)
Definition mml_step (g : state) (code : Z) (content : buffer) : result (state * cursor) :=
  if (code <=? 32) || (code =? ch "|") then
    (* Skip blanks and partitures *)
    let g := if code =? 10 then next_line g else g in
    let g := if code =? 13 then set_pos (pos g - 1) g else g in
    Ret (g, At content)
  else if (code =? ch "#") || (code =? ch ";") then
    (* Skip line comment *)
    content <- skip_comment content ;;
    Ret (next_line g, At content)
  else
    (* Join last note? *)
    let join := 0 in
    if code =? ch "&" then
      let join := 1 in
      Ret (g, At content)
    else
      if (code >=? ch "A") && (code <=? ch "Z") then
        if pos g =? 1 then
          (* Decode active channels *)
          let states := update 0 (set_isActive 0) (mml_channel_states g) in
          let states := enable_channel (code - ch "A") states in
          let '(states, content, pos_) := select_channels content states (pos g) in
          Ret (set_pos pos_ (set_states states g), At content)
        else
          let g := mkGlobals (line g) (pos g) (mml_channel_states g) (frame_map g)
                             (error_handler "Misplaced channel selector" g) in
          command g join code content
      else command g join code content.

(** The main loop, [while (1)]. *)
Fixpoint mml_loop (fuel : nat) (g : state) (content : cursor) : result state :=
  match fuel with
  | O => OutOfFuel
  | S fuel =>
      let g := set_pos (pos g + 1) g in
      match content with
      | Past => Undef OutOfBounds
      | At [] => Ret g
      | At (c :: content) =>
          let code := char_of_ascii c in
          if code =? 0 then Ret g else
          ' (g, content) <- mml_step g code content ;;
          mml_loop fuel g content
      end
  end.

(** Parse the MML file and produce sequencer stream of frames.  [Ret] is
    the end of the input: the function then runs off its closing brace
    (it has no [return] there); [Fail] is [return 1].  The globals are
    those of the first call in a process ([mml_channel_count] is 0). *)
Definition mml_parse (content : string) : result state :=
  let content := list_ascii_of_string content in
  let g := mkGlobals 1 0 (reset_active_state []) [] [] in
  mml_loop (2 + List.length content) g (At content).

(** ** Vocabulary of the properties *)

(** The globals at the head of the main loop of [mml_parse]. *)
Definition start : state := mkGlobals 1 0 [first_channel] [] [].

(** The octave of every channel after a compile. *)
Definition octaves (r : result state) : result (list (option Z)) :=
  g <- r ;; Ret (map octave (mml_channel_states g)).

(** The running time, in time units, of every channel after a compile. *)
Definition running_units (r : result state) : result (list (option Z)) :=
  g <- r ;; Ret (map time_units (mml_channel_states g)).

(** What [add_channel_frame] asks of [voice_wf_setup_def]: a pause asks
    for frequency 0 and amplitude 0. *)
Definition requested (frequency volume : Z) : option waveform :=
  if frequency =? 0 then voice_wf_setup_def 0 0 else voice_wf_setup_def frequency volume.

(** [(int)round(state->running_time.seconds * synth_freq)], as
    [get_adsr_time_scale] computes it. *)
Definition rounded_samples (sec : double) : result Z :=
  samples <- fmul sec (inject_Z synth_freq) ;;
  to_int (round samples).

(** A channel is within the envelope when its time-unit accumulator is at
    most [ADSR_TIME_UNITS] away from its rounded running seconds times the
    sample rate.  A channel that was never written has no accumulator. *)
Definition within_envelope (s : mml_channel_state_t) : bool :=
  match seconds s, time_units s with
  | Some sec, Some units =>
      match rounded_samples sec with
      | Ret total => Z.abs (units - total) <=? ADSR_TIME_UNITS
      | _ => false
      end
  | _, _ => true
  end.

Definition all_within (states : list mml_channel_state_t) : Prop :=
  Forall (fun s => within_envelope s = true) states.

(** A note was played on channel [c]: between the globals [g] and [g'] the
    state of the channel went from [s] to [s'] by one call of
    [get_adsr_time_scale], and the time scale that call returned is the
    one [add_channel_frame] was called with for the channel, by a call
    that found the frames of the channel as they are in [g] and left them
    as they are in [g']: with one frame more, which holds the time scale
    minus one in its 16-bit field. *)
Definition played (g g' : state) (c : nat) (s s' : mml_channel_state_t) : Prop :=
  exists (length dots time_scale : Z) (fr : seq_frame_t),
    get_adsr_time_scale s length dots = Ret (time_scale, s')
    /\ (exists (g1 g2 : state) (frequency volume : Z) (articulation : double),
          add_channel_frame g1 (Z.of_nat c) frequency time_scale volume articulation 0
            = Ret g2
          /\ nth c (frame_map g1) [] = nth c (frame_map g) []
          /\ nth c (frame_map g2) [] = nth c (frame_map g') [])
    /\ nth c (frame_map g') [] = nth c (frame_map g) [] ++ [fr]
    /\ adsr_time_scale_1 fr = to_uint16 (time_scale - 1)
    /\ time_scale <= UINT16_MAX.

(** The same channels, and possibly more, with the running seconds and
    the time-unit accumulator that each had. *)
Definition keeps_running_time (states states' : list mml_channel_state_t) : Prop :=
  forall c s,
    nth_error states c = Some s ->
    exists s', nth_error states' c = Some s'
               /\ seconds s' = seconds s /\ time_units s' = time_units s.

(** The quantizer over the successive notes (length, dots) of one channel,
    with the time scales it returns: these are the values [set_note] hands
    to [add_channel_frame] for that channel. *)
Fixpoint quantize_all (st : mml_channel_state_t) (notes : list (Z * Z))
  : result (list Z * mml_channel_state_t) :=
  match notes with
  | [] => Ret ([], st)
  | (length, dots) :: r =>
      ' (time_scale, st) <- get_adsr_time_scale st length dots ;;
      ' (scales, st) <- quantize_all st r ;;
      Ret (time_scale :: scales, st)
  end.

(** The time-unit accumulator of a channel is a whole number of envelopes. *)
Definition units_aligned (s : mml_channel_state_t) : Prop :=
  forall units, time_units s = Some units -> (ADSR_TIME_UNITS | units).

End Compiler.

Arguments start {waveform}.
Arguments octaves {waveform} r.
Arguments running_units {waveform} r.

Definition sum (l : list Z) : Z := fold_right Z.add 0 l.

(** An outcome other than the exhaustion of the fuel. *)
Definition halts {A : Type} (r : result A) : Prop := r <> OutOfFuel.

(** What is left of the text at a cursor, the terminator included. *)
Definition cursor_size (cur : cursor) : nat :=
  match cur with
  | At l => S (List.length l)
  | Past => O
  end.

(** ** Vocabulary of the further properties *)

(** A channel takes part in the commands of the current line. *)
Definition is_active (s : mml_channel_state_t) : bool :=
  match isActive s with
  | Some a => negb (a =? 0)
  | None => false
  end.

(** The number of frames of a channel of a frame map. *)
Definition frames_on {F : Type} (channel : nat) (m : list (list F)) : nat :=
  List.length (nth channel m []).

(** A frame map holds, on every channel, the frames of another and
    possibly more behind them. *)
Definition extends {F : Type} (m m' : list (list F)) : Prop :=
  forall channel, exists added, nth channel m' [] = nth channel m [] ++ added.

(** The entry codes of a note or a pause. *)
Definition is_note_entry (code : Z) : bool :=
  (code =? ch "p") || (code =? ch "r") || (code =? ch "n")
  || ((ch "a" <=? code) && (code <=? ch "g")).

(** The semitone of the letters a to g within the octave that starts at c. *)
Definition scale : list Z := [9; 11; 0; 2; 4; 5; 7].

Definition isupper (c : Z) : bool := (c >=? ch "A") && (c <=? ch "Z").

(** The uppercase letters at the head of a text. *)
Fixpoint selector_run (content : buffer) : buffer :=
  match content with
  | c :: r => if isupper (char_of_ascii c) then c :: selector_run r else []
  | [] => []
  end.

(** Channel [i] is the channel of one of the letters of a selector. *)
Definition named (i : nat) (letters : buffer) : bool :=
  existsb (fun c => Nat.eqb i (Z.to_nat (char_of_ascii c - ch "A"))) letters.

(** The log of a failure is the log so far and one report on the current
    line. *)
Definition one_report {F : Type} (g : globals F) (log : list report) : Prop :=
  exists msg column, log = reported g ++ [mkReport msg (line g) column].

(** The two reports of an uppercase letter that is not at column 1. *)
Definition selector_reports (line_ column : Z) : list report :=
  [mkReport "Misplaced channel selector" line_ column;
   mkReport "Unknown command" line_ column].

(** A run of the blanks [strtol] skips. *)
Definition blanks (ws : buffer) : bool := forallb (fun c => isspace (char_of_ascii c)) ws.

(** A field that was written holds a value between two bounds, or a
    value that is not below a bound. *)
Definition field_in (lo hi : Z) (field : option Z) : bool :=
  match field with
  | Some v => (lo <=? v) && (v <=? hi)
  | None => true
  end.

Definition field_from (lo : Z) (field : option Z) : bool :=
  match field with
  | Some v => lo <=? v
  | None => true
  end.

(** The written fields of a channel hold what the commands let through:
    an octave of 0..9, a default length and a tempo of at least 1, no
    negative count of dots, a volume of 1..128, one of the three
    articulations, an active flag of 0 or 1. *)
Definition fields_in_range (s : mml_channel_state_t) : bool :=
  field_in 0 9 (octave s)
  && field_from 1 (default_length s)
  && field_from 0 (default_length_dot s)
  && field_from 1 (tempo s)
  && field_in 1 128 (volume s)
  && match articulation s with
     | Some a => Qeq_bool a ARTICULATION_LEGATO || Qeq_bool a ARTICULATION_NORMAL
                 || Qeq_bool a ARTICULATION_STACCATO
     | None => true
     end
  && field_in 0 1 (isActive s).

(** A channel as the commands leave it. *)
Definition settled (ADSR_TIME_UNITS : Z) (s : mml_channel_state_t) : Prop :=
  fields_in_range s = true /\ units_aligned ADSR_TIME_UNITS s.

(** ** A host configuration

    One setting of what [mml.c] takes from outside, to run the parser on
    concrete inputs: a 32 kHz sample rate, 64 time units per envelope, a
    waveform builder that accepts every request and keeps the frequency
    and the amplitude, and powers of two in twelfths of an octave (the
    only calls of [pow] in [mml.c]) from a table of the twelve roots. *)
Module Host.

Definition synth_freq : Z := 32000.
Definition ADSR_TIME_UNITS : Z := 64.

Definition twelfth_roots : list Z :=
  [1000000000000; 1059463094359; 1122462048309; 1189207115003;
   1259921049895; 1334839854170; 1414213562373; 1498307076877;
   1587401051968; 1681792830507; 1781797436281; 1887748625363].

Definition pow (x y : double) : double :=
  let k := nearest (y * 12)%Q in
  let root := (inject_Z (nth (Z.to_nat (k mod 12)) twelfth_roots 0%Z) / 1000000000000)%Q in
  let octaves := k / 12 in
  binary64 (if 0 <=? octaves
            then (root * inject_Z (2 ^ octaves))%Q
            else (root / inject_Z (2 ^ (- octaves)))%Q).

Definition waveform : Type := Z * Z.
Definition voice_wf_setup_def (frequency amplitude : Z) : option waveform :=
  Some (frequency, amplitude).

Definition frame : Type := seq_frame_t waveform.

Definition compile (content : string) : result (state waveform) :=
  mml_parse synth_freq ADSR_TIME_UNITS pow waveform voice_wf_setup_def content.

(** The frequencies and durations of the compiled frames, by channel. *)
Definition notes (g : state waveform) : list (list (Z * Z)) :=
  map (map (fun f : frame => (fst (wf waveform f), adsr_time_scale_1 waveform f + 1)))
      (frame_map g).

Definition outcome (r : result (state waveform)) : result (list (list (Z * Z))) :=
  g <- r ;; Ret (notes g).

(** The quantizer on the notes of a fresh channel: the sum of the time
    scales, and the time-unit accumulator of the channel afterwards. *)
Definition quantized (played : list (Z * Z)) : result (Z * option Z) :=
  ' (scales, st) <- quantize_all synth_freq ADSR_TIME_UNITS first_channel played ;;
  Ret (sum scales, time_units st).

(** [add_channel_frame] on channel 0 of an empty frame map. *)
Definition emit (frequency time_scale : Z) : result (list (list (Z * Z))) :=
  outcome (add_channel_frame ADSR_TIME_UNITS waveform voice_wf_setup_def
             start 0 frequency time_scale 63 ARTICULATION_NORMAL 0).

End Host.

(** * Properties *)

(** Character constants to their codes, and comparisons of integers that
    the hypotheses settle. *)
Ltac eval_ch :=
  repeat match goal with
  | |- context [ch ?c] =>
      let v := eval vm_compute in (ch c) in change (ch c) with v
  end.

Ltac settle_test t :=
  first [ replace t with true by (symmetry; first [apply Z.eqb_eq | apply Z.leb_le | apply Z.ltb_lt]; lia)
        | replace t with false by (symmetry; first [apply Z.eqb_neq | apply Z.leb_gt | apply Z.ltb_ge]; lia) ].

Ltac settle_tests :=
  rewrite ?Z.geb_leb, ?Z.gtb_ltb;
  repeat match goal with
  | |- context [?a =? ?b] => settle_test (a =? b)
  | |- context [?a <=? ?b] => settle_test (a <=? b)
  | |- context [?a <? ?b] => settle_test (a <? b)
  end.

Section Properties.

Variable synth_freq : Z.
Variable ADSR_TIME_UNITS : Z.
Variable pow : double -> double -> double.
Variable waveform : Type.
Variable voice_wf_setup_def : Z -> Z -> option waveform.

Local Notation "'within'" := (within_envelope synth_freq ADSR_TIME_UNITS).
Local Notation "'all_inside'" := (all_within synth_freq ADSR_TIME_UNITS).
Local Notation "'run_notes'" := (quantize_all synth_freq ADSR_TIME_UNITS).
Local Notation "'request'" := (requested waveform voice_wf_setup_def).
Local Notation "'parse'" :=
  (mml_parse synth_freq ADSR_TIME_UNITS pow waveform voice_wf_setup_def).
Local Notation "'step'" :=
  (mml_step synth_freq ADSR_TIME_UNITS pow waveform voice_wf_setup_def).
Local Notation "'loop'" :=
  (mml_loop synth_freq ADSR_TIME_UNITS pow waveform voice_wf_setup_def).
Local Notation "'quantize'" := (get_adsr_time_scale synth_freq ADSR_TIME_UNITS).
Local Notation "'sampled'" := (rounded_samples synth_freq).
Local Notation "'plays'" :=
  (played synth_freq ADSR_TIME_UNITS waveform voice_wf_setup_def).
Local Notation "'emit'" := (add_channel_frame ADSR_TIME_UNITS waveform voice_wf_setup_def).
Local Notation "'frame'" := (seq_frame_t waveform).

(** *** Channel selectors *)

(** C7, as amended: an uppercase letter at a column other than 1 is
    reported as "Misplaced channel selector"; that branch has no [return],
    but the same character then runs through the chain of commands, matches
    none, is reported again as "Unknown command", and the compile returns
    failure at once. *)
Theorem misplaced_selector_aborts (g : state waveform) (code : Z) (content : buffer) :
  ch "A" <= code <= ch "Z" ->
  pos g <> 1 ->
  step g code content =
    Fail (reported g ++ [mkReport "Misplaced channel selector" (line g) (pos g);
                         mkReport "Unknown command" (line g) (pos g)]).
Proof.
  intros Hcode Hpos. unfold mml_step, command. eval_ch. revert Hcode. eval_ch. intros Hcode.
  settle_tests. cbn. unfold error_handler. cbn. rewrite <- app_assoc. reflexivity.
Qed.

(** *** The join *)

(** [join] is a variable of the body of the main loop: it is set to 0 in
    every turn, and the turn that sets it to 1 ends in [continue].  The
    turn of an [&] therefore leaves nothing behind. *)
Lemma join_is_skipped (g : state waveform) (content : buffer) :
  step g (ch "&") content = Ret (g, At content).
Proof. reflexivity. Qed.

(** *** Note code 0 *)

Lemma read_number_never_zero (str : buffer) (p : Z) :
  fst (fst (read_number str p)) <> 0.
Proof.
  unfold read_number. destruct (strtol str) as [[v n] e].
  destruct (int_of_long v =? 0) eqn:E; cbn [orb]; [cbn; lia|].
  apply Z.eqb_neq in E. destruct (Nat.eqb n 0); cbn; lia.
Qed.

(** C3, evaluated: [read_number] takes a zero for a failed conversion and
    returns -1, so it never hands a 0 to the test [noteCode == 0] that
    would turn the note into a pause; the input "n0" is reported as
    "Invalid note code" and no frame is emitted. *)
Theorem note_code_zero_is_rejected :
  (forall (str : buffer) (p : Z), fst (fst (read_number str p)) <> 0)
  /\ read_number ["0"%char] 1 = (-1, ["0"%char], 1)
  /\ parse "n0" = Fail [mkReport "Invalid note code" 1 1].
Proof. split; [exact read_number_never_zero|split; reflexivity]. Qed.

(** *** Comments *)

Lemma skip_comment_overruns (content : buffer) :
  Forall (fun c => char_of_ascii c <> 10) content ->
  skip_comment content = Undef OutOfBounds.
Proof.
  induction 1 as [|c r Hc _ IH]; cbn; [reflexivity|].
  apply Z.eqb_neq in Hc. rewrite Hc. exact IH.
Qed.

(** C10, evaluated: the loop that skips a comment stops at a newline only.
    When no newline follows the comment marker, the loop steps over the
    terminator and reads outside the buffer. *)
Theorem comment_without_newline_overruns :
  (forall (g : state waveform) (code : Z) (content : buffer),
      code = ch "#" \/ code = ch ";" ->
      Forall (fun c => char_of_ascii c <> 10) content ->
      step g code content = Undef OutOfBounds)
  /\ parse "#" = Undef OutOfBounds
  /\ parse "; the end" = Undef OutOfBounds.
Proof.
  split; [|split; reflexivity].
  intros g code content [-> | ->] H; unfold mml_step; cbn;
    rewrite (skip_comment_overruns content H); reflexivity.
Qed.

(** *** Sharps and flats *)

Lemma to_char_small (n : Z) : -128 <= n <= 127 -> to_char n = n.
Proof. intros H. unfold to_char. rewrite Z.mod_small; lia. Qed.

(** One turn of the modifier loop of a letter note at a flat marker. *)
Lemma flat_marker (g : state waveform) (fuel : nat)
    (code sharp length dot customLength noteCode : Z) (content : buffer) (pos : Z) :
  ch "a" <= code <= ch "g" ->
  modifiers waveform (S fuel) g 0 (Some 0) code sharp length dot customLength noteCode
            ("-"%char :: content) pos =
    if (code =? ch "f") || (code =? ch "c")
    then Fail (reported g ++ [mkReport "Invalid sharp" (line g) pos])
    else modifiers waveform fuel g 0 (Some 0) (code - 1) 1 length dot customLength noteCode
                   content (pos + 1).
Proof.
  intros Hcode. revert Hcode. eval_ch. intros Hcode.
  cbn [modifiers]. cbn [load bind Z.eqb char_of_ascii tl].
  change (char_of_ascii "-") with 45. eval_ch. cbn [Z.eqb Pos.eqb andb orb negb].
  rewrite (to_char_small (code - 1)) by lia.
  destruct (code =? 102) eqn:Ef; [apply Z.eqb_eq in Ef; subst; reflexivity|].
  destruct (code =? 99) eqn:Ec; [apply Z.eqb_eq in Ec; subst; reflexivity|].
  apply Z.eqb_neq in Ef, Ec. settle_tests. reflexivity.
Qed.

(** C6, as amended: on a letter note the flat marker first moves to the
    previous letter and then applies the test of the sharp to that letter.
    Lowering [f] or [c] (which lands on [e] or [b]) is the error "Invalid
    sharp"; lowering any other letter, [e] and [b] included, goes on with
    the previous letter and a sharp. *)
Theorem flat_shifts_to_previous_letter :
  (forall (g : state waveform) (fuel : nat)
          (code sharp length dot customLength noteCode : Z) (content : buffer) (pos : Z),
      ch "a" <= code <= ch "g" ->
      modifiers waveform (S fuel) g 0 (Some 0) code sharp length dot customLength noteCode
                ("-"%char :: content) pos =
        if (code =? ch "f") || (code =? ch "c")
        then Fail (reported g ++ [mkReport "Invalid sharp" (line g) pos])
        else modifiers waveform fuel g 0 (Some 0) (code - 1) 1 length dot customLength
                       noteCode content (pos + 1))
  /\ parse "f-" = Fail [mkReport "Invalid sharp" 1 1]
  /\ parse "c-" = Fail [mkReport "Invalid sharp" 1 1].
Proof. split; [exact flat_marker|split; reflexivity]. Qed.

(** *** Octaves *)

Lemma for_active_set_octave (k : Z) (states states' : list mml_channel_state_t) :
  for_active (fun s => Ret (set_octave k s)) states = Ret states' ->
  Forall (fun s => isActive s = Some 0 \/ octave s = Some k) states'.
Proof.
  revert states'. induction states as [|s r IH]; intros states' H; cbn in H.
  - inversion H. constructor.
  - destruct (isActive s) as [a|] eqn:Ea; cbn in H; [|discriminate].
    destruct (for_active _ r) as [r'| | |] eqn:Er.
    + destruct (a =? 0) eqn:E0; cbn in H; inversion H; subst; constructor; auto.
      left. apply Z.eqb_eq in E0. congruence.
    + destruct (a =? 0); cbn in H; discriminate.
    + destruct (a =? 0); cbn in H; discriminate.
    + destruct (a =? 0); cbn in H; discriminate.
Qed.

Lemma read_digit_range (content : buffer) (p d : Z) (cur : cursor) (p' : Z) :
  read_digit content p = (d, cur, p') -> 0 <= d.
Proof.
  unfold read_digit. destruct content as [|c r]; intros H; injection H as <- _ _; [lia|].
  eval_ch. destruct (char_of_ascii c <? 48) eqn:E; cbn; [lia|].
  apply Z.ltb_ge in E. destruct (char_of_ascii c >? 57); lia.
Qed.

(** C8: [o] rejects the digits 7, 8 and 9 with "Invalid octave" and leaves
    an octave of 0..6 on the active channels; [>] adds one to the octave of
    the active channels and fails, with "Invalid octave step up", only on
    a channel that is at 9; so 7, 8 and 9 are reached with [>] and not
    with [o]. *)
Theorem octave_command_and_steps :
  (* o<digit> rejects 7, 8 and 9 *)
  (forall (g : state waveform) (c : ascii) (content : buffer),
      6 < char_of_ascii c - ch "0" <= 9 ->
      step g (ch "o") (c :: content) =
        Fail (reported g ++ [mkReport "Invalid octave" (line g) (pos g + 1)]))
  (* and leaves on the active channels an octave of 0..6 *)
  /\ (forall (g g' : state waveform) (content : buffer) (cur : cursor),
      step g (ch "o") content = Ret (g', cur) ->
      Forall (fun s => isActive s = Some 0 \/
                       exists k, octave s = Some k /\ 0 <= k <= 6)
             (mml_channel_states g'))
  (* > adds one to the octave of a channel, and fails only at 9 *)
  /\ (forall (g : state waveform) (content : buffer),
      step g (ch ">") content =
        states <- for_active (octave_up waveform g) (mml_channel_states g) ;;
        Ret (set_states states g, At content))
  /\ (forall (g : state waveform) (s : mml_channel_state_t) (k : Z),
      octave s = Some k ->
      octave_up waveform g s =
        if k =? 9
        then Fail (reported g ++ [mkReport "Invalid octave step up" (line g) (pos g)])
        else Ret (set_octave (k + 1) s))
  (* 7, 8 and 9 are reached with > and not with o *)
  /\ octaves (parse "o6>") = Ret [Some 7]
  /\ octaves (parse "o6>>") = Ret [Some 8]
  /\ octaves (parse "o6>>>") = Ret [Some 9]
  /\ parse "o6>>>>" = Fail [mkReport "Invalid octave step up" 1 6]
  /\ parse "o7" = Fail [mkReport "Invalid octave" 1 2]
  /\ parse "o8" = Fail [mkReport "Invalid octave" 1 2]
  /\ parse "o9" = Fail [mkReport "Invalid octave" 1 2].
Proof.
  repeat split; try reflexivity.
  - intros g c content H. revert H. unfold mml_step, command, read_digit. eval_ch.
    intros H. cbn [Z.leb Z.eqb Z.compare Pos.compare Pos.compare_cont orb andb Z.geb Pos.eqb].
    cbv zeta. settle_tests. cbn [orb]. settle_tests. reflexivity.
  - intros g g' content cur H. unfold mml_step, command in H. revert H. eval_ch.
    cbn [Z.leb Z.eqb Z.compare Pos.compare Pos.compare_cont orb andb Z.geb Pos.eqb].
    destruct (read_digit content (pos g)) as [[d cur'] p] eqn:Ed.
    cbv zeta. intros H.
    destruct ((d =? 255) || (d >? 6)) eqn:Et; [discriminate|].
    apply orb_false_elim in Et. destruct Et as [_ Et].
    destruct (for_active _ _) as [st| | |] eqn:Ef; cbn in H; try discriminate.
    inversion H; subst. cbn.
    apply for_active_set_octave in Ef.
    eapply Forall_impl; [|exact Ef]. intros s [Hs|Hs]; [left; exact Hs|right].
    exists d. split; [exact Hs|].
    pose proof (read_digit_range _ _ _ _ _ Ed) as Hd.
    rewrite Z.gtb_ltb in Et. apply Z.ltb_ge in Et. lia.
  - intros g s k H. unfold octave_up. rewrite H. reflexivity.
Qed.

(** *** The frame emitter *)

Lemma nth_update {A : Type} (i : nat) (f : A -> A) (l : list A) (d : A) :
  (i < List.length l)%nat -> nth i (update i f l) d = f (nth i l d).
Proof.
  revert i. induction l as [|x r IH]; intros [|i] H; cbn in *; try lia; auto.
  apply IH. lia.
Qed.

Lemma grow_frame_map_length (channel : Z) (m : list (list frame)) :
  0 <= channel ->
  (Z.to_nat channel < List.length (grow_frame_map waveform channel m))%nat.
Proof.
  intros H. unfold grow_frame_map.
  destruct (channel >=? Z.of_nat (List.length m)) eqn:E.
  - rewrite length_app, repeat_length. lia.
  - rewrite Z.geb_leb in E. apply Z.leb_gt in E. lia.
Qed.

Lemma nth_grow_frame_map (channel : Z) (m : list (list frame)) :
  nth (Z.to_nat channel) (grow_frame_map waveform channel m) [] = nth (Z.to_nat channel) m [].
Proof.
  unfold grow_frame_map. destruct (channel >=? _) eqn:E; [|reflexivity].
  rewrite Z.geb_leb in E. apply Z.leb_le in E.
  rewrite app_nth2 by lia. rewrite (nth_overflow m) by lia.
  generalize (Z.to_nat channel - List.length m)%nat, (Z.to_nat (channel + 1 - Z.of_nat (List.length m))).
  intros a b. revert a. induction b as [|b IH]; intros [|a]; cbn; auto.
Qed.

Lemma to_uint16_small (v : Z) : 0 <= v <= 65535 -> to_uint16 v = v.
Proof. intros H. unfold to_uint16. apply Z.mod_small. lia. Qed.

(** C9, as amended: a duration (the time scale of a new frame, or the sum
    of the time scale and the duration of the frame that is amended) is
    stored minus one in the 16-bit field; every duration in 1..65535 is
    accepted, and every duration above 65535 is the error "Can't pack
    frame: adsr time_scale". *)
Theorem frame_duration_range (g : state waveform) (channel frequency time_scale volume : Z)
    (articulation : double) (w : waveform) (release : Z) :
  0 <= channel ->
  request frequency volume = Some w ->
  (product <- fmul (inject_Z ADSR_TIME_UNITS) articulation ;; to_uint8 (round product))
    = Ret release ->
  let frames := nth (Z.to_nat channel) (frame_map g) [] in
  (* a new frame *)
  (1 <= time_scale <= 65535 ->
     exists g',
       emit g channel frequency time_scale volume articulation 0 = Ret g' /\
       nth (Z.to_nat channel) (frame_map g') [] =
         frames ++ [mkFrame waveform w (time_scale - 1) (release - 1)])
  /\ (65535 < time_scale ->
       emit g channel frequency time_scale volume articulation 0 =
         Fail (reported g ++
               [mkReport "Can't pack frame: adsr time_scale" (line g) (pos g)]))
  (* the last frame amended *)
  /\ (forall (earlier : list frame) (last : frame) (total : Z),
        frames = earlier ++ [last] ->
        total = time_scale + (adsr_time_scale_1 waveform last + 1) ->
        (1 <= total <= 65535 ->
           exists g',
             emit g channel frequency time_scale volume articulation 1 = Ret g' /\
             nth (Z.to_nat channel) (frame_map g') [] =
               earlier ++ [mkFrame waveform w (total - 1) (release - 1)])
        /\ (65535 < total ->
             emit g channel frequency time_scale volume articulation 1 =
               Fail (reported g ++
                     [mkReport "Can't pack frame: adsr time_scale" (line g) (pos g)]))).
Proof.
  intros Hch Hw Hrel frames.
  assert (Hnth : nth (Z.to_nat channel) (grow_frame_map waveform channel (frame_map g)) []
                 = frames) by apply nth_grow_frame_map.
  clearbody frames.
  assert (Hwave : (if frequency =? 0
                   then match voice_wf_setup_def 0 0 with
                        | Some w => Ret w
                        | None => Fail (error_handler "Can't pack frame: pause" g)
                        end
                   else match voice_wf_setup_def frequency volume with
                        | Some w => Ret w
                        | None => Fail (error_handler "Can't pack frame: waveform" g)
                        end) = Ret w).
  { unfold requested in Hw. destruct (frequency =? 0); rewrite Hw; reflexivity. }
  split; [|split].
  - intros Hts. unfold add_channel_frame. rewrite Hnth, Hwave. cbn.
    unfold UINT16_MAX. settle_tests. rewrite Hrel. cbn. eexists. split; [reflexivity|].
    cbn. rewrite nth_update by (apply grow_frame_map_length; exact Hch).
    rewrite to_uint16_small by lia. reflexivity.
  - intros Hts. unfold add_channel_frame. rewrite Hnth, Hwave. cbn.
    unfold UINT16_MAX. settle_tests. reflexivity.
  - intros earlier last total Hfr Htot.
    assert (Hlast : nth_error (rev frames) 0 = Some last).
    { rewrite Hfr, rev_app_distr. reflexivity. }
    assert (Hlen : Nat.eqb (List.length frames) 0 = false).
    { rewrite Hfr, length_app. cbn. apply Nat.eqb_neq. lia. }
    split; intros Hts; unfold add_channel_frame; rewrite Hnth, Hwave, Hlen, Hlast;
      cbn [Z.eqb negb andb bind]; unfold UINT16_MAX; rewrite <- Htot; settle_tests.
    + rewrite Hrel. cbn. eexists. split; [reflexivity|].
      cbn. rewrite nth_update by (apply grow_frame_map_length; exact Hch).
      rewrite Hfr, removelast_last. rewrite to_uint16_small by lia. reflexivity.
    + reflexivity.
Qed.

(** *** Numbers *)

Lemma read_digits_decimal (ds rest : buffer) (acc : Z) :
  digits ds = true -> stops rest = true ->
  read_digits acc (ds ++ rest) = (decimal_from acc ds, List.length ds, rest).
Proof.
  intros Hds Hrest. revert acc. induction ds as [|c r IH]; intros acc; cbn.
  - destruct rest as [|c r]; [reflexivity|]. cbn in Hrest.
    cbn. destruct (isdigit (char_of_ascii c)); [discriminate|reflexivity].
  - cbn in Hds. apply andb_prop in Hds. destruct Hds as [Hc Hr].
    rewrite Hc, (IH Hr). reflexivity.
Qed.





Lemma mml_loop_end (fuel : nat) (g : state waveform) :
  loop (S fuel) g (At []) = Ret (set_pos (pos g + 1) g).
Proof. reflexivity. Qed.




(** *** The arithmetic of [double] *)

Lemma pow2_pos (e : Z) : (0 < pow2 e)%Q.
Proof.
  unfold pow2. destruct (0 <=? e) eqn:E.
  - apply Z.leb_le in E. unfold Qlt. cbn. pose proof (Z.pow_pos_nonneg 2 e). lia.
  - reflexivity.
Qed.

Lemma pow2_le_1 (e : Z) : e <= 0 -> (pow2 e <= 1)%Q.
Proof.
  intros H. unfold pow2. destruct (0 <=? e) eqn:E.
  - apply Z.leb_le in E. replace e with 0 by lia. cbn. discriminate.
  - unfold Qle. cbn. lia.
Qed.

Lemma rne_error (x : Q) : (x - (1 # 2) <= inject_Z (rne x) <= x + (1 # 2))%Q.
Proof.
  unfold rne. pose proof (Qfloor_le x) as H1. pose proof (Qlt_floor x) as H2.
  rewrite inject_Z_plus in H2. change (inject_Z 1) with 1%Q in H2.
  destruct (x - inject_Z (Qfloor x) ?= 1 # 2)%Q eqn:E.
  - apply Qeq_alt in E.
    destruct (Z.even (Qfloor x)); rewrite ?inject_Z_plus; change (inject_Z 1) with 1%Q; lra.
  - apply Qlt_alt in E. lra.
  - apply Qgt_alt in E. rewrite inject_Z_plus. change (inject_Z 1) with 1%Q. lra.
Qed.

Lemma ilog2_le (x : Q) (b : Z) :
  0 <= b -> (0 < x)%Q -> (x <= inject_Z (2 ^ b))%Q -> ilog2 x <= b.
Proof.
  intros Hb Hx Hle. unfold ilog2.
  assert (H : Z.log2 (Qnum x) - Z.log2 (Z.pos (Qden x)) <= b).
  { destruct x as [n d]. cbn [Qnum Qden]. unfold Qlt in Hx. unfold Qle in Hle. cbn in Hx, Hle.
    assert (Hn : 0 < n) by lia.
    assert (Hm : Z.log2 n <= Z.log2 (2 ^ b * Z.pos d)) by (apply Z.log2_le_mono; lia).
    rewrite Z.mul_comm, Z.log2_mul_pow2 in Hm by lia. lia. }
  destruct (Qle_bool _ _); lia.
Qed.

Lemma Qabs_pos (x : Q) : ~ (x == 0)%Q -> (0 < Qabs x)%Q.
Proof. intros H. apply Qabs_case; intros; lra. Qed.

(** Up to 2^52 the values of the format are at most one apart: rounding
    moves a number by at most one half. *)
Lemma binary64_error (x : Q) :
  (Qabs x <= inject_Z (2 ^ 52))%Q ->
  (x - (1 # 2) <= binary64 x <= x + (1 # 2))%Q.
Proof.
  intros Hx. unfold binary64. destruct (Qeq_bool x 0) eqn:E0.
  - apply Qeq_bool_iff in E0. lra.
  - apply Qeq_bool_neq in E0.
    set (e := Z.max (ilog2 (Qabs x) - 52) (-1074)).
    assert (He : e <= 0).
    { assert (ilog2 (Qabs x) <= 52); [|lia].
      apply ilog2_le; [lia| |exact Hx]. apply Qabs_pos. exact E0. }
    rewrite Qred_correct.
    pose proof (pow2_pos e) as Hp. pose proof (pow2_le_1 e He) as Hp1.
    pose proof (rne_error (x / pow2 e)) as Hr.
    set (m := inject_Z (rne (x / pow2 e))) in *.
    assert (Hq : (x / pow2 e * pow2 e == x)%Q) by (field; lra).
    set (y := (x / pow2 e)%Q) in *.
    destruct Hr as (Hr1 & Hr2). split; nra.
Qed.

Lemma rounded_inv (x : Q) (y : double) : rounded x = Ret y -> y = binary64 x.
Proof.
  unfold rounded. cbv zeta. destruct (Qle_bool _ _); intros H; inversion H. reflexivity.
Qed.

Lemma rounded_error (x : Q) (y : double) :
  rounded x = Ret y ->
  (- inject_Z (2 ^ 52) <= x <= inject_Z (2 ^ 52))%Q ->
  (x - (1 # 2) <= y <= x + (1 # 2))%Q.
Proof.
  intros H Hx. apply rounded_inv in H. subst y. apply binary64_error.
  apply Qabs_Qle_condition. exact Hx.
Qed.

Lemma rounded_zero (x : Q) : (x == 0)%Q -> rounded x = Ret 0%Q.
Proof.
  intros E. unfold rounded, binary64.
  assert (E0 : Qeq_bool x 0 = true) by (apply Qeq_bool_iff; exact E).
  rewrite E0. reflexivity.
Qed.

Lemma fdiv_inv (a b : double) (y : double) :
  fdiv a b = Ret y -> ~ (b == 0)%Q /\ rounded (a / b) = Ret y.
Proof.
  unfold fdiv. destruct (Qeq_bool b 0) eqn:E; [discriminate|].
  apply Qeq_bool_neq in E. auto.
Qed.

Lemma nearest_error (x : Q) : (x - (1 # 2) <= inject_Z (nearest x) <= x + (1 # 2))%Q.
Proof.
  unfold nearest. destruct (Qle_bool 0 x).
  - pose proof (Qfloor_le (x + (1 # 2))) as H1. pose proof (Qlt_floor (x + (1 # 2))) as H2.
    rewrite inject_Z_plus in H2. change (inject_Z 1) with 1%Q in H2. lra.
  - pose proof (Qle_ceiling (x - (1 # 2))) as H1.
    pose proof (Qceiling_lt (x - (1 # 2))) as H2.
    unfold Z.sub in H2. rewrite inject_Z_plus in H2.
    change (inject_Z (Z.opp 1)) with (-1 # 1)%Q in H2.
    lra.
Qed.

(** *** The duration quantizer *)

Lemma trunc_inject_Z (k : Z) : trunc (inject_Z k) = k.
Proof. unfold trunc. destruct (Qle_bool 0 (inject_Z k)); [apply Qfloor_Z | apply Qceiling_Z]. Qed.

Lemma to_int_round (x : double) : to_int (round x) = int_arith (nearest x).
Proof. unfold to_int, round. rewrite trunc_inject_Z. reflexivity. Qed.

Lemma inject_Z_sub (a b : Z) : (inject_Z (a - b) == inject_Z a - inject_Z b)%Q.
Proof. unfold Z.sub, Qminus. rewrite inject_Z_plus, inject_Z_opp. reflexivity. Qed.

Lemma int_arith_inv (v r : Z) : int_arith v = Ret r -> r = v.
Proof. unfold int_arith. destruct (_ && _); intros H; inversion H; reflexivity. Qed.

Lemma int_arith_range (v r : Z) : int_arith v = Ret r -> INT_MIN <= v <= INT_MAX.
Proof.
  unfold int_arith. destruct (_ && _) eqn:E; intros H; inversion H.
  apply andb_prop in E. destruct E as (E1 & E2). apply Z.leb_le in E1, E2. lia.
Qed.

(** What a call of the quantizer that returns has computed: the new
    running seconds [sec], their rounded samples [total], the difference
    [delta] to the accumulator [units] and its [quotient] by
    [ADSR_TIME_UNITS], both as [double]s, and the time scale. *)
Lemma quantize_inv (st st' : mml_channel_state_t) (length dots time_scale : Z) :
  quantize st length dots = Ret (time_scale, st') ->
  exists (sec : double) (units total : Z),
    time_units st = Some units /\
    st' = set_running_time sec (units + time_scale * ADSR_TIME_UNITS) st /\
    sampled sec = Ret total /\
    (exists delta quotient : double,
        fsub (inject_Z total) (inject_Z units) = Ret delta
        /\ fdiv delta (inject_Z ADSR_TIME_UNITS) = Ret quotient
        /\ time_scale = nearest quotient) /\
    INT_MIN <= total <= INT_MAX /\
    INT_MIN <= time_scale * ADSR_TIME_UNITS <= INT_MAX /\
    INT_MIN <= units + time_scale * ADSR_TIME_UNITS <= INT_MAX.
Proof.
  unfold get_adsr_time_scale, rounded_samples. intros H.
  destruct (apply_dots _ _) as [l| | |]; cbn [bind] in H; try discriminate.
  destruct (tempo st) as [t|]; cbn [load bind] in H; [|discriminate].
  destruct (fdiv _ (inject_Z t)) as [whole| | |]; cbn [bind] in H; try discriminate.
  destruct (fdiv whole l) as [secs| | |]; cbn [bind] in H; try discriminate.
  destruct (seconds st) as [sec|]; cbn [load bind] in H; [|discriminate].
  destruct (fadd sec secs) as [running| | |]; cbn [bind] in H; try discriminate.
  destruct (fmul running _) as [samples| | |] eqn:Em; cbn [bind] in H; try discriminate.
  destruct (to_int (round samples)) as [total| | |] eqn:Et; cbn [bind] in H;
    try discriminate.
  destruct (time_units st) as [units|]; cbn [load bind] in H; [|discriminate].
  destruct (fsub _ _) as [delta| | |] eqn:Ed; cbn [bind] in H; try discriminate.
  destruct (fdiv delta _) as [quotient| | |] eqn:Eq; cbn [bind] in H; try discriminate.
  rewrite to_int_round in H.
  destruct (int_arith (nearest _)) as [ts| | |] eqn:Es; cbn [bind] in H; try discriminate.
  destruct (int_arith (ts * _)) as [stp| | |] eqn:Ep; cbn [bind] in H; try discriminate.
  destruct (int_arith (units + _)) as [u'| | |] eqn:Eu; cbn [bind] in H; try discriminate.
  pose proof (int_arith_range _ _ Ep) as Rp. pose proof (int_arith_range _ _ Eu) as Ru.
  assert (Rt : INT_MIN <= total <= INT_MAX).
  { unfold to_int in Et. pose proof (int_arith_range _ _ Et) as R.
    apply int_arith_inv in Et. unfold round in Et. rewrite trunc_inject_Z in Et.
    unfold round in R. rewrite trunc_inject_Z in R. subst total. exact R. }
  apply int_arith_inv in Es, Ep, Eu. inversion H; subst.
  exists running, units, total. split; [reflexivity|]. split; [reflexivity|].
  split; [rewrite Em; cbn [bind]; exact Et|].
  split; [exists delta, quotient; repeat split; assumption|].
  repeat split; lia.
Qed.

(** The accumulator after a call is at most one [ADSR_TIME_UNITS] away
    from the rounded samples: the quotient of the difference is a [double]
    at most one half away from the exact quotient, the time scale an
    integer at most one half away from that, and the difference itself is
    within one half of the difference of the integers. *)
Lemma quantize_within_envelope (st st' : mml_channel_state_t) (length dots time_scale : Z) :
  0 < ADSR_TIME_UNITS ->
  quantize st length dots = Ret (time_scale, st') ->
  within st' = true.
Proof.
  intros Ha H. apply quantize_inv in H.
  destruct H as (sec & units & total & Hu & -> & Ht & (delta & quotient & Hd & Hq & Hs)
                 & Rt & Rp & Ru).
  unfold within_envelope. cbn [seconds time_units set_running_time]. rewrite Ht.
  apply Z.leb_le.
  unfold INT_MIN, INT_MAX in *.
  assert (HD : (- 6442450944 <= inject_Z (total - units) <= 6442450944)%Q).
  { change (- 6442450944)%Q with (inject_Z (- 6442450944)).
    change 6442450944%Q with (inject_Z 6442450944).
    split; rewrite <- Zle_Qle; lia. }
  assert (Hsub : (inject_Z total - inject_Z units == inject_Z (total - units))%Q)
    by (symmetry; apply inject_Z_sub).
  assert (Hpos : (1 <= inject_Z ADSR_TIME_UNITS)%Q) by (rewrite <- (Zle_Qle 1); lia).
  set (a := inject_Z ADSR_TIME_UNITS) in *. set (D := inject_Z (total - units)) in *.
  (* the difference, as a double *)
  unfold fsub in Hd. apply rounded_error in Hd.
  2:{ change (inject_Z (2 ^ 52)) with 4503599627370496%Q. lra. }
  (* the quotient, as a double *)
  apply fdiv_inv in Hq. destruct Hq as (_ & Hq).
  assert (Hy : (delta / a * a == delta)%Q) by (field; lra).
  set (y := (delta / a)%Q) in *.
  apply rounded_error in Hq.
  2:{ change (inject_Z (2 ^ 52)) with 4503599627370496%Q. split; nra. }
  (* the time scale *)
  pose proof (nearest_error quotient) as Hn. rewrite <- Hs in Hn.
  set (t := inject_Z time_scale) in *.
  assert (Hb : (- a - (1 # 2) <= t * a - D <= a + (1 # 2))%Q) by (split; nra).
  assert (Hm : (t * a - D == inject_Z (time_scale * ADSR_TIME_UNITS - (total - units)))%Q).
  { subst t a D. rewrite (inject_Z_sub (time_scale * ADSR_TIME_UNITS)), inject_Z_mult.
    reflexivity. }
  rewrite Hm in Hb. destruct Hb as (Hb1 & Hb2).
  assert (H1 : - ADSR_TIME_UNITS <= time_scale * ADSR_TIME_UNITS - (total - units)).
  { unfold Qle in Hb1. cbn in Hb1. lia. }
  assert (H2 : time_scale * ADSR_TIME_UNITS - (total - units) <= ADSR_TIME_UNITS).
  { unfold Qle in Hb2. cbn in Hb2. lia. }
  lia.
Qed.

Lemma quantize_all_within_envelope (notes : list (Z * Z)) (st st' : mml_channel_state_t)
    (scales : list Z) :
  0 < ADSR_TIME_UNITS ->
  run_notes st notes = Ret (scales, st') ->
  within st = true ->
  within st' = true.
Proof.
  intros Ha. revert st scales. induction notes as [|[l d] r IH]; intros st scales H Hst.
  - inversion H; subst. exact Hst.
  - cbn [quantize_all] in H.
    destruct (quantize st l d) as [[ts st1]| | |] eqn:E1; cbn [bind] in H; try discriminate.
    destruct (run_notes st1 r) as [[tss st2]| | |] eqn:E2; cbn [bind] in H;
      try discriminate.
    inversion H; subst. eapply IH; [exact E2|].
    eapply quantize_within_envelope; eauto.
Qed.

Section Invariant.

Hypothesis positive_units : 0 < ADSR_TIME_UNITS.

Lemma within_new_channel : within new_channel = true.
Proof.
  unfold within_envelope, new_channel, rounded_samples, fmul. cbn [seconds time_units].
  rewrite rounded_zero by apply Qmult_0_l. cbn. apply Z.leb_le. lia.
Qed.

Lemma all_within_update (i : nat) (f : mml_channel_state_t -> mml_channel_state_t)
    (states : list mml_channel_state_t) :
  (forall s, within (f s) = within s) ->
  all_inside states -> all_inside (update i f states).
Proof.
  intros Hf H. revert i. induction H as [|s r Hs Hr IH]; intros [|i]; cbn;
    constructor; auto; try apply IH. rewrite Hf. exact Hs.
Qed.

Lemma all_within_enable (channel : Z) (states : list mml_channel_state_t) :
  all_inside states -> all_inside (enable_channel channel states).
Proof.
  intros H. unfold enable_channel. apply all_within_update; [reflexivity|].
  destruct (channel >=? _); [|exact H].
  apply Forall_app. split; [exact H|]. apply Forall_app. split.
  - apply Forall_forall. intros s Hs. apply repeat_spec in Hs. subst. reflexivity.
  - constructor; [apply within_new_channel|constructor].
Qed.

Lemma all_within_reset (states : list mml_channel_state_t) :
  all_inside states -> all_inside (reset_active_state states).
Proof.
  intros H. unfold reset_active_state. apply all_within_enable.
  destruct H as [|s r Hs Hr]; constructor; [exact Hs|].
  apply Forall_map. exact Hr.
Qed.

Lemma all_within_select (content : buffer) (states : list mml_channel_state_t) (p : Z) :
  all_inside states -> all_inside (fst (fst (select_channels content states p))).
Proof.
  revert states p. induction content as [|c r IH]; intros states p H; cbn; [exact H|].
  destruct (_ && _); [|exact H]. apply IH. apply all_within_enable. exact H.
Qed.

Lemma all_within_for_active (body : mml_channel_state_t -> result mml_channel_state_t)
    (states states' : list mml_channel_state_t) :
  (forall s s', body s = Ret s' -> within s' = within s) ->
  for_active body states = Ret states' ->
  all_inside states -> all_inside states'.
Proof.
  intros Hbody. revert states'. induction states as [|s r IH]; intros states' H Hall.
  - inversion H. constructor.
  - inversion Hall as [|? ? Hs Hr]; subst. cbn [for_active] in H.
    destruct (isActive s) as [a|]; cbn [load bind] in H; [|discriminate].
    destruct (if a =? 0 then Ret s else body s) as [s1| | |] eqn:E1; cbn [bind] in H;
      try discriminate.
    destruct (for_active body r) as [r1| | |] eqn:E2; cbn [bind] in H; try discriminate.
    inversion H; subst. constructor; [|apply IH; auto].
    destruct (a =? 0); [inversion E1; subst; exact Hs|].
    rewrite (Hbody _ _ E1). exact Hs.
Qed.

Lemma all_within_set_note (note : note_t) (join : Z) (isNoteCode : option Z)
    (states states' : list mml_channel_state_t) (g g' : state waveform) (isPause i : Z) :
  set_note synth_freq ADSR_TIME_UNITS pow waveform voice_wf_setup_def
           g note join isNoteCode isPause i states = Ret (states', g') ->
  all_inside states -> all_inside states'.
Proof.
  revert states' g g' isPause i. induction states as [|s r IH];
    intros states' g g' isPause i H Hall.
  - inversion H. constructor.
  - inversion Hall as [|? ? Hs Hr]; subst. cbn [set_note] in H.
    destruct (isActive s) as [a|]; cbn [load bind] in H; [|discriminate].
    destruct (a =? 0).
    + destruct (set_note _ _ _ _ _ _ _ _ _ _ _ r) as [[r1 g1]| | |] eqn:E;
        cbn [bind] in H; try discriminate.
      inversion H; subst. constructor; [exact Hs|]. eapply IH; eauto.
    + repeat match type of H with
      | bind ?m _ = _ =>
          let E := fresh "E" in
          destruct m as [?| | |] eqn:E; cbn [bind] in H; try discriminate H
      | (let '(_, _) := ?p in _) = _ => destruct p
      end.
      inversion H; subst. constructor.
      * eapply quantize_within_envelope; eauto.
      * eapply IH; eauto.
Qed.

Ltac split_result H :=
  repeat match type of H with
  | (if ?b then _ else _) = _ => destruct b
  | (let '(_, _) := ?p in _) = _ => destruct p eqn:?
  | bind ?m _ = _ => destruct m eqn:?; cbn [bind] in H
  | Fail _ = Ret _ => discriminate H
  | Undef _ = Ret _ => discriminate H
  | OutOfFuel = Ret _ => discriminate H
  end.

Ltac setter_body :=
  let s := fresh "s" in let s' := fresh "s'" in let Hb := fresh "Hb" in
  intros s s' Hb;
  first [ inversion Hb; reflexivity
        | unfold octave_down, octave_up in Hb;
          destruct (octave s); cbn [load bind] in Hb; [|discriminate Hb];
          match type of Hb with (if ?b then _ else _) = _ => destruct b end;
          [discriminate Hb | inversion Hb; reflexivity] ].

Lemma all_within_command (g g' : state waveform) (join code : Z) (content : buffer)
    (cur : cursor) :
  command synth_freq ADSR_TIME_UNITS pow waveform voice_wf_setup_def
          g join code content = Ret (g', cur) ->
  all_inside (mml_channel_states g) -> all_inside (mml_channel_states g').
Proof.
  intros H Hall. unfold command in H. cbv zeta in H. split_result H;
    inversion H; subst; cbn [mml_channel_states set_states set_pos] in *;
    first [ eapply all_within_for_active; [|eassumption|assumption]; setter_body
          | eapply all_within_set_note; eassumption ].
Qed.

Lemma all_within_step (g g' : state waveform) (code : Z) (content : buffer) (cur : cursor) :
  step g code content = Ret (g', cur) ->
  all_inside (mml_channel_states g) -> all_inside (mml_channel_states g').
Proof.
  intros H Hall. unfold mml_step in H. cbv zeta in H.
  destruct (_ || _).
  { inversion H; subst. destruct (code =? 10), (code =? 13); cbn;
      try apply all_within_reset; exact Hall. }
  destruct (_ || _).
  { split_result H. inversion H; subst. cbn. apply all_within_reset. exact Hall. }
  destruct (code =? ch "&").
  { inversion H; subst. exact Hall. }
  destruct (_ && _); [destruct (pos g =? 1)|].
  - destruct (select_channels _ _ _) as [[states rest] p] eqn:E.
    inversion H; subst. cbn.
    change states with (fst (fst (states, rest, p))). rewrite <- E.
    apply all_within_select, all_within_enable, all_within_update; [reflexivity|exact Hall].
  - apply all_within_command in H; exact H || exact Hall.
  - apply all_within_command in H; exact H || exact Hall.
Qed.

Lemma all_within_loop (fuel : nat) (g g' : state waveform) (cur : cursor) :
  loop fuel g cur = Ret g' ->
  all_inside (mml_channel_states g) -> all_inside (mml_channel_states g').
Proof.
  revert g cur. induction fuel as [|fuel IH]; intros g cur H Hall; [discriminate|].
  destruct cur as [[|c content]|]; cbn [mml_loop] in H.
  - inversion H; subst. exact Hall.
  - destruct (char_of_ascii c =? 0); [inversion H; subst; exact Hall|].
    destruct (step _ _ _) as [[g1 cur1]| | |] eqn:E; cbn [bind] in H; try discriminate.
    eapply IH; [exact H|]. eapply all_within_step; [exact E|exact Hall].
  - discriminate.
Qed.

Lemma all_within_parse (content : string) (g : state waveform) :
  parse content = Ret g -> all_inside (mml_channel_states g).
Proof.
  unfold mml_parse. intros H. eapply all_within_loop; [exact H|].
  cbn. constructor; [|constructor].
  change (within (set_isActive 1 new_channel) = true).
  apply within_new_channel.
Qed.
End Invariant.


(** *** The scan is bounded: the fuel of [mml_parse] is never used up *)

Lemma halts_bind {A B : Type} (m : result A) (k : A -> result B) :
  halts m -> (forall a, m = Ret a -> halts (k a)) -> halts (bind m k).
Proof. unfold halts. destruct m; cbn; auto; discriminate. Qed.

Lemma halts_load {A : Type} (f : option A) : halts (load f).
Proof. destruct f; discriminate. Qed.

Lemma halts_int_arith (v : Z) : halts (int_arith v).
Proof. unfold int_arith. destruct (_ && _); discriminate. Qed.

Lemma halts_to_uint8 (x : double) : halts (to_uint8 x).
Proof. unfold to_uint8. cbv zeta. destruct (_ && _); discriminate. Qed.

Lemma halts_rounded (x : Q) : halts (rounded x).
Proof. unfold rounded. cbv zeta. destruct (Qle_bool _ _); discriminate. Qed.

Lemma halts_fdiv (a b : double) : halts (fdiv a b).
Proof. unfold fdiv. destruct (Qeq_bool b 0); [discriminate|apply halts_rounded]. Qed.

Lemma halts_apply_dots (dots : nat) (l : double) : halts (apply_dots dots l).
Proof.
  revert l. induction dots as [|d IH]; intros l; cbn [apply_dots]; [discriminate|].
  apply halts_bind; [apply halts_fdiv|]. intros l' _. apply IH.
Qed.

Ltac halt :=
  repeat first
    [ solve [unfold halts; discriminate]
    | apply halts_load
    | apply halts_int_arith
    | apply halts_to_uint8
    | apply halts_rounded
    | apply halts_fdiv
    | apply halts_apply_dots
    | apply halts_bind; [|intros ? _]
    | match goal with
      | |- halts (if ?b then _ else _) => destruct b
      | |- halts (match ?x with _ => _ end) => destruct x
      end ].

Lemma halts_quantize (st : mml_channel_state_t) (l d : Z) : halts (quantize st l d).
Proof. unfold get_adsr_time_scale, to_int. cbv zeta. halt. Qed.

Lemma halts_freq_code (n : Z) : halts (get_freq_from_code pow n).
Proof. unfold get_freq_from_code, to_int. halt. Qed.

Lemma halts_freq_note (n s o : Z) : halts (get_freq_from_note pow n s o).
Proof. unfold get_freq_from_note. apply halts_freq_code. Qed.

Lemma halts_emit (g : state waveform) (c f t v : Z) (a : double) (e : Z) :
  halts (emit g c f t v a e).
Proof. unfold add_channel_frame. cbv zeta. halt. Qed.

Lemma halts_for_active (body : mml_channel_state_t -> result mml_channel_state_t)
    (states : list mml_channel_state_t) :
  (forall s, halts (body s)) -> halts (for_active body states).
Proof.
  intros Hb. induction states as [|s r IH]; cbn [for_active]; [discriminate|].
  apply halts_bind; [apply halts_load|]. intros a _.
  apply halts_bind; [destruct (a =? 0); [discriminate|apply Hb]|]. intros s' _.
  apply halts_bind; [exact IH|]. discriminate.
Qed.

Lemma halts_set_note (g : state waveform) (note : note_t) (join : Z) (isNoteCode : option Z)
    (isPause i : Z) (states : list mml_channel_state_t) :
  halts (set_note synth_freq ADSR_TIME_UNITS pow waveform voice_wf_setup_def
                  g note join isNoteCode isPause i states).
Proof.
  revert g isPause i. induction states as [|s r IH]; intros g isPause i; cbn [set_note];
    [discriminate|].
  apply halts_bind; [apply halts_load|]. intros a _.
  destruct (a =? 0).
  - apply halts_bind; [apply IH|]. intros [r' g'] _. discriminate.
  - apply halts_bind; [halt|]. intros p _.
    apply halts_bind.
    { destruct (negb (p =? 0)); [discriminate|].
      apply halts_bind; [apply halts_load|]. intros n _.
      destruct (negb (n =? 0)); [apply halts_freq_code|].
      apply halts_bind; [apply halts_load|]. intros o _. apply halts_freq_note. }
    intros f _.
    apply halts_bind; [destruct (_ <? _); [apply halts_load|discriminate]|]. intros l _.
    apply halts_bind; [destruct (_ && _); [apply halts_load|discriminate]|]. intros d _.
    apply halts_bind; [apply halts_quantize|]. intros [ts s'] _.
    apply halts_bind; [apply halts_load|]. intros v _.
    apply halts_bind; [apply halts_load|]. intros ar _.
    apply halts_bind; [apply halts_emit|]. intros g' _.
    apply halts_bind; [apply IH|]. intros [r' g''] _. discriminate.
Qed.

Lemma skip_spaces_length (l : buffer) :
  (fst (skip_spaces l) + List.length (snd (skip_spaces l)) = List.length l)%nat.
Proof.
  induction l as [|c r IH]; cbn; [reflexivity|].
  destruct (isspace _); [|reflexivity].
  destruct (skip_spaces r) as [n r']. cbn in *. lia.
Qed.

Lemma read_digits_length (l : buffer) (acc : Z) :
  (snd (fst (read_digits acc l)) + List.length (snd (read_digits acc l)) = List.length l)%nat.
Proof.
  revert acc. induction l as [|c r IH]; intros acc; cbn; [reflexivity|].
  destruct (isdigit _); [|reflexivity].
  specialize (IH (acc * 10 + (char_of_ascii c - ch "0"))).
  destruct (read_digits _ r) as [[v n] r']. cbn in *. lia.
Qed.

Lemma strtol_length (str : buffer) :
  (snd (fst (strtol str)) + List.length (snd (strtol str)) = List.length str)%nat.
Proof.
  unfold strtol.
  pose proof (skip_spaces_length str) as Hs.
  destruct (skip_spaces str) as [n0 l0]. cbn [fst snd] in Hs.
  assert (Hsign : forall neg n1 l1,
    (n1 + List.length l1 = List.length str)%nat ->
    (snd (fst (strtol_digits str neg n1 l1)) +
     List.length (snd (strtol_digits str neg n1 l1)) = List.length str)%nat).
  { intros neg n1 l1 H1. unfold strtol_digits. pose proof (read_digits_length l1 0) as Hd.
    destruct (read_digits 0 l1) as [[v [|n2]] l2]; cbn [fst snd] in *; lia. }
  destruct l0 as [|c r]; [apply Hsign; exact Hs|].
  destruct (char_of_ascii c =? ch "-"); [apply Hsign; cbn in *; lia|].
  destruct (char_of_ascii c =? ch "+"); [apply Hsign; cbn in *; lia|].
  apply Hsign; exact Hs.
Qed.

Lemma read_number_length (str rest : buffer) (p v p' : Z) :
  read_number str p = (v, rest, p') ->
  (List.length rest <= List.length str)%nat /\
  (0 <= v -> (List.length rest < List.length str)%nat).
Proof.
  unfold read_number. pose proof (strtol_length str) as Hl.
  destruct (strtol str) as [[x n] e]. cbn [fst snd] in Hl.
  destruct (int_of_long x =? 0); cbn [orb].
  - intros H; inversion H; subst. split; [lia|lia].
  - destruct n as [|n]; cbn [Nat.eqb]; intros H; inversion H; subst; split; lia.
Qed.

Lemma modifiers_halts (fuel : nat) (g : state waveform) (isPause : Z) (isNoteCode : option Z)
    (code sharp length dot customLength noteCode : Z) (content : buffer) (p : Z) :
  (List.length content < fuel)%nat ->
  halts (modifiers waveform fuel g isPause isNoteCode code sharp length dot customLength
                   noteCode content p)
  /\ forall note,
      modifiers waveform fuel g isPause isNoteCode code sharp length dot customLength
                noteCode content p = Ret note ->
      (List.length (n_content note) <= List.length content)%nat.
Proof.
  revert code sharp length dot customLength noteCode content p.
  induction fuel as [|fuel IH]; intros code sharp length dot customLength noteCode content p Hf;
    [lia|].
  cbn [modifiers].
  assert (Hletter :
    (if isPause =? 0 then n <- load isNoteCode;; Ret (n =? 0) else Ret false)
      = Undef UninitRead \/
    exists letter,
      (if isPause =? 0 then n <- load isNoteCode;; Ret (n =? 0) else Ret false)
        = Ret letter).
  { destruct (isPause =? 0); [destruct isNoteCode as [n|]|]; cbn; eauto. }
  destruct Hletter as [-> | [letter ->]]; cbn [bind];
    [split; [unfold halts; discriminate|intros ? H; discriminate H]|].
  destruct content as [|c r].
  { change (isdigit 0) with false. change (0 =? ch "-") with false.
    change (0 =? ch "+") with false. change (0 =? ch "#") with false.
    change (0 =? ch ".") with false.
    cbn [orb andb]. rewrite andb_false_r.
    split; [unfold halts; discriminate|]. intros note H. inversion H; subst. cbn. lia. }
  cbn [List.length tl] in *.
  assert (Hr : (List.length r < fuel)%nat) by lia.
  destruct (letter && _).
  { destruct (_ || _); [split; [unfold halts; discriminate|intros ? H; discriminate H]|].
    destruct (IH (if char_of_ascii c =? ch "-" then to_char (code - 1) else code)
                 1 length dot customLength noteCode r (p + 1) Hr) as [Hh Hl].
    split; [exact Hh|]. intros note H. specialize (Hl note H). lia. }
  destruct (isdigit _).
  { destruct isNoteCode as [n|]; cbn [load bind];
      [|split; [unfold halts; discriminate|intros ? H; discriminate H]].
    destruct (negb (n =? 0)).
    - destruct (negb (noteCode =? -1)); [split; [unfold halts; discriminate|intros ? H; discriminate H]|].
      destruct (read_number (c :: r) p) as [[v rest] p'] eqn:E.
      apply read_number_length in E. destruct E as [_ E]. cbn [List.length] in E.
      destruct (v <? 0) eqn:Ev; cbn [orb];
        [split; [unfold halts; discriminate|intros ? H; discriminate H]|].
      apply Z.ltb_ge in Ev. specialize (E Ev).
      destruct (v >? 84); [split; [unfold halts; discriminate|intros ? H; discriminate H]|].
      destruct (IH code sharp length dot customLength v rest p' ltac:(lia)) as [Hh Hl].
      split; [exact Hh|]. intros note H. specialize (Hl note H). lia.
    - destruct (negb (customLength =? 0));
        [split; [unfold halts; discriminate|intros ? H; discriminate H]|].
      destruct (read_number (c :: r) p) as [[v rest] p'] eqn:E.
      apply read_number_length in E. destruct E as [_ E]. cbn [List.length] in E.
      destruct (v <? 0) eqn:Ev; [split; [unfold halts; discriminate|intros ? H; discriminate H]|].
      apply Z.ltb_ge in Ev. specialize (E Ev).
      destruct (IH code sharp v dot 1 noteCode rest p' ltac:(lia)) as [Hh Hl].
      split; [exact Hh|]. intros note H. specialize (Hl note H). lia. }
  destruct (_ =? ch ".").
  { destruct (IH code sharp length (dot + 1) customLength noteCode r (p + 1) Hr) as [Hh Hl].
    split; [exact Hh|]. intros note H. specialize (Hl note H). lia. }
  split; [unfold halts; discriminate|]. intros note H. inversion H; subst. cbn. lia.
Qed.

Lemma skip_comment_length (content rest : buffer) :
  skip_comment content = Ret rest -> (List.length rest < List.length content)%nat.
Proof.
  induction content as [|c r IH]; cbn; [discriminate|].
  destruct (_ =? 10); intros H; [inversion H; subst; lia|]. specialize (IH H). lia.
Qed.

Lemma skip_comment_halts (content : buffer) : halts (skip_comment content).
Proof. induction content as [|c r IH]; cbn; [discriminate|]. destruct (_ =? 10); [discriminate|exact IH]. Qed.

Lemma select_channels_length (content : buffer) (states : list mml_channel_state_t) (p : Z) :
  (List.length (snd (fst (select_channels content states p))) <= List.length content)%nat.
Proof.
  revert states p. induction content as [|c r IH]; intros states p;
    cbn [select_channels fst snd List.length]; [lia|].
  destruct (_ && _); cbn [fst snd List.length]; [|lia].
  specialize (IH (enable_channel (char_of_ascii c - ch "A") states) (p + 1)). lia.
Qed.

Lemma count_dots_length (content : buffer) (d p : Z) :
  (List.length (snd (fst (count_dots content d p))) <= List.length content)%nat.
Proof.
  revert d p. induction content as [|c r IH]; intros d p;
    cbn [count_dots fst snd List.length]; [lia|].
  destruct (_ =? _); cbn [fst snd List.length]; [|lia].
  specialize (IH (d + 1) (p + 1)). lia.
Qed.

Lemma command_progress (g : state waveform) (join code : Z) (content : buffer) :
  halts (command synth_freq ADSR_TIME_UNITS pow waveform voice_wf_setup_def
                 g join code content)
  /\ forall g' cur,
      command synth_freq ADSR_TIME_UNITS pow waveform voice_wf_setup_def
              g join code content = Ret (g', cur) ->
      (cursor_size cur <= S (List.length content))%nat.
Proof.
  unfold command. cbv zeta.
  destruct (code =? ch "o").
  { destruct (read_digit content (pos g)) as [[d cur'] p'] eqn:E.
    assert (Hc : (cursor_size cur' <= S (List.length content))%nat).
    { unfold read_digit in E. destruct content; inversion E; subst; cbn; lia. }
    split.
    - destruct (_ || _); [unfold halts; discriminate|].
      apply halts_bind; [apply halts_for_active; intros; unfold halts; discriminate|].
      intros; unfold halts; discriminate.
    - intros g' cur H. destruct (_ || _); [discriminate|].
      destruct (for_active _ _); cbn [bind] in H; try discriminate.
      inversion H; subst. exact Hc. }
  destruct (code =? ch "l").
  { destruct (read_number content (pos g)) as [[v rest] p'] eqn:E.
    apply read_number_length in E. destruct E as [E _].
    pose proof (count_dots_length rest 0 p') as Hd.
    destruct (count_dots rest 0 p') as [[d rest'] p'']. cbn [fst snd] in Hd.
    split.
    - destruct (_ <? _); [unfold halts; discriminate|].
      apply halts_bind; [apply halts_for_active; intros; unfold halts; discriminate|].
      intros; unfold halts; discriminate.
    - intros g' cur H. destruct (_ <? _); [discriminate|].
      destruct (for_active _ _); cbn [bind] in H; try discriminate.
      inversion H; subst. cbn. lia. }
  destruct (code =? ch "t").
  { destruct (read_number content (pos g)) as [[v rest] p'] eqn:E.
    apply read_number_length in E. destruct E as [E _].
    split.
    - destruct (_ <? _); [unfold halts; discriminate|].
      apply halts_bind; [apply halts_for_active; intros; unfold halts; discriminate|].
      intros; unfold halts; discriminate.
    - intros g' cur H. destruct (_ <? _); [discriminate|].
      destruct (for_active _ _); cbn [bind] in H; try discriminate.
      inversion H; subst. cbn. lia. }
  destruct (code =? ch "v").
  { destruct (read_number content (pos g)) as [[v rest] p'] eqn:E.
    apply read_number_length in E. destruct E as [E _].
    split.
    - destruct (_ || _); [unfold halts; discriminate|].
      apply halts_bind; [apply halts_for_active; intros; unfold halts; discriminate|].
      intros; unfold halts; discriminate.
    - intros g' cur H. destruct (_ || _); [discriminate|].
      destruct (for_active _ _); cbn [bind] in H; try discriminate.
      inversion H; subst. cbn. lia. }
  destruct (code =? ch "<").
  { split.
    - apply halts_bind; [|intros; unfold halts; discriminate].
      apply halts_for_active. intros s. unfold octave_down.
      apply halts_bind; [apply halts_load|]. intros o _.
      destruct (o =? 0); unfold halts; discriminate.
    - intros g' cur H. destruct (for_active _ _); cbn [bind] in H; try discriminate.
      inversion H; subst. cbn. lia. }
  destruct (code =? ch ">").
  { split.
    - apply halts_bind; [|intros; unfold halts; discriminate].
      apply halts_for_active. intros s. unfold octave_up.
      apply halts_bind; [apply halts_load|]. intros o _.
      destruct (o =? 9); unfold halts; discriminate.
    - intros g' cur H. destruct (for_active _ _); cbn [bind] in H; try discriminate.
      inversion H; subst. cbn. lia. }
  destruct (code =? ch "m").
  { split.
    - apply halts_bind.
      { destruct (_ =? ch "l"); [unfold halts; discriminate|].
        destruct (_ =? ch "n"); [unfold halts; discriminate|].
        destruct (_ =? ch "s"); unfold halts; discriminate. }
      intros a _.
      apply halts_bind; [apply halts_for_active; intros; unfold halts; discriminate|].
      intros; unfold halts; discriminate.
    - intros g' cur H.
      destruct (if _ =? ch "l" then _ else _); cbn [bind] in H; try discriminate.
      destruct (for_active _ _); cbn [bind] in H; try discriminate.
      inversion H; subst. destruct content; cbn; lia. }
  destruct (_ || _); [|split; [unfold halts; discriminate|intros ? ? H; discriminate H]].
  match goal with
  | |- context [modifiers waveform ?f ?g ?a ?b ?c ?d ?e ?h ?i ?j ?k ?l] =>
      destruct (modifiers_halts f g a b c d e h i j k l (Nat.lt_succ_diag_r _)) as [Hh Hl];
      destruct (modifiers waveform f g a b c d e h i j k l) as [note| | |] eqn:E
  end; cbn [bind]; try (split; [unfold halts; discriminate|intros ? ? H; discriminate H]).
  - specialize (Hl note eq_refl). split.
    + apply halts_bind; [apply halts_set_note|]. intros [st g'] _. unfold halts; discriminate.
    + intros g' cur H. destruct (set_note _ _ _ _ _ _ _ _ _ _ _ _) as [[st g1]| | |];
        cbn [bind] in H; try discriminate.
      inversion H; subst. cbn. lia.
  - exfalso. apply Hh. reflexivity.
Qed.

Lemma step_progress (g : state waveform) (code : Z) (content : buffer) :
  halts (step g code content)
  /\ forall g' cur,
      step g code content = Ret (g', cur) ->
      (cursor_size cur <= S (List.length content))%nat.
Proof.
  unfold mml_step. cbv zeta.
  destruct (_ || _).
  { split; [unfold halts; discriminate|]. intros g' cur H. inversion H; subst. cbn. lia. }
  destruct (_ || _).
  { split.
    - apply halts_bind; [apply skip_comment_halts|]. intros; unfold halts; discriminate.
    - intros g' cur H. destruct (skip_comment content) as [rest| | |] eqn:E;
        cbn [bind] in H; try discriminate.
      apply skip_comment_length in E. inversion H; subst. cbn. lia. }
  destruct (code =? ch "&").
  { split; [unfold halts; discriminate|]. intros g' cur H. inversion H; subst. cbn. lia. }
  destruct (_ && _); [destruct (pos g =? 1)|]; try apply command_progress.
  match goal with
  | |- context [select_channels ?c ?s ?p] =>
      pose proof (select_channels_length c s p) as Hl;
      destruct (select_channels c s p) as [[states rest] p']
  end.
  cbn [fst snd] in Hl.
  split; [unfold halts; discriminate|]. intros g' cur H. inversion H; subst. cbn. lia.
Qed.

Lemma loop_halts (fuel : nat) (g : state waveform) (cur : cursor) :
  (cursor_size cur < fuel)%nat -> halts (loop fuel g cur).
Proof.
  revert g cur. induction fuel as [|fuel IH]; intros g cur Hf; [lia|].
  destruct cur as [[|c content]|]; cbn [mml_loop]; try (unfold halts; discriminate).
  destruct (_ =? 0); [unfold halts; discriminate|].
  destruct (step_progress (set_pos (pos g + 1) g) (char_of_ascii c) content) as [Hh Hl].
  apply halts_bind; [exact Hh|]. intros [g' cur'] E.
  apply IH. specialize (Hl _ _ E). cbn [cursor_size List.length] in Hf. lia.
Qed.

Lemma parse_halts (content : string) : halts (parse content).
Proof. unfold mml_parse. apply loop_halts. cbn. lia. Qed.

(** X1: the scan of a text is bounded as long as it is defined.  Every
    turn of the main loop moves the cursor forward, and so does every turn
    of the loops inside it; so on every text [mml_parse] comes, within one
    turn of the main loop for each character, to one of three ends: the
    terminator of the text, a return of failure, or an operation that C
    leaves undefined (the comment loop that leaves the buffer, a read of a
    field that was never written, a conversion that does not fit), after
    which nothing is said of the program.  The fuel that the embedding
    gives the loop is never used up. *)
Theorem scan_ends_or_is_undefined (content : string) :
  (exists g,
      mml_parse synth_freq ADSR_TIME_UNITS pow waveform voice_wf_setup_def content = Ret g)
  \/ (exists log,
      mml_parse synth_freq ADSR_TIME_UNITS pow waveform voice_wf_setup_def content = Fail log)
  \/ (exists u,
      mml_parse synth_freq ADSR_TIME_UNITS pow waveform voice_wf_setup_def content = Undef u).
Proof.
  pose proof (parse_halts content) as H. unfold halts in H.
  destruct (parse content) as [g|log|u|]; eauto. contradiction.
Qed.

(** ** Further properties of the code *)

(** *** The readers and the column counter *)

Lemma count_dots_advance (content : buffer) (d p : Z) :
  let '(d', rest, p') := count_dots content d p in
  d' - d = Z.of_nat (List.length content - List.length rest)
  /\ p' - p = Z.of_nat (List.length content - List.length rest)
  /\ (List.length rest <= List.length content)%nat.
Proof.
  revert d p. induction content as [|c r IH]; intros d p; cbn [count_dots].
  - cbn. lia.
  - destruct (char_of_ascii c =? ch ".").
    + specialize (IH (d + 1) (p + 1)).
      destruct (count_dots r (d + 1) (p + 1)) as [[d' rest] p'].
      cbn [List.length]. lia.
    + cbn [List.length]. lia.
Qed.

(** X2: the readers keep the column counter in step with the cursor:
    [read_number] adds to [pos] exactly the number of characters it
    consumed (none when it fails), [read_digit] always consumes one
    character, and the loop of the dots adds the number of dots both to
    the dot count and to [pos]. *)
Theorem readers_advance_column :
  (forall (str rest : buffer) (p v p' : Z),
      read_number str p = (v, rest, p') ->
      (List.length rest <= List.length str)%nat /\
      p' = p + Z.of_nat (List.length str - List.length rest))
  /\ (forall (str : buffer) (p : Z),
      snd (read_digit str p) = p + 1 /\
      cursor_size (snd (fst (read_digit str p))) = List.length str)
  /\ (forall (content rest : buffer) (d p d' p' : Z),
      count_dots content d p = (d', rest, p') ->
      d' - d = Z.of_nat (List.length content - List.length rest) /\
      p' - p = Z.of_nat (List.length content - List.length rest)).
Proof.
  split; [|split].
  - intros str rest p v p'. unfold read_number.
    pose proof (strtol_length str) as Hl.
    destruct (strtol str) as [[x n] e]. cbn [fst snd] in Hl.
    destruct ((int_of_long x =? 0) || Nat.eqb n 0); intros H; inversion H; subst; lia.
  - intros str p. destruct str; cbn; split; reflexivity.
  - intros content rest d p d' p' H. pose proof (count_dots_advance content d p) as Ha.
    rewrite H in Ha. lia.
Qed.

(** *** Blanks and signs in front of a number *)

Lemma skip_spaces_blanks (ws l : buffer) :
  blanks ws = true ->
  match l with c :: _ => isspace (char_of_ascii c) = false | [] => True end ->
  skip_spaces (ws ++ l) = (List.length ws, l).
Proof.
  intros Hws Hl. induction ws as [|w r IH]; cbn [app skip_spaces List.length].
  - destruct l as [|c l']; [reflexivity|]. cbn [skip_spaces]. rewrite Hl. reflexivity.
  - cbn in Hws. apply andb_prop in Hws. destruct Hws as [Hw Hr].
    rewrite Hw, (IH Hr). reflexivity.
Qed.

Lemma digit_is_no_blank (c : Z) : isdigit c = true -> isspace c = false.
Proof.
  unfold isdigit, isspace. eval_ch. intros H. apply andb_prop in H. destruct H as [H0 H9].
  apply Z.leb_le in H0, H9. settle_tests. reflexivity.
Qed.

Lemma read_number_blanks (ws ds rest : buffer) (p : Z) :
  blanks ws = true -> ds <> [] -> digits ds = true -> stops rest = true ->
  1 <= decimal ds <= INT_MAX ->
  read_number (ws ++ ds ++ rest) p =
    (decimal ds, rest, p + Z.of_nat (List.length ws) + Z.of_nat (List.length ds))
  /\ read_number (ws ++ "-"%char :: ds ++ rest) p =
    (- decimal ds, rest, p + Z.of_nat (List.length ws) + 1 + Z.of_nat (List.length ds)).
Proof.
  intros Hws Hne Hds Hrest Hmax.
  pose proof (read_digits_decimal ds rest 0 Hds Hrest) as Hrd. fold (decimal ds) in Hrd.
  destruct ds as [|c r]; [congruence|].
  assert (Hc : isdigit (char_of_ascii c) = true).
  { cbn in Hds. apply andb_prop in Hds. tauto. }
  assert (Hc' := Hc). unfold isdigit in Hc'. revert Hc'. eval_ch. intros Hc'.
  apply andb_prop in Hc'. destruct Hc' as [Hc0 Hc9]. apply Z.leb_le in Hc0, Hc9.
  unfold INT_MAX in Hmax.
  split.
  - unfold read_number, strtol.
    rewrite (skip_spaces_blanks ws ((c :: r) ++ rest) Hws (digit_is_no_blank _ Hc)).
    cbn [app]. eval_ch. settle_tests. unfold strtol_digits.
    change (c :: r ++ rest) with ((c :: r) ++ rest). rewrite Hrd.
    cbn [List.length]. unfold LONG_MAX, LONG_MIN.
    rewrite Z.min_r by lia. rewrite Z.max_r by lia.
    unfold int_of_long. rewrite Z.mod_small by lia.
    replace (decimal (c :: r) + 2147483648 - 2147483648) with (decimal (c :: r)) by lia.
    settle_tests. replace (Nat.eqb (List.length ws + S (List.length r)) 0) with false
      by (symmetry; apply Nat.eqb_neq; lia).
    cbn [orb]. f_equal. lia.
  - unfold read_number, strtol.
    rewrite (skip_spaces_blanks ws ("-"%char :: (c :: r) ++ rest) Hws eq_refl).
    change (char_of_ascii "-" =? ch "-") with true. cbv iota. unfold strtol_digits.
    rewrite Hrd. cbn [List.length]. unfold LONG_MAX, LONG_MIN.
    rewrite Z.min_r by lia. rewrite Z.max_r by lia.
    unfold int_of_long.
    replace ((- decimal (c :: r) + 2147483648) mod 4294967296)
      with (- decimal (c :: r) + 2147483648) by (symmetry; apply Z.mod_small; lia).
    replace (- decimal (c :: r) + 2147483648 - 2147483648) with (- decimal (c :: r)) by lia.
    settle_tests. replace (Nat.eqb (S (List.length ws) + S (List.length r)) 0) with false
      by (symmetry; apply Nat.eqb_neq; lia).
    cbn [orb]. f_equal. lia.
Qed.

(** X3: [strtol] skips blanks in front of the number, newlines included,
    and takes a sign.  So the number of [t] may follow after blanks and
    line ends, which count as columns and leave the line counter as it is;
    and a number with a minus sign is the error of the command. *)
Theorem number_after_blanks (g : state waveform) (ws ds rest : buffer) :
  blanks ws = true -> ds <> [] -> digits ds = true -> stops rest = true ->
  1 <= decimal ds <= INT_MAX ->
  step g (ch "t") (ws ++ ds ++ rest) =
    (states <- for_active (fun s => Ret (set_tempo (decimal ds) s)) (mml_channel_states g) ;;
     Ret (mkGlobals (line g)
                    (pos g + Z.of_nat (List.length ws) + Z.of_nat (List.length ds))
                    states (frame_map g) (reported g), At rest))
  /\ step g (ch "t") (ws ++ "-"%char :: ds ++ rest) =
    Fail (reported g ++
          [mkReport "Invalid tempo" (line g)
                    (pos g + Z.of_nat (List.length ws) + 1 + Z.of_nat (List.length ds))]).
Proof.
  intros Hws Hne Hds Hrest Hmax.
  destruct (read_number_blanks ws ds rest (pos g) Hws Hne Hds Hrest Hmax) as [Hp Hm].
  split.
  - unfold mml_step, command. eval_ch.
    cbn [Z.leb Z.eqb Z.geb Z.compare Pos.compare Pos.compare_cont Pos.eqb orb andb].
    rewrite Hp. cbv zeta. settle_tests. reflexivity.
  - unfold mml_step, command. eval_ch.
    cbn [Z.leb Z.eqb Z.geb Z.compare Pos.compare Pos.compare_cont Pos.eqb orb andb].
    rewrite Hm. cbv zeta. settle_tests. reflexivity.
Qed.

(** *** The table of the channels *)

Lemma nth_update_other {A : Type} (i j : nat) (f : A -> A) (l : list A) (d : A) :
  i <> j -> nth j (update i f l) d = nth j l d.
Proof.
  revert i j. induction l as [|x r IH]; intros [|i] [|j] H; cbn; try reflexivity; try lia.
  apply IH. lia.
Qed.

Lemma length_update {A : Type} (i : nat) (f : A -> A) (l : list A) :
  List.length (update i f l) = List.length l.
Proof.
  revert i. induction l as [|x r IH]; intros [|i]; cbn; try reflexivity.
  rewrite IH. reflexivity.
Qed.

Lemma nth_repeat_unwritten (n i : nat) : nth i (repeat unwritten n) unwritten = unwritten.
Proof. revert i. induction n as [|n IH]; intros [|i]; cbn; auto. Qed.

Lemma enable_channel_table (channel : Z) (states : list mml_channel_state_t) :
  0 <= channel ->
  List.length (enable_channel channel states)
    = Nat.max (List.length states) (S (Z.to_nat channel))
  /\ (forall i, (i < List.length states)%nat ->
        nth i (enable_channel channel states) unwritten =
          if Nat.eqb i (Z.to_nat channel)
          then set_isActive 1 (nth i states unwritten)
          else nth i states unwritten)
  /\ ((List.length states <= Z.to_nat channel)%nat ->
        nth (Z.to_nat channel) (enable_channel channel states) unwritten = first_channel
        /\ forall i, (List.length states <= i < Z.to_nat channel)%nat ->
             nth i (enable_channel channel states) unwritten = unwritten).
Proof.
  intros Hch. unfold enable_channel. cbv zeta.
  destruct (channel >=? Z.of_nat (List.length states)) eqn:E; rewrite Z.geb_leb in E.
  - apply Z.leb_le in E.
    assert (Hn : (List.length states <= Z.to_nat channel)%nat) by lia.
    replace (Z.to_nat (channel - Z.of_nat (List.length states)))
      with (Z.to_nat channel - List.length states)%nat by lia.
    split; [|split].
    + rewrite length_update, !length_app, repeat_length. cbn. lia.
    + intros i Hi. replace (Nat.eqb i (Z.to_nat channel)) with false
        by (symmetry; apply Nat.eqb_neq; lia).
      rewrite nth_update_other by lia. rewrite app_nth1 by lia. reflexivity.
    + intros _. split.
      * rewrite nth_update by (rewrite !length_app, repeat_length; cbn; lia).
        rewrite app_nth2 by lia. rewrite app_nth2 by (rewrite repeat_length; lia).
        rewrite repeat_length.
        replace (Z.to_nat channel - List.length states
                 - (Z.to_nat channel - List.length states))%nat with O by lia.
        reflexivity.
      * intros i Hi. rewrite nth_update_other by lia.
        rewrite app_nth2 by lia. rewrite app_nth1 by (rewrite repeat_length; lia).
        apply nth_repeat_unwritten.
  - apply Z.leb_gt in E.
    split; [|split].
    + rewrite length_update. lia.
    + intros i Hi. destruct (Nat.eqb i (Z.to_nat channel)) eqn:Ei.
      * apply Nat.eqb_eq in Ei. subst i. apply nth_update. exact Hi.
      * apply Nat.eqb_neq in Ei. apply nth_update_other. lia.
    + intros Hn. lia.
Qed.

(** X4: [enable_channel] never shrinks the table of the channels and only
    writes the active flag of a channel that is already in the table: the
    octave, lengths, tempo, volume, articulation and running time of every
    channel persist.  A channel beyond the table is appended with its
    initial values, and the slots between the old end of the table and
    that channel are left unwritten. *)
Theorem enable_channel_keeps_state (channel : Z) (states : list mml_channel_state_t) :
  0 <= channel ->
  List.length (enable_channel channel states)
    = Nat.max (List.length states) (S (Z.to_nat channel))
  /\ (forall i, (i < List.length states)%nat ->
        nth i (enable_channel channel states) unwritten =
          if Nat.eqb i (Z.to_nat channel)
          then set_isActive 1 (nth i states unwritten)
          else nth i states unwritten)
  /\ ((List.length states <= Z.to_nat channel)%nat ->
        nth (Z.to_nat channel) (enable_channel channel states) unwritten = first_channel
        /\ forall i, (List.length states <= i < Z.to_nat channel)%nat ->
             nth i (enable_channel channel states) unwritten = unwritten).
Proof. exact (enable_channel_table channel states). Qed.

Lemma for_active_unwritten (body : mml_channel_state_t -> result mml_channel_state_t)
    (idle later : list mml_channel_state_t) :
  Forall (fun s => isActive s = Some 0) idle ->
  for_active body (idle ++ unwritten :: later) = Undef UninitRead.
Proof.
  induction 1 as [|s r Hs _ IH]; cbn [app for_active]; [reflexivity|].
  rewrite Hs. cbn [load bind Z.eqb]. rewrite IH. reflexivity.
Qed.

Lemma set_note_unwritten (g : state waveform) (note : note_t) (join : Z)
    (isNoteCode : option Z) (isPause i : Z) (idle later : list mml_channel_state_t) :
  Forall (fun s => isActive s = Some 0) idle ->
  set_note synth_freq ADSR_TIME_UNITS pow waveform voice_wf_setup_def
           g note join isNoteCode isPause i (idle ++ unwritten :: later)
    = Undef UninitRead.
Proof.
  intros H. revert i. induction H as [|s r Hs _ IH]; intros i; cbn [app set_note];
    [reflexivity|].
  rewrite Hs. cbn [load bind Z.eqb]. rewrite IH. reflexivity.
Qed.

Lemma first_selection_table (k : nat) :
  enable_channel (Z.of_nat (S (S k))) (update 0 (set_isActive 0) [first_channel])
    = [set_isActive 0 first_channel] ++ unwritten :: repeat unwritten k ++ [first_channel].
Proof.
  unfold enable_channel. cbv zeta. cbn [update List.length].
  replace (Z.of_nat (S (S k)) >=? Z.of_nat 1) with true
    by (symmetry; rewrite Z.geb_leb; apply Z.leb_le; lia).
  replace (Z.to_nat (Z.of_nat (S (S k)) - Z.of_nat 1)) with (S k) by lia.
  rewrite Nat2Z.id. cbn [repeat app update]. f_equal. f_equal.
  induction k as [|k IH]; cbn [repeat app update]; [reflexivity|].
  f_equal. exact IH.
Qed.

(** X5: a channel is initialised only when it is the one that extends the
    table.  When the first selector of a compile names a channel from C on,
    the slots of the channels below it (B, ...) are allocated and never
    written, and the next loop over the channels on that line - of a
    command or of a note - reads the active flag of an unwritten slot. *)
Theorem skipped_channel_is_unwritten (k : nat) (content : buffer) :
  selector_run content = [] ->
  let code := ch "C" + Z.of_nat k in
  code <= ch "Z" ->
  exists (g : state waveform) (rest : list mml_channel_state_t),
    step (set_pos 1 start) code content = Ret (g, At content)
    /\ mml_channel_states g = set_isActive 0 first_channel :: unwritten :: rest
    /\ (forall body, for_active body (mml_channel_states g) = Undef UninitRead)
    /\ (forall g' note join isNoteCode isPause,
          set_note synth_freq ADSR_TIME_UNITS pow waveform voice_wf_setup_def
                   g' note join isNoteCode isPause 0 (mml_channel_states g)
            = Undef UninitRead).
Proof.
  intros Hrun code Hcode. subst code. revert Hcode. eval_ch. intros Hcode.
  assert (Hsel : forall st p, select_channels content st p = (st, content, p)).
  { intros st p. destruct content as [|c r]; [reflexivity|].
    cbn [selector_run] in Hrun. cbn [select_channels].
    unfold isupper in Hrun. destruct (_ && _); [discriminate|reflexivity]. }
  eexists. eexists. split; [|split; [|split]].
  - unfold mml_step. eval_ch. settle_tests. cbn [orb andb].
    change (pos (set_pos 1 (@start waveform)) =? 1) with true. cbv iota zeta.
    rewrite Hsel.
    replace (67 + Z.of_nat k - 65) with (Z.of_nat (S (S k))) by lia.
    change (mml_channel_states (set_pos 1 (@start waveform))) with [first_channel].
    rewrite first_selection_table. reflexivity.
  - reflexivity.
  - intros body. cbn [mml_channel_states set_states set_pos].
    apply (for_active_unwritten body [set_isActive 0 first_channel]).
    constructor; [reflexivity|constructor].
  - intros g' note join isNoteCode isPause. cbn [mml_channel_states set_states set_pos].
    apply (set_note_unwritten g' note join isNoteCode isPause 0
             [set_isActive 0 first_channel]).
    constructor; [reflexivity|constructor].
Qed.

Lemma reset_active_state_cons (s0 : mml_channel_state_t) (r : list mml_channel_state_t) :
  reset_active_state (s0 :: r) = set_isActive 1 s0 :: map (set_isActive 0) r.
Proof.
  unfold reset_active_state, enable_channel. cbv zeta.
  replace (0 >=? Z.of_nat (List.length (s0 :: map (set_isActive 0) r))) with false
    by (symmetry; rewrite Z.geb_leb; apply Z.leb_gt; cbn [List.length]; lia).
  reflexivity.
Qed.

(** X6: a line end resets the selection and nothing else: after the turn of
    a newline the line counter is one more, the column is 0, channel A is
    active and every other channel is not, while the other fields of every
    channel, the frame map and the reports are as before. *)
Theorem newline_selects_channel_A (g : state waveform) (content : buffer) :
  mml_channel_states g <> [] ->
  exists g',
    step g 10 content = Ret (g', At content)
    /\ line g' = line g + 1 /\ pos g' = 0
    /\ frame_map g' = frame_map g /\ reported g' = reported g
    /\ map is_active (mml_channel_states g')
       = true :: repeat false (List.length (mml_channel_states g) - 1)
    /\ map (set_isActive 0) (mml_channel_states g')
       = map (set_isActive 0) (mml_channel_states g).
Proof.
  intros Hne. destruct (mml_channel_states g) as [|s0 r] eqn:E; [congruence|].
  eexists. split; [reflexivity|]. cbn [Z.eqb Pos.eqb]. unfold next_line.
  cbn [line pos frame_map reported mml_channel_states]. rewrite E, reset_active_state_cons.
  repeat split.
  - replace (List.length (s0 :: r) - 1)%nat with (List.length r) by (cbn [List.length]; lia).
    cbn [map]. f_equal. clear.
    induction r as [|s r IH]; cbn; [reflexivity|]. f_equal. exact IH.
  - cbn [map]. f_equal. rewrite map_map. apply map_ext. reflexivity.
Qed.

(** *** The selector *)

Lemma enable_channel_active (channel : Z) (states : list mml_channel_state_t) (i : nat) :
  0 <= channel ->
  is_active (nth i (enable_channel channel states) unwritten) =
    (Nat.eqb i (Z.to_nat channel) || is_active (nth i states unwritten)).
Proof.
  intros Hch. destruct (enable_channel_table channel states Hch) as (Hlen & Hold & Hnew).
  destruct (Nat.lt_ge_cases i (List.length states)) as [Hi|Hi].
  - rewrite (Hold i Hi). destruct (Nat.eqb i (Z.to_nat channel)); reflexivity.
  - rewrite (nth_overflow states) by exact Hi. cbn [is_active isActive unwritten].
    rewrite orb_false_r.
    destruct (Nat.eqb i (Z.to_nat channel)) eqn:Ei.
    + apply Nat.eqb_eq in Ei. subst i. rewrite (proj1 (Hnew Hi)). reflexivity.
    + apply Nat.eqb_neq in Ei.
      destruct (Nat.lt_ge_cases i (Z.to_nat channel)) as [Hlt|Hge].
      * rewrite (proj2 (Hnew ltac:(lia)) i ltac:(lia)). reflexivity.
      * rewrite nth_overflow by lia. reflexivity.
Qed.

Lemma select_channels_run (content : buffer) (states : list mml_channel_state_t) (p : Z) :
  select_channels content states p =
    (fst (fst (select_channels content states p)),
     skipn (List.length (selector_run content)) content,
     p + Z.of_nat (List.length (selector_run content)))
  /\ forall i,
      is_active (nth i (fst (fst (select_channels content states p))) unwritten) =
        (named i (selector_run content) || is_active (nth i states unwritten)).
Proof.
  revert states p. induction content as [|c r IH]; intros states p.
  - cbn. split; [f_equal; lia|]. intros i. reflexivity.
  - cbn [select_channels selector_run]. unfold isupper.
    destruct ((char_of_ascii c >=? ch "A") && (char_of_ascii c <=? ch "Z")) eqn:E.
    + destruct (IH (enable_channel (char_of_ascii c - ch "A") states) (p + 1)) as [H1 H2].
      split.
      * rewrite H1 at 1. cbn [List.length skipn fst]. f_equal. lia.
      * intros i. rewrite H2. cbn [named existsb]. rewrite enable_channel_active.
        -- rewrite orb_assoc. f_equal. apply orb_comm.
        -- apply andb_prop in E. destruct E as [E _]. rewrite Z.geb_leb in E.
           apply Z.leb_le in E. lia.
    + cbn. split; [f_equal; lia|]. intros i. reflexivity.
Qed.

(** X7: a run of uppercase letters at column 1 selects exactly the channels
    it names: after it, a channel is active when one of the letters names
    it, or when it is another channel than A that was active before; the
    cursor is behind the run and the column counts its letters. *)
Theorem selector_activates_named_channels (g : state waveform) (c : ascii) (content : buffer) :
  pos g = 1 ->
  isupper (char_of_ascii c) = true ->
  mml_channel_states g <> [] ->
  let letters := c :: selector_run content in
  exists g',
    step g (char_of_ascii c) content
      = Ret (g', At (skipn (List.length (selector_run content)) content))
    /\ pos g' = Z.of_nat (List.length letters)
    /\ line g' = line g /\ frame_map g' = frame_map g /\ reported g' = reported g
    /\ forall i,
        is_active (nth i (mml_channel_states g') unwritten) =
          (named i letters
           || (negb (Nat.eqb i 0) && is_active (nth i (mml_channel_states g) unwritten))).
Proof.
  intros Hpos Hup Hne letters. subst letters.
  assert (Hup' := Hup). unfold isupper in Hup'. revert Hup'. eval_ch. intros Hup'.
  apply andb_prop in Hup'. destruct Hup' as [HA HZ]. rewrite Z.geb_leb in HA.
  apply Z.leb_le in HA, HZ.
  unfold mml_step. eval_ch. settle_tests. cbn [orb andb]. rewrite Hpos.
  change (1 =? 1) with true. cbv iota zeta.
  match goal with
  | |- context [select_channels content ?st ?p] =>
      destruct (select_channels_run content st p) as [Hsel Hact];
      rewrite Hsel
  end.
  eexists. split; [reflexivity|].
  cbn [pos line frame_map reported mml_channel_states set_pos set_states List.length].
  repeat split; try lia.
  intros i. rewrite Hact. cbn [named existsb]. change (ch "A") with 65.
  rewrite enable_channel_active by lia.
  destruct (mml_channel_states g) as [|s0 r] eqn:E; [congruence|].
  rewrite <- !orb_assoc. rewrite (orb_comm (named i (selector_run content))).
  rewrite <- !orb_assoc. f_equal.
  rewrite (orb_comm _ (named i (selector_run content))). f_equal.
  destruct i as [|i]; cbn; reflexivity.
Qed.

(** *** The scale *)

(** X8: for the letters a to g, [get_freq_from_note] is the frequency of
    the note code made of the semitone of the letter in the scale of c (c 0,
    d 2, e 4, f 5, g 7, a 9, b 11), one more with a sharp, and twelve times
    the octave; and the code below [a] that the flat of a leaves, taken with
    its sharp, is g sharp. *)
Theorem letter_semitones (note sharp octave : Z) :
  ch "a" <= note <= ch "g" ->
  get_freq_from_note pow note sharp octave =
    get_freq_from_code pow (nth (Z.to_nat (note - ch "a")) scale 0
                            + (if sharp =? 0 then 0 else 1) + octave * 12)
  /\ get_freq_from_note pow (ch "a" - 1) 1 octave = get_freq_from_note pow (ch "g") 1 octave.
Proof.
  eval_ch. intros H. split; [|reflexivity].
  assert (Hn : note = 97 \/ note = 98 \/ note = 99 \/ note = 100 \/ note = 101
               \/ note = 102 \/ note = 103) by lia.
  unfold get_freq_from_note.
  destruct Hn as [-> | [-> | [-> | [-> | [-> | [-> | ->]]]]]]; cbn -[Z.add Z.mul];
    destruct (sharp =? 0); f_equal; lia.
Qed.

(** *** The frame emitter, channel by channel *)

Lemma nth_app_repeat_nil {A : Type} (m : list (list A)) (n c : nat) :
  nth c (m ++ repeat [] n) [] = nth c m [].
Proof.
  destruct (Nat.lt_ge_cases c (List.length m)) as [H|H].
  - apply app_nth1. exact H.
  - rewrite app_nth2 by exact H. rewrite (nth_overflow m) by exact H.
    generalize (c - List.length m)%nat. clear. intros a. revert a.
    induction n as [|n IH]; intros [|a]; cbn; auto.
Qed.

Lemma nth_grow_frame_map_any (channel : Z) (m : list (list frame)) (c : nat) :
  nth c (grow_frame_map waveform channel m) [] = nth c m [].
Proof.
  unfold grow_frame_map. destruct (channel >=? _); [apply nth_app_repeat_nil|reflexivity].
Qed.

Lemma length_grow_frame_map (channel : Z) (m : list (list frame)) :
  0 <= channel ->
  List.length (grow_frame_map waveform channel m)
    = Nat.max (List.length m) (S (Z.to_nat channel)).
Proof.
  intros H. unfold grow_frame_map.
  destruct (channel >=? Z.of_nat (List.length m)) eqn:E; rewrite Z.geb_leb in E.
  - apply Z.leb_le in E. rewrite length_app, repeat_length. lia.
  - apply Z.leb_gt in E. lia.
Qed.

Lemma emit_inv (g g' : state waveform) (channel frequency time_scale volume : Z)
    (articulation : double) (edit : Z) :
  emit g channel frequency time_scale volume articulation edit = Ret g' ->
  let old := nth (Z.to_nat channel) (frame_map g) [] in
  exists fr,
    g' = set_frame_map
           (update (Z.to_nat channel)
                   (fun _ => (if edit =? 0 then old else removelast old) ++ [fr])
                   (grow_frame_map waveform channel (frame_map g))) g
    /\ (edit <> 0 -> old <> []).
Proof.
  intros H old. unfold add_channel_frame in H. cbv zeta in H.
  rewrite nth_grow_frame_map_any in H. fold old in H.
  destruct (edit =? 0) eqn:Ee.
  - cbn [negb andb] in H.
    destruct (if frequency =? 0 then _ else _) as [w| | |]; cbn [bind] in H;
      try discriminate.
    destruct (time_scale >? UINT16_MAX); [discriminate|].
    destruct (bind (fmul _ _) _) as [rel| | |]; cbn [bind] in H; try discriminate.
    inversion H; subst. eexists. split; [reflexivity|].
    apply Z.eqb_eq in Ee. intros; congruence.
  - cbn [negb andb] in H.
    destruct (Nat.eqb (List.length old) 0) eqn:El; [discriminate|].
    apply Nat.eqb_neq in El.
    assert (Hold : old <> []) by (intros E0; rewrite E0 in El; apply El; reflexivity).
    destruct (nth_error (rev old) 0) as [last|] eqn:Elast.
    + destruct (if frequency =? 0 then _ else _) as [w| | |]; cbn [bind] in H;
        try discriminate.
      destruct (_ >? UINT16_MAX); [discriminate|].
      destruct (bind (fmul _ _) _) as [rel| | |]; cbn [bind] in H; try discriminate.
      inversion H; subst. eexists. split; [reflexivity|]. intros _. exact Hold.
    + exfalso. apply nth_error_None in Elast. rewrite length_rev in Elast. lia.
Qed.

(** X9: a call of [add_channel_frame] that succeeds writes one channel of
    the frame map and nothing else: the line, the column, the channel
    states and the reports are as before, the map holds the channel of the
    call and no channel less than before, the frames of every other
    channel are the same, and the channel of the call has one frame more
    (a new frame) or as many (a join), with its earlier frames kept. *)
Theorem emitter_touches_one_channel (g g' : state waveform)
    (channel frequency time_scale volume : Z) (articulation : double) (edit : Z) :
  0 <= channel ->
  emit g channel frequency time_scale volume articulation edit = Ret g' ->
  let old := nth (Z.to_nat channel) (frame_map g) [] in
  line g' = line g /\ pos g' = pos g
  /\ mml_channel_states g' = mml_channel_states g /\ reported g' = reported g
  /\ List.length (frame_map g') = Nat.max (List.length (frame_map g)) (S (Z.to_nat channel))
  /\ (forall c, c <> Z.to_nat channel -> nth c (frame_map g') [] = nth c (frame_map g) [])
  /\ (exists fr, nth (Z.to_nat channel) (frame_map g') []
                 = (if edit =? 0 then old else removelast old) ++ [fr])
  /\ frames_on (Z.to_nat channel) (frame_map g')
     = Nat.add (frames_on (Z.to_nat channel) (frame_map g)) (if edit =? 0 then 1%nat else 0%nat).
Proof.
  intros Hch H old. subst old.
  destruct (emit_inv _ _ _ _ _ _ _ _ H) as (fr & -> & Hold). cbv zeta in Hold.
  cbn [line pos mml_channel_states reported frame_map set_frame_map].
  set (old := nth (Z.to_nat channel) (frame_map g) []) in *.
  assert (Hnth : nth (Z.to_nat channel)
                     (update (Z.to_nat channel)
                        (fun _ => (if edit =? 0 then old else removelast old) ++ [fr])
                        (grow_frame_map waveform channel (frame_map g))) []
                 = (if edit =? 0 then old else removelast old) ++ [fr]).
  { apply (nth_update (Z.to_nat channel)
             (fun _ => (if edit =? 0 then old else removelast old) ++ [fr])).
    apply grow_frame_map_length. exact Hch. }
  repeat split.
  - rewrite length_update. apply length_grow_frame_map. exact Hch.
  - intros c Hc. rewrite nth_update_other by lia. apply nth_grow_frame_map_any.
  - exists fr. exact Hnth.
  - unfold frames_on. rewrite Hnth. fold old. rewrite length_app. cbn [List.length].
    destruct (edit =? 0) eqn:Ee; [lia|].
    apply Z.eqb_neq in Ee. specialize (Hold Ee).
    destruct (exists_last Hold) as (init & last & ->).
    rewrite removelast_last, length_app. cbn. lia.
Qed.

(** X10: the refusals of [add_channel_frame] that come before the test of
    the duration.  A join on a channel without a frame is "Can't join, no
    note before", whatever the note; otherwise a waveform that
    [voice_wf_setup_def] refuses is "Can't pack frame: pause" for the
    frequency 0 and "Can't pack frame: waveform" for any other, whatever
    the duration. *)
Theorem emitter_refusals (g : state waveform) (channel frequency time_scale volume : Z)
    (articulation : double) (edit : Z) :
  let old := nth (Z.to_nat channel) (frame_map g) [] in
  (edit <> 0 -> old = [] ->
     emit g channel frequency time_scale volume articulation edit
       = Fail (reported g ++ [mkReport "Can't join, no note before" (line g) (pos g)]))
  /\ (request frequency volume = None -> edit = 0 \/ old <> [] ->
     emit g channel frequency time_scale volume articulation edit
       = Fail (reported g ++
               [mkReport (if frequency =? 0 then "Can't pack frame: pause"
                          else "Can't pack frame: waveform") (line g) (pos g)])).
Proof.
  intros old. split.
  - intros He Hold. unfold add_channel_frame. cbv zeta.
    rewrite nth_grow_frame_map_any. fold old. rewrite Hold.
    apply Z.eqb_neq in He. rewrite He. reflexivity.
  - intros Hw Hcase. unfold add_channel_frame. cbv zeta.
    rewrite nth_grow_frame_map_any. fold old.
    assert (Hgo : negb (edit =? 0) && Nat.eqb (List.length old) 0 = false).
    { destruct Hcase as [-> | Hne]; [reflexivity|].
      destruct old; [congruence|]. cbn. apply andb_false_r. }
    rewrite Hgo. unfold requested in Hw.
    destruct (frequency =? 0); rewrite Hw; reflexivity.
Qed.

(** *** Notes, frames and reports *)

Ltac crack H :=
  repeat match type of H with
  | (if ?b then _ else _) = _ => destruct b eqn:?
  | (let '(_, _) := ?p in _) = _ => destruct p eqn:?
  | bind ?m _ = _ => destruct m eqn:?; cbn [bind] in H
  | match ?o with Some _ => _ | None => _ end = _ => destruct o eqn:?
  | Fail _ = Ret _ => discriminate H
  | Undef _ = Ret _ => discriminate H
  | OutOfFuel = Ret _ => discriminate H
  | Ret _ = Fail _ => discriminate H
  | Undef _ = Fail _ => discriminate H
  | OutOfFuel = Fail _ => discriminate H
  end.

Lemma load_no_fail {A : Type} (f : option A) (log : list report) : load f <> Fail log.
Proof. destruct f; discriminate. Qed.

Lemma int_arith_no_fail (v : Z) (log : list report) : int_arith v <> Fail log.
Proof. unfold int_arith. destruct (_ && _); discriminate. Qed.

Lemma to_uint8_no_fail (x : double) (log : list report) : to_uint8 x <> Fail log.
Proof. unfold to_uint8. cbv zeta. destruct (_ && _); discriminate. Qed.

Lemma rounded_no_fail (x : Q) (log : list report) : rounded x <> Fail log.
Proof. unfold rounded. cbv zeta. destruct (Qle_bool _ _); discriminate. Qed.

Lemma fdiv_no_fail (a b : double) (log : list report) : fdiv a b <> Fail log.
Proof. unfold fdiv. destruct (Qeq_bool b 0); [discriminate|apply rounded_no_fail]. Qed.

Lemma apply_dots_no_fail (dots : nat) (l : double) (log : list report) :
  apply_dots dots l <> Fail log.
Proof.
  revert l. induction dots as [|d IH]; intros l; cbn [apply_dots]; [discriminate|].
  destruct (fdiv l (3 # 2)) as [l'| | |] eqn:E; cbn [bind]; try discriminate.
  - apply IH.
  - intros H. inversion H; subst. eapply fdiv_no_fail. exact E.
Qed.

Ltac never_fails :=
  first [ eapply load_no_fail; eassumption
        | eapply int_arith_no_fail; eassumption
        | eapply to_uint8_no_fail; eassumption
        | eapply rounded_no_fail; eassumption
        | eapply fdiv_no_fail; eassumption
        | eapply apply_dots_no_fail; eassumption ].

Ltac crack_bind H :=
  repeat match type of H with
  | bind ?m _ = _ => destruct m eqn:?; cbn [bind] in H
  | Undef _ = Fail _ => discriminate H
  | Ret _ = Fail _ => discriminate H
  | OutOfFuel = Fail _ => discriminate H
  end.

Lemma quantize_no_fail (st : mml_channel_state_t) (l d : Z) (log : list report) :
  quantize st l d <> Fail log.
Proof.
  unfold get_adsr_time_scale, to_int, fadd, fsub, fmul. intros H.
  crack_bind H; inversion H; subst; never_fails.
Qed.

Lemma freq_code_no_fail (n : Z) (log : list report) : get_freq_from_code pow n <> Fail log.
Proof.
  unfold get_freq_from_code, to_int, fmul. intros H.
  crack_bind H; inversion H; subst; never_fails.
Qed.

Lemma emit_fail (g : state waveform) (c f t v : Z) (a : double) (e : Z) (log : list report) :
  emit g c f t v a e = Fail log -> one_report g log.
Proof.
  unfold add_channel_frame, error_handler. cbv zeta. intros H.
  crack H;
    try (exfalso; unfold fmul in *;
         repeat match goal with
                | E : bind _ _ = Fail _ |- _ => crack_bind E; inversion E; subst
                end; never_fails);
    try match goal with E : (if _ then _ else _) = Fail _ |- _ => crack E; inversion E end;
    inversion H; subst; eexists _, _; reflexivity.
Qed.

Lemma emit_ret (g g' : state waveform) (c f t v : Z) (a : double) (e : Z) :
  emit g c f t v a e = Ret g' ->
  line g' = line g /\ pos g' = pos g /\ reported g' = reported g
  /\ mml_channel_states g' = mml_channel_states g.
Proof.
  intros H. destruct (emit_inv _ _ _ _ _ _ _ _ H) as (fr & -> & _). repeat split.
Qed.

Lemma emitter_frames (g g' : state waveform) (k : nat) (f t v : Z) (a : double) :
  emit g (Z.of_nat k) f t v a 0 = Ret g' ->
  forall c, frames_on c (frame_map g') =
    Nat.add (frames_on c (frame_map g)) (if Nat.eqb c (Z.to_nat (Z.of_nat k)) then 1%nat else 0%nat).
Proof.
  intros H c. destruct (emit_inv _ _ _ _ _ _ _ _ H) as (fr & -> & _).
  cbn [frame_map set_frame_map]. unfold frames_on.
  destruct (Nat.eqb c (Z.to_nat (Z.of_nat k))) eqn:Ec.
  - apply Nat.eqb_eq in Ec. subst c.
    rewrite (nth_update (Z.to_nat (Z.of_nat k))
               (fun _ => nth (Z.to_nat (Z.of_nat k)) (frame_map g) [] ++ [fr]))
      by (apply grow_frame_map_length; lia).
    rewrite length_app. cbn. lia.
  - apply Nat.eqb_neq in Ec. rewrite nth_update_other by lia.
    rewrite nth_grow_frame_map_any. lia.
Qed.

Lemma one_report_same {F : Type} (g g' : globals F) (log : list report) :
  line g' = line g -> reported g' = reported g -> one_report g' log -> one_report g log.
Proof. intros Hl Hr (msg & col & ->). exists msg, col. rewrite Hl, Hr. reflexivity. Qed.

Lemma modifiers_fail (fuel : nat) (g : state waveform) (isPause : Z) (isNoteCode : option Z)
    (code sharp length dot customLength noteCode : Z) (content : buffer) (p : Z)
    (log : list report) :
  modifiers waveform fuel g isPause isNoteCode code sharp length dot customLength noteCode
            content p = Fail log ->
  one_report g log.
Proof.
  revert code sharp length dot customLength noteCode content p.
  induction fuel as [|fuel IH]; intros code sharp length dot customLength noteCode content p H;
    [discriminate|].
  cbn [modifiers] in H. unfold error_handler in H.
  destruct (if isPause =? 0 then _ else _) as [letter| | |] eqn:El; cbn [bind] in H;
    try discriminate.
  { crack H; try (eapply IH; eassumption);
      try (inversion H; subst; eexists _, _; reflexivity);
      try (exfalso; eapply load_no_fail; eassumption). }
  exfalso. destruct (isPause =? 0); [|discriminate].
  destruct isNoteCode; cbn in El; discriminate.
Qed.

Lemma for_active_fail (g : state waveform)
    (body : mml_channel_state_t -> result mml_channel_state_t)
    (states : list mml_channel_state_t) (log : list report) :
  (forall s, body s = Fail log -> one_report g log) ->
  for_active body states = Fail log -> one_report g log.
Proof.
  intros Hb. induction states as [|s r IH]; cbn [for_active]; intros H; [discriminate|].
  destruct (isActive s) as [a|]; cbn [load bind] in H; [|discriminate].
  destruct (a =? 0); cbn [bind] in H.
  - destruct (for_active body r); cbn [bind] in H; try discriminate.
    apply IH. exact H.
  - destruct (body s) eqn:Eb; cbn [bind] in H; try discriminate.
    + destruct (for_active body r); cbn [bind] in H; try discriminate. apply IH. exact H.
    + inversion H; subst. apply (Hb s). exact Eb.
Qed.

Lemma for_active_flags (body : mml_channel_state_t -> result mml_channel_state_t)
    (states states' : list mml_channel_state_t) :
  (forall s s', body s = Ret s' -> isActive s' = isActive s) ->
  for_active body states = Ret states' ->
  map is_active states' = map is_active states.
Proof.
  intros Hb. revert states'. induction states as [|s r IH]; intros states' H;
    cbn [for_active] in H.
  - inversion H. reflexivity.
  - destruct (isActive s) as [a|] eqn:Ea; cbn [load bind] in H; [|discriminate].
    destruct (if a =? 0 then Ret s else body s) as [s1| | |] eqn:E1; cbn [bind] in H;
      try discriminate.
    destruct (for_active body r) as [r1| | |]; cbn [bind] in H; try discriminate.
    inversion H; subst. cbn [map]. f_equal; [|apply IH; reflexivity].
    unfold is_active. destruct (a =? 0); [inversion E1; subst; reflexivity|].
    rewrite (Hb _ _ E1). reflexivity.
Qed.

Lemma extends_refl {F : Type} (m : list (list F)) : extends m m.
Proof. intros c. exists []. rewrite app_nil_r. reflexivity. Qed.

Lemma extends_trans {F : Type} (m1 m2 m3 : list (list F)) :
  extends m1 m2 -> extends m2 m3 -> extends m1 m3.
Proof.
  intros H1 H2 c. destruct (H1 c) as (a1 & E1), (H2 c) as (a2 & E2).
  exists (a1 ++ a2). rewrite E2, E1, app_assoc. reflexivity.
Qed.

Lemma emitter_extends (g g' : state waveform) (k : nat) (f t v : Z) (a : double) :
  emit g (Z.of_nat k) f t v a 0 = Ret g' -> extends (frame_map g) (frame_map g').
Proof.
  intros H c. destruct (emit_inv _ _ _ _ _ _ _ _ H) as (fr & -> & _).
  cbn [frame_map set_frame_map Z.eqb].
  destruct (Nat.eq_dec c (Z.to_nat (Z.of_nat k))) as [->|Hc].
  - exists [fr].
    rewrite (nth_update (Z.to_nat (Z.of_nat k))
               (fun _ => nth (Z.to_nat (Z.of_nat k)) (frame_map g) [] ++ [fr]))
      by (apply grow_frame_map_length; lia).
    reflexivity.
  - exists []. rewrite nth_update_other by lia.
    rewrite nth_grow_frame_map_any, app_nil_r. reflexivity.
Qed.

Lemma offset_flag (k c : nat) (s : mml_channel_state_t) (r : list mml_channel_state_t) :
  (if Nat.leb k c && is_active (nth (c - k) (s :: r) unwritten) then 1%nat else 0%nat)
  = Nat.add (if Nat.eqb c k && is_active s then 1%nat else 0%nat)
            (if Nat.leb (S k) c && is_active (nth (c - S k) r unwritten)
             then 1%nat else 0%nat).
Proof.
  destruct (Nat.eqb c k) eqn:Ec.
  - apply Nat.eqb_eq in Ec. subst c. rewrite Nat.leb_refl, Nat.sub_diag.
    replace (Nat.leb (S k) k) with false by (symmetry; apply Nat.leb_gt; lia).
    cbn. destruct (is_active s); reflexivity.
  - apply Nat.eqb_neq in Ec. cbn [andb]. destruct (Nat.leb k c) eqn:E1.
    + apply Nat.leb_le in E1.
      replace (Nat.leb (S k) c) with true by (symmetry; apply Nat.leb_le; lia).
      destruct (c - k)%nat as [|m] eqn:Em; [lia|].
      replace (c - S k)%nat with m by lia. reflexivity.
    + apply Nat.leb_gt in E1.
      replace (Nat.leb (S k) c) with false by (symmetry; apply Nat.leb_gt; lia).
      reflexivity.
Qed.

Lemma set_note_outcome (note : note_t) (isNoteCode : option Z)
    (states : list mml_channel_state_t) :
  forall (g : state waveform) (isPause : Z) (k : nat),
    match set_note synth_freq ADSR_TIME_UNITS pow waveform voice_wf_setup_def
                   g note 0 isNoteCode isPause (Z.of_nat k) states with
    | Ret (states', g') =>
        line g' = line g /\ pos g' = pos g /\ reported g' = reported g
        /\ mml_channel_states g' = mml_channel_states g
        /\ map is_active states' = map is_active states
        /\ extends (frame_map g) (frame_map g')
        /\ forall c, frames_on c (frame_map g') =
             Nat.add (frames_on c (frame_map g))
                     (if Nat.leb k c && is_active (nth (c - k) states unwritten)
                      then 1%nat else 0%nat)
    | Fail log => one_report g log
    | _ => True
    end.
Proof.
  induction states as [|s r IH]; intros g isPause k; cbn [set_note].
  - repeat split; [apply extends_refl|].
    intros c. destruct (c - k)%nat; cbn; rewrite andb_false_r; lia.
  - assert (Hnext : Z.of_nat k + 1 = Z.of_nat (S k)) by lia.
    destruct (isActive s) as [a|] eqn:Ea; cbn [load bind]; [|exact I].
    destruct (a =? 0) eqn:Ez.
    + rewrite Hnext. specialize (IH g isPause (S k)).
      destruct (set_note _ _ _ _ _ _ _ _ _ _ _ r) as [[r' g']| | |]; cbn [bind]; auto.
      destruct IH as (Hl & Hp & Hr & Hs & Ha & Hx & Hf).
      split; [|split; [|split; [|split; [|split; [|split]]]]]; auto.
      * cbn [map]. rewrite Ha. reflexivity.
      * intros c. rewrite Hf, offset_flag.
        assert (Hs0 : is_active s = false) by (unfold is_active; rewrite Ea, Ez; reflexivity).
        rewrite Hs0, andb_false_r. reflexivity.
    + destruct (match isNoteCode with Some _ => _ | None => _ end) as [pause| | |] eqn:Ep;
        cbn [bind]; auto.
      { destruct (if negb (pause =? 0) then _ else _) as [f| | |] eqn:Ef; cbn [bind]; auto.
        - destruct (if n_length note <? 0 then _ else _) as [l| | |] eqn:Elen; cbn [bind]; auto.
          + destruct (if (n_length note <? 0) && (n_dot note =? 0) then _ else _)
              as [d| | |] eqn:Ed; cbn [bind]; auto.
            * destruct (quantize s l d) as [[ts s']| | |] eqn:Eq; cbn [bind]; auto.
              -- apply quantize_inv in Eq. destruct Eq as (sec & u & tot & _ & Hs' & _ & _).
                 destruct (load (volume s')) as [v| | |] eqn:Ev; cbn [bind]; auto.
                 ++ destruct (load (articulation s')) as [ar| | |] eqn:Ear; cbn [bind]; auto.
                    ** destruct (emit g (Z.of_nat k) f ts v ar 0) as [g1| | |] eqn:Ee;
                         cbn [bind]; auto.
                       --- pose proof (emit_ret _ _ _ _ _ _ _ _ Ee) as (Hl1 & Hp1 & Hr1 & Hs1).
                           pose proof (emitter_frames _ _ _ _ _ _ _ Ee) as Hf1.
                           rewrite Hnext. specialize (IH g1 pause (S k)).
                           destruct (set_note _ _ _ _ _ _ _ _ _ _ _ r) as [[r' g']| | |];
                             cbn [bind]; auto.
                           +++ destruct IH as (Hl & Hp & Hr & Hs & Ha & Hx & Hf).
                               split; [|split; [|split; [|split; [|split; [|split]]]]];
                                 try congruence.
                               *** cbn [map]. rewrite Ha, Hs'. reflexivity.
                               *** eapply extends_trans; [|exact Hx].
                                   eapply emitter_extends. exact Ee.
                               *** intros c. rewrite Hf, Hf1, offset_flag.
                                   assert (Hs0 : is_active s = true)
                                     by (unfold is_active; rewrite Ea, Ez; reflexivity).
                                   rewrite Hs0, andb_true_r, Nat2Z.id. lia.
                           +++ eapply one_report_same; [exact Hl1|exact Hr1|exact IH].
                       --- eapply emit_fail. exact Ee.
                    ** exfalso. eapply load_no_fail. exact Ear.
                 ++ exfalso. eapply load_no_fail. exact Ev.
              -- exfalso. eapply quantize_no_fail. exact Eq.
            * exfalso. destruct (_ && _); [eapply load_no_fail; exact Ed|discriminate].
          + exfalso. destruct (_ <? _); [eapply load_no_fail; exact Elen|discriminate].
        - exfalso. destruct (negb (pause =? 0)); [discriminate|].
          destruct (load isNoteCode) as [n| | |] eqn:En; cbn [bind] in Ef; try discriminate.
          + destruct (negb (n =? 0)); [eapply freq_code_no_fail; exact Ef|].
            destruct (load (octave s)) as [o| | |] eqn:Eo; cbn [bind] in Ef; try discriminate.
            * unfold get_freq_from_note in Ef. eapply freq_code_no_fail. exact Ef.
            * eapply load_no_fail. exact Eo.
          + eapply load_no_fail. exact En. }
      exfalso. destruct isNoteCode; [discriminate|].
      destruct (n_noteCode note =? 0); discriminate.
Qed.

Lemma octave_step_fail (g : state waveform) (s : mml_channel_state_t) (log : list report) :
  (octave_down waveform g s = Fail log -> one_report g log)
  /\ (octave_up waveform g s = Fail log -> one_report g log).
Proof.
  unfold octave_down, octave_up, error_handler.
  split; intros H; crack H; try (exfalso; eapply load_no_fail; eassumption);
    inversion H; eexists _, _; reflexivity.
Qed.

Ltac report_now H := inversion H; subst; eexists _, _; reflexivity.

Ltac setter_never_fails H E :=
  inversion H; subst; eapply for_active_fail; [|exact E]; intros ? ?; discriminate.

Lemma command_fail (g : state waveform) (code : Z) (content : buffer) (log : list report) :
  command synth_freq ADSR_TIME_UNITS pow waveform voice_wf_setup_def g 0 code content
    = Fail log ->
  one_report g log.
Proof.
  unfold command, error_handler. cbv zeta. intros H.
  destruct (code =? ch "o").
  { crack H; [report_now H|setter_never_fails H Heqr]. }
  destruct (code =? ch "l").
  { crack H; [report_now H|setter_never_fails H Heqr]. }
  destruct (code =? ch "t").
  { crack H; [report_now H|setter_never_fails H Heqr]. }
  destruct (code =? ch "v").
  { crack H; [report_now H|setter_never_fails H Heqr]. }
  destruct (code =? ch "<").
  { crack H. inversion H; subst. eapply for_active_fail; [|exact Heqr].
    intros s. apply octave_step_fail. }
  destruct (code =? ch ">").
  { crack H. inversion H; subst. eapply for_active_fail; [|exact Heqr].
    intros s. apply octave_step_fail. }
  destruct (code =? ch "m").
  { destruct (if _ =? ch "l" then _ else _) as [a| | |] eqn:Ea; cbn [bind] in H;
      try discriminate.
    - crack H. setter_never_fails H Heqr.
    - inversion H; subst. crack Ea; report_now Ea. }
  destruct (negb _ || _ || _); [|report_now H].
  match type of H with
  | bind (modifiers _ ?fuel ?g0 ?p ?n ?c ?s ?l ?d ?cl ?nc ?ct ?ps) _ = _ =>
      destruct (modifiers waveform fuel g0 p n c s l d cl nc ct ps) as [note| | |] eqn:Em
  end; cbn [bind] in H; try discriminate.
  - match type of H with
    | bind (set_note _ _ _ _ _ ?g0 ?nt _ ?n ?p _ ?sts) _ = _ =>
        pose proof (set_note_outcome nt n sts g0 p 0%nat) as Ho
    end.
    cbn [Z.of_nat] in Ho.
    destruct (set_note _ _ _ _ _ _ _ _ _ _ _ _) as [[states g1]| | |]; cbn [bind] in H;
      try discriminate.
    inversion H; subst. eapply one_report_same; [| |exact Ho]; reflexivity.
  - inversion H; subst. eapply modifiers_fail. exact Em.
Qed.

Lemma command_ret (g g' : state waveform) (code : Z) (content : buffer) (cur : cursor) :
  command synth_freq ADSR_TIME_UNITS pow waveform voice_wf_setup_def g 0 code content
    = Ret (g', cur) ->
  line g' = line g /\ reported g' = reported g
  /\ extends (frame_map g) (frame_map g')
  /\ (is_note_entry code = false -> frame_map g' = frame_map g)
  /\ (is_note_entry code = true -> forall c,
        frames_on c (frame_map g') =
          Nat.add (frames_on c (frame_map g))
                  (if is_active (nth c (mml_channel_states g) unwritten)
                   then 1%nat else 0%nat)).
Proof.
  unfold command, is_note_entry. cbv zeta. intros H.
  destruct (code =? ch "o") eqn:Eo.
  { apply Z.eqb_eq in Eo. subst code. crack H. inversion H; subst.
    repeat split; try apply extends_refl; intros; discriminate. }
  destruct (code =? ch "l") eqn:El.
  { apply Z.eqb_eq in El. subst code. crack H. inversion H; subst.
    repeat split; try apply extends_refl; intros; discriminate. }
  destruct (code =? ch "t") eqn:Et.
  { apply Z.eqb_eq in Et. subst code. crack H. inversion H; subst.
    repeat split; try apply extends_refl; intros; discriminate. }
  destruct (code =? ch "v") eqn:Ev.
  { apply Z.eqb_eq in Ev. subst code. crack H. inversion H; subst.
    repeat split; try apply extends_refl; intros; discriminate. }
  destruct (code =? ch "<") eqn:Ed.
  { apply Z.eqb_eq in Ed. subst code. crack H. inversion H; subst.
    repeat split; try apply extends_refl; intros; discriminate. }
  destruct (code =? ch ">") eqn:Eu.
  { apply Z.eqb_eq in Eu. subst code. crack H. inversion H; subst.
    repeat split; try apply extends_refl; intros; discriminate. }
  destruct (code =? ch "m") eqn:Em.
  { apply Z.eqb_eq in Em. subst code. crack H. inversion H; subst.
    repeat split; try apply extends_refl; intros; discriminate. }
  destruct (negb _ || _ || _) eqn:En; [|discriminate].
  match type of H with
  | bind (modifiers _ ?fuel ?g0 ?p ?n ?c ?s ?l ?d ?cl ?nc ?ct ?ps) _ = _ =>
      destruct (modifiers waveform fuel g0 p n c s l d cl nc ct ps) as [note| | |]
  end; cbn [bind] in H; try discriminate.
  match type of H with
  | bind (set_note _ _ _ _ _ ?g0 ?nt _ ?n ?p _ ?sts) _ = _ =>
      pose proof (set_note_outcome nt n sts g0 p 0%nat) as Ho
  end.
  cbn [Z.of_nat] in Ho.
  destruct (set_note _ _ _ _ _ _ _ _ _ _ _ _) as [[states g1]| | |]; cbn [bind] in H;
    try discriminate.
  inversion H; subst. destruct Ho as (Hl & Hp & Hr & Hs & Ha & Hx & Hf).
  split; [|split; [|split; [|split]]]; try assumption.
  - intros Hn. exfalso. revert En Hn. clear.
    destruct (code =? ch "p"), (code =? ch "r"), (code =? ch "n"); cbn; try discriminate.
    rewrite Z.geb_leb. intros -> ?. discriminate.
  - intros _ c. cbn [frame_map set_states]. rewrite Hf. cbn [Nat.leb andb].
    rewrite Nat.sub_0_r. reflexivity.
Qed.

Lemma uppercase_is_no_command (g : state waveform) (join code : Z) (content : buffer) :
  isupper code = true ->
  command synth_freq ADSR_TIME_UNITS pow waveform voice_wf_setup_def g join code content
    = Fail (error_handler "Unknown command" g).
Proof.
  unfold isupper. rewrite !Z.geb_leb. intros H. apply andb_prop in H. destruct H as (H1 & H2).
  apply Z.leb_le in H1, H2. revert H1 H2. unfold command. eval_ch. intros H1 H2.
  settle_tests. reflexivity.
Qed.

Lemma note_entry_codes (code : Z) : is_note_entry code = true -> 97 <= code <= 114.
Proof.
  unfold is_note_entry. eval_ch. intros H.
  repeat match type of H with
         | _ || _ = true => apply orb_prop in H; destruct H as [H|H]
         | _ && _ = true => apply andb_prop in H; destruct H as (H & ?)
         end;
    repeat match goal with
           | E : (_ =? _) = true |- _ => apply Z.eqb_eq in E
           | E : (_ <=? _) = true |- _ => apply Z.leb_le in E
           end; lia.
Qed.

Lemma skip_comment_no_fail (content : buffer) (log : list report) :
  skip_comment content <> Fail log.
Proof.
  induction content as [|c r IH]; cbn; [discriminate|].
  destruct (char_of_ascii c =? 10); [discriminate|exact IH].
Qed.

Lemma step_ret (g g' : state waveform) (code : Z) (content : buffer) (cur : cursor) :
  step g code content = Ret (g', cur) ->
  reported g' = reported g
  /\ extends (frame_map g) (frame_map g')
  /\ (is_note_entry code = false -> frame_map g' = frame_map g)
  /\ (is_note_entry code = true -> forall c,
        frames_on c (frame_map g') =
          Nat.add (frames_on c (frame_map g))
                  (if is_active (nth c (mml_channel_states g) unwritten)
                   then 1%nat else 0%nat)).
Proof.
  intros H.
  assert (Hcodes := note_entry_codes code).
  unfold mml_step in H. cbv zeta in H. revert H. eval_ch. intros H.
  destruct ((code <=? 32) || (code =? 124)) eqn:Eb.
  { inversion H; subst. clear H.
    assert (Hn : is_note_entry code = true -> False).
    { intros Hn. apply Hcodes in Hn. apply orb_prop in Eb. destruct Eb as [E|E];
        [apply Z.leb_le in E|apply Z.eqb_eq in E]; lia. }
    destruct (code =? 10), (code =? 13); cbn;
      (split; [reflexivity|split; [apply extends_refl|split; [reflexivity|]]]);
      intros Hn'; destruct (Hn Hn'). }
  destruct ((code =? 35) || (code =? 59)) eqn:Ec.
  { destruct (skip_comment content) as [rest| | |]; cbn [bind] in H; try discriminate.
    inversion H; subst. clear H.
    split; [reflexivity|split; [apply extends_refl|split; [reflexivity|]]].
    intros Hn. apply Hcodes in Hn. apply orb_prop in Ec. destruct Ec as [E|E];
      apply Z.eqb_eq in E; lia. }
  destruct (code =? 38) eqn:Ej.
  { inversion H; subst. clear H.
    split; [reflexivity|split; [apply extends_refl|split; [reflexivity|]]].
    intros Hn. apply Hcodes in Hn. apply Z.eqb_eq in Ej. lia. }
  destruct ((code >=? 65) && (code <=? 90)) eqn:Eu.
  { destruct (pos g =? 1).
    - destruct (select_channels _ _ _) as [[states rest] p]. inversion H; subst. clear H.
      split; [reflexivity|split; [apply extends_refl|split; [reflexivity|]]].
      intros Hn. apply Hcodes in Hn. apply andb_prop in Eu. destruct Eu as (_ & E).
      apply Z.leb_le in E. lia.
    - rewrite uppercase_is_no_command in H; [discriminate|].
      unfold isupper. eval_ch. exact Eu. }
  apply command_ret in H. destruct H as (_ & Hr & Hx & Hf & Hn). auto.
Qed.

Lemma step_fail (g : state waveform) (code : Z) (content : buffer) (log : list report) :
  step g code content = Fail log ->
  one_report g log
  \/ log = reported g ++ selector_reports (line g) (pos g).
Proof.
  intros H. unfold mml_step in H. cbv zeta in H.
  destruct ((code <=? 32) || (code =? ch "|")); [discriminate|].
  destruct ((code =? ch "#") || (code =? ch ";")).
  { destruct (skip_comment content) as [rest| | |] eqn:Es; cbn [bind] in H; try discriminate.
    destruct (skip_comment_no_fail _ _ Es). }
  destruct (code =? ch "&"); [discriminate|].
  destruct ((code >=? ch "A") && (code <=? ch "Z")) eqn:Eu.
  { destruct (pos g =? 1).
    - destruct (select_channels _ _ _) as [[states rest] p]. discriminate.
    - rewrite uppercase_is_no_command in H by exact Eu. inversion H; subst.
      right. unfold error_handler, selector_reports. cbn. rewrite <- app_assoc. reflexivity. }
  left. eapply command_fail. exact H.
Qed.

Lemma loop_ret (fuel : nat) :
  forall (g g' : state waveform) (cur : cursor),
    loop fuel g cur = Ret g' ->
    reported g' = reported g /\ extends (frame_map g) (frame_map g').
Proof.
  induction fuel as [|fuel IH]; intros g g' cur H; [discriminate|].
  cbn [mml_loop] in H. destruct cur as [[|c content]|]; try discriminate.
  - inversion H; subst. split; [reflexivity|apply extends_refl].
  - destruct (char_of_ascii c =? 0).
    + inversion H; subst. split; [reflexivity|apply extends_refl].
    + destruct (step _ _ _) as [[g1 cur1]| | |] eqn:Es; cbn [bind] in H; try discriminate.
      apply step_ret in Es. destruct Es as (Hr & Hx & _).
      apply IH in H. destruct H as (Hr' & Hx'). split.
      * rewrite Hr', Hr. reflexivity.
      * eapply extends_trans; [exact Hx|exact Hx'].
Qed.

Lemma loop_fail (fuel : nat) :
  forall (g : state waveform) (cur : cursor) (log : list report),
    loop fuel g cur = Fail log ->
    exists line_ column,
      (exists msg, log = reported g ++ [mkReport msg line_ column])
      \/ log = reported g ++ selector_reports line_ column.
Proof.
  induction fuel as [|fuel IH]; intros g cur log H; [discriminate|].
  cbn [mml_loop] in H. destruct cur as [[|c content]|]; try discriminate.
  destruct (char_of_ascii c =? 0); [discriminate|].
  destruct (step _ _ _) as [[g1 cur1]| | |] eqn:Es; cbn [bind] in H; try discriminate.
  - apply step_ret in Es. destruct Es as (Hr & _).
    apply IH in H. rewrite Hr in H. exact H.
  - inversion H; subst. apply step_fail in Es. destruct Es as [(msg & column & ->)| ->].
    + eexists _, _. left. exists msg. reflexivity.
    + eexists _, _. right. reflexivity.
Qed.

(** X11: a note or a pause adds exactly one frame to every channel that is
    active on the line, and none to any other channel: the turn of the
    main loop for the entry code of a note ([a] to [g], [n], [p], [r]),
    when it succeeds, leaves on every channel the frames it had and one
    more if the channel is active. *)
Theorem note_adds_one_frame_per_active_channel (g g' : state waveform) (code : Z)
    (content : buffer) (cur : cursor) (channel : nat) :
  is_note_entry code = true ->
  mml_step synth_freq ADSR_TIME_UNITS pow waveform voice_wf_setup_def g code content
    = Ret (g', cur) ->
  frames_on channel (frame_map g') =
    Nat.add (frames_on channel (frame_map g))
            (if is_active (nth channel (mml_channel_states g) unwritten)
             then 1%nat else 0%nat).
Proof. intros Hn H. apply step_ret in H. destruct H as (_ & _ & _ & Hf). auto. Qed.

(** X12: only notes and pauses emit frames: the turn of the main loop for
    any other character (blank, bar, comment, join, channel selector,
    [o], [l], [t], [v], [<], [>], [m]), when it succeeds, leaves the frame
    map as it was. *)
Theorem commands_emit_no_frame (g g' : state waveform) (code : Z) (content : buffer)
    (cur : cursor) :
  is_note_entry code = false ->
  mml_step synth_freq ADSR_TIME_UNITS pow waveform voice_wf_setup_def g code content
    = Ret (g', cur) ->
  frame_map g' = frame_map g.
Proof. intros Hn H. apply step_ret in H. destruct H as (_ & _ & Hf & _). auto. Qed.

(** X13: the error handler is called exactly when the compile fails.  A
    compile that reaches the end of the text has called it never; a
    compile that fails has called it once, or twice for a misplaced channel
    selector, both times with the same line and column. *)
Theorem reports_of_a_compile (content : string) :
  match mml_parse synth_freq ADSR_TIME_UNITS pow waveform voice_wf_setup_def content with
  | Ret g => reported g = []
  | Fail log =>
      exists line_ column,
        (exists msg, log = [mkReport msg line_ column])
        \/ log = selector_reports line_ column
  | _ => True
  end.
Proof.
  unfold mml_parse. cbv zeta.
  destruct (mml_loop _ _ _ _ _ _ _ _) as [g| | |] eqn:E; auto.
  - apply loop_ret in E. destruct E as (E & _). exact E.
  - apply loop_fail in E. exact E.
Qed.

(** X14: frames are only ever appended.  Whatever the main loop does from
    some point of the text to the end, every channel of the frame map then
    holds the frames it held at that point, unchanged and in the same
    order, with the new ones behind them: no turn of the loop amends or
    removes a frame, the join included. *)
Theorem frames_are_only_appended (fuel : nat) (g g' : state waveform) (cur : cursor) :
  mml_loop synth_freq ADSR_TIME_UNITS pow waveform voice_wf_setup_def fuel g cur = Ret g' ->
  extends (frame_map g) (frame_map g').
Proof. intros H. apply loop_ret in H. destruct H as (_ & H). exact H. Qed.

(** *** What the channel states hold *)

Local Notation "'ok'" := (settled ADSR_TIME_UNITS).

Lemma settled_fields (s s' : mml_channel_state_t) :
  time_units s' = time_units s ->
  fields_in_range s' = true ->
  ok s -> ok s'.
Proof.
  intros Ht Hf (_ & Hu). split; [exact Hf|]. unfold units_aligned. rewrite Ht. exact Hu.
Qed.

Lemma settled_unwritten : ok unwritten.
Proof. split; [reflexivity|]. intros units H. discriminate. Qed.

Lemma settled_new_channel : ok new_channel.
Proof.
  split; [reflexivity|]. intros units H. cbn in H. inversion H; subst.
  apply Z.divide_0_r.
Qed.

Ltac range_facts H :=
  unfold fields_in_range in H;
  repeat match type of H with
         | _ && _ = true => let H' := fresh "Hr" in apply andb_prop in H; destruct H as (H & H')
         end.

Ltac range_goal :=
  unfold fields_in_range; cbn [octave default_length default_length_dot tempo volume
                                 articulation isActive];
  repeat (apply andb_true_intro; split); try assumption.

Lemma settled_isActive (v : Z) (s : mml_channel_state_t) :
  0 <= v <= 1 -> ok s -> ok (set_isActive v s).
Proof.
  intros Hv Hs. apply (settled_fields s); [reflexivity| |exact Hs].
  destruct Hs as (Hf & _). range_facts Hf. range_goal; apply Z.leb_le; lia.
Qed.

Lemma settled_octave (v : Z) (s : mml_channel_state_t) :
  0 <= v <= 9 -> ok s -> ok (set_octave v s).
Proof.
  intros Hv Hs. apply (settled_fields s); [reflexivity| |exact Hs].
  destruct Hs as (Hf & _). range_facts Hf. range_goal; apply Z.leb_le; lia.
Qed.

Lemma settled_default_length (v d : Z) (s : mml_channel_state_t) :
  1 <= v -> 0 <= d -> ok s -> ok (set_default_length v d s).
Proof.
  intros Hv Hd Hs. apply (settled_fields s); [reflexivity| |exact Hs].
  destruct Hs as (Hf & _). range_facts Hf. range_goal; apply Z.leb_le; lia.
Qed.

Lemma settled_tempo (v : Z) (s : mml_channel_state_t) :
  1 <= v -> ok s -> ok (set_tempo v s).
Proof.
  intros Hv Hs. apply (settled_fields s); [reflexivity| |exact Hs].
  destruct Hs as (Hf & _). range_facts Hf. range_goal; apply Z.leb_le; lia.
Qed.

Lemma settled_volume (v : Z) (s : mml_channel_state_t) :
  1 <= v <= 128 -> ok s -> ok (set_volume v s).
Proof.
  intros Hv Hs. apply (settled_fields s); [reflexivity| |exact Hs].
  destruct Hs as (Hf & _). range_facts Hf. range_goal; apply Z.leb_le; lia.
Qed.

Lemma settled_articulation (a : double) (s : mml_channel_state_t) :
  a = ARTICULATION_LEGATO \/ a = ARTICULATION_NORMAL \/ a = ARTICULATION_STACCATO ->
  ok s -> ok (set_articulation a s).
Proof.
  intros Ha Hs. apply (settled_fields s); [reflexivity| |exact Hs].
  destruct Hs as (Hf & _). range_facts Hf. range_goal.
  destruct Ha as [->|[->| ->]]; reflexivity.
Qed.

Lemma settled_running_time (sec : double) (units scale : Z) (s : mml_channel_state_t) :
  time_units s = Some units ->
  ok s -> ok (set_running_time sec (units + scale * ADSR_TIME_UNITS) s).
Proof.
  intros Hu (Hf & Ha). split; [exact Hf|]. intros u H. cbn in H. inversion H; subst.
  apply Z.divide_add_r; [apply Ha; exact Hu|apply Z.divide_factor_r].
Qed.

Lemma settled_octave_steps (g : state waveform) (s s' : mml_channel_state_t) :
  ok s ->
  (octave_down waveform g s = Ret s' -> ok s')
  /\ (octave_up waveform g s = Ret s' -> ok s').
Proof.
  intros Hs. unfold octave_down, octave_up.
  assert (Ho : forall o, octave s = Some o -> 0 <= o <= 9).
  { intros o Ho. destruct Hs as (Hf & _). range_facts Hf. rewrite Ho in Hf. cbn in Hf.
    apply andb_prop in Hf. destruct Hf as (H1 & H2). apply Z.leb_le in H1, H2. lia. }
  split; intros H; destruct (octave s) as [o|]; cbn [load bind] in H; try discriminate;
    specialize (Ho o eq_refl).
  - destruct (o =? 0) eqn:E; [discriminate|]. apply Z.eqb_neq in E. inversion H; subst.
    apply settled_octave; [lia|exact Hs].
  - destruct (o =? 9) eqn:E; [discriminate|]. apply Z.eqb_neq in E. inversion H; subst.
    apply settled_octave; [lia|exact Hs].
Qed.

Lemma settled_update (i : nat) (f : mml_channel_state_t -> mml_channel_state_t)
    (states : list mml_channel_state_t) :
  (forall s, ok s -> ok (f s)) ->
  Forall ok states -> Forall ok (update i f states).
Proof.
  intros Hf H. revert i. induction H as [|s r Hs Hr IH]; intros [|i]; cbn;
    constructor; auto.
Qed.

Lemma settled_enable (channel : Z) (states : list mml_channel_state_t) :
  Forall ok states -> Forall ok (enable_channel channel states).
Proof.
  intros H. unfold enable_channel. cbv zeta.
  apply settled_update; [intros s; apply settled_isActive; lia|].
  destruct (channel >=? _); [|exact H].
  apply Forall_app. split; [exact H|]. apply Forall_app. split.
  - apply Forall_forall. intros s Hs. apply repeat_spec in Hs. subst. apply settled_unwritten.
  - constructor; [apply settled_new_channel|constructor].
Qed.

Lemma settled_reset (states : list mml_channel_state_t) :
  Forall ok states -> Forall ok (reset_active_state states).
Proof.
  intros H. unfold reset_active_state. apply settled_enable.
  destruct H as [|s r Hs Hr]; constructor; [exact Hs|].
  apply Forall_map. eapply Forall_impl; [|exact Hr].
  intros s1. apply settled_isActive. lia.
Qed.

Lemma settled_select (content : buffer) (states : list mml_channel_state_t) (p : Z) :
  Forall ok states -> Forall ok (fst (fst (select_channels content states p))).
Proof.
  revert states p. induction content as [|c r IH]; intros states p H; cbn; [exact H|].
  destruct (_ && _); [|exact H]. apply IH. apply settled_enable. exact H.
Qed.

Lemma settled_for_active (body : mml_channel_state_t -> result mml_channel_state_t)
    (states states' : list mml_channel_state_t) :
  (forall s s', ok s -> body s = Ret s' -> ok s') ->
  for_active body states = Ret states' ->
  Forall ok states -> Forall ok states'.
Proof.
  intros Hbody. revert states'. induction states as [|s r IH]; intros states' H Hall.
  - inversion H. constructor.
  - inversion Hall as [|? ? Hs Hr]; subst. cbn [for_active] in H.
    destruct (isActive s) as [a|]; cbn [load bind] in H; [|discriminate].
    destruct (if a =? 0 then Ret s else body s) as [s1| | |] eqn:E1; cbn [bind] in H;
      try discriminate.
    destruct (for_active body r) as [r1| | |] eqn:E2; cbn [bind] in H; try discriminate.
    inversion H; subst. constructor; [|apply IH; auto].
    destruct (a =? 0); [inversion E1; subst; exact Hs|].
    eapply Hbody; [exact Hs|exact E1].
Qed.

Lemma settled_set_note (note : note_t) (join : Z) (isNoteCode : option Z)
    (states states' : list mml_channel_state_t) (g g' : state waveform) (isPause i : Z) :
  set_note synth_freq ADSR_TIME_UNITS pow waveform voice_wf_setup_def
           g note join isNoteCode isPause i states = Ret (states', g') ->
  Forall ok states -> Forall ok states'.
Proof.
  revert states' g g' isPause i. induction states as [|s r IH];
    intros states' g g' isPause i H Hall.
  - inversion H. constructor.
  - inversion Hall as [|? ? Hs Hr]; subst. cbn [set_note] in H.
    destruct (isActive s) as [a|]; cbn [load bind] in H; [|discriminate].
    destruct (a =? 0).
    + destruct (set_note _ _ _ _ _ _ _ _ _ _ _ r) as [[r1 g1]| | |] eqn:E;
        cbn [bind] in H; try discriminate.
      inversion H; subst. constructor; [exact Hs|]. eapply IH; eauto.
    + repeat match type of H with
      | bind ?m _ = _ =>
          let E := fresh "E" in
          destruct m as [?| | |] eqn:E; cbn [bind] in H; try discriminate H
      | (let '(_, _) := ?p in _) = _ => destruct p
      end.
      inversion H; subst. constructor; [|eapply IH; eauto].
      match goal with
      | E : quantize _ _ _ = Ret _ |- _ =>
          apply quantize_inv in E; destruct E as (sec & u & tot & Hu & -> & _)
      end.
      apply settled_running_time; assumption.
Qed.

Lemma count_dots_from (content : buffer) (dot p : Z) :
  dot <= fst (fst (count_dots content dot p)).
Proof.
  revert dot p. induction content as [|c r IH]; intros dot p; cbn; [lia|].
  destruct (_ =? _); [|cbn; lia]. specialize (IH (dot + 1) (p + 1)). lia.
Qed.

Lemma settled_command (g g' : state waveform) (join code : Z) (content : buffer)
    (cur : cursor) :
  command synth_freq ADSR_TIME_UNITS pow waveform voice_wf_setup_def
          g join code content = Ret (g', cur) ->
  Forall ok (mml_channel_states g) -> Forall ok (mml_channel_states g').
Proof.
  intros H Hall. unfold command in H. cbv zeta in H.
  destruct (code =? ch "o").
  { destruct (read_digit content (pos g)) as [[d c1] p1] eqn:Ed.
    apply read_digit_range in Ed.
    destruct ((d =? 255) || (d >? 6)) eqn:Eb; [discriminate|].
    apply orb_false_elim in Eb. destruct Eb as (_ & Eb). rewrite Z.gtb_ltb in Eb.
    apply Z.ltb_ge in Eb.
    crack H. inversion H; subst. cbn [mml_channel_states set_states set_pos] in *.
    eapply settled_for_active; [|eassumption|exact Hall].
    intros s s' Hs Hb. inversion Hb; subst. apply settled_octave; [lia|exact Hs]. }
  destruct (code =? ch "l").
  { destruct (read_number content (pos g)) as [[v c1] p1] eqn:Ev.
    pose proof (read_number_never_zero content (pos g)) as Hz. rewrite Ev in Hz. cbn in Hz.
    destruct (v <? 0) eqn:Eb; [discriminate|]. apply Z.ltb_ge in Eb.
    pose proof (count_dots_from c1 0 p1) as Hd.
    destruct (count_dots c1 0 p1) as [[d c2] p2]. cbn [fst] in Hd.
    crack H. inversion H; subst. cbn [mml_channel_states set_states set_pos] in *.
    eapply settled_for_active; [|eassumption|exact Hall].
    intros s s' Hs Hb. inversion Hb; subst. apply settled_default_length; [lia|lia|exact Hs]. }
  destruct (code =? ch "t").
  { destruct (read_number content (pos g)) as [[v c1] p1] eqn:Ev.
    pose proof (read_number_never_zero content (pos g)) as Hz. rewrite Ev in Hz. cbn in Hz.
    destruct (v <? 0) eqn:Eb; [discriminate|]. apply Z.ltb_ge in Eb.
    crack H. inversion H; subst. cbn [mml_channel_states set_states set_pos] in *.
    eapply settled_for_active; [|eassumption|exact Hall].
    intros s s' Hs Hb. inversion Hb; subst. apply settled_tempo; [lia|exact Hs]. }
  destruct (code =? ch "v").
  { destruct (read_number content (pos g)) as [[v c1] p1] eqn:Ev.
    pose proof (read_number_never_zero content (pos g)) as Hz. rewrite Ev in Hz. cbn in Hz.
    destruct ((v <? 0) || (v >? 128)) eqn:Eb; [discriminate|].
    apply orb_false_elim in Eb. destruct Eb as (E1 & E2). rewrite Z.gtb_ltb in E2.
    apply Z.ltb_ge in E1, E2.
    crack H. inversion H; subst. cbn [mml_channel_states set_states set_pos] in *.
    eapply settled_for_active; [|eassumption|exact Hall].
    intros s s' Hs Hb. inversion Hb; subst. apply settled_volume; [lia|exact Hs]. }
  destruct (code =? ch "<").
  { crack H. inversion H; subst. cbn [mml_channel_states set_states set_pos] in *.
    eapply settled_for_active; [|eassumption|exact Hall].
    intros s s' Hs. apply settled_octave_steps. exact Hs. }
  destruct (code =? ch ">").
  { crack H. inversion H; subst. cbn [mml_channel_states set_states set_pos] in *.
    eapply settled_for_active; [|eassumption|exact Hall].
    intros s s' Hs. apply settled_octave_steps. exact Hs. }
  destruct (code =? ch "m").
  { destruct (if _ =? ch "l" then _ else _) as [a| | |] eqn:Ea; cbn [bind] in H;
      try discriminate.
    assert (Hart : a = ARTICULATION_LEGATO \/ a = ARTICULATION_NORMAL
                   \/ a = ARTICULATION_STACCATO).
    { crack Ea; inversion Ea; auto. }
    crack H. inversion H; subst. cbn [mml_channel_states set_states set_pos] in *.
    eapply settled_for_active; [|eassumption|exact Hall].
    intros s s' Hs Hb. inversion Hb; subst. apply settled_articulation; assumption. }
  crack H. inversion H; subst. cbn [mml_channel_states set_states set_pos] in *.
  eapply settled_set_note; eassumption.
Qed.

Lemma settled_step (g g' : state waveform) (code : Z) (content : buffer) (cur : cursor) :
  step g code content = Ret (g', cur) ->
  Forall ok (mml_channel_states g) -> Forall ok (mml_channel_states g').
Proof.
  intros H Hall. unfold mml_step in H. cbv zeta in H.
  destruct (_ || _).
  { inversion H; subst. destruct (code =? 10), (code =? 13); cbn;
      try apply settled_reset; exact Hall. }
  destruct (_ || _).
  { crack H. inversion H; subst. cbn. apply settled_reset. exact Hall. }
  destruct (code =? ch "&").
  { inversion H; subst. exact Hall. }
  destruct (_ && _); [destruct (pos g =? 1)|].
  - destruct (select_channels _ _ _) as [[states rest] p] eqn:E.
    inversion H; subst. cbn.
    change states with (fst (fst (states, rest, p))). rewrite <- E.
    apply settled_select, settled_enable, settled_update;
      [intros s; apply settled_isActive; lia|exact Hall].
  - apply settled_command in H; exact H || exact Hall.
  - apply settled_command in H; exact H || exact Hall.
Qed.

Lemma settled_loop (fuel : nat) (g g' : state waveform) (cur : cursor) :
  loop fuel g cur = Ret g' ->
  Forall ok (mml_channel_states g) -> Forall ok (mml_channel_states g').
Proof.
  revert g cur. induction fuel as [|fuel IH]; intros g cur H Hall; [discriminate|].
  destruct cur as [[|c content]|]; cbn [mml_loop] in H.
  - inversion H; subst. exact Hall.
  - destruct (char_of_ascii c =? 0); [inversion H; subst; exact Hall|].
    destruct (step _ _ _) as [[g1 cur1]| | |] eqn:E; cbn [bind] in H; try discriminate.
    eapply IH; [exact H|]. eapply settled_step; [exact E|exact Hall].
  - discriminate.
Qed.

(** X15: the channel states only ever hold what the commands let through.
    At the end of a compile that succeeds, every written field of every
    channel is in its range: octave 0..9, default length and tempo at least
    1 (so that the quantizer never divides by a zero tempo or a zero default
    length), no negative count of dots, volume 1..128, one of the three
    articulations, active flag 0 or 1. *)
Theorem compiled_fields_in_range (content : string) (g : state waveform) :
  mml_parse synth_freq ADSR_TIME_UNITS pow waveform voice_wf_setup_def content = Ret g ->
  Forall (fun s => fields_in_range s = true) (mml_channel_states g).
Proof.
  unfold mml_parse. intros H.
  eapply Forall_impl; [|eapply settled_loop; [exact H|]].
  - intros s (Hf & _). exact Hf.
  - cbn. constructor; [|constructor].
    change (ok (set_isActive 1 new_channel)).
    apply settled_isActive; [lia|apply settled_new_channel].
Qed.

(** X16: the time-unit accumulator of every channel is, at every turn of
    the main loop and so at the end of a compile, a whole multiple of
    [ADSR_TIME_UNITS]: the quantizer only ever adds a whole number of
    envelopes to it, and a new channel starts at 0. *)
Theorem time_units_are_whole_envelopes (fuel : nat) (g g' : state waveform) (cur : cursor) :
  mml_loop synth_freq ADSR_TIME_UNITS pow waveform voice_wf_setup_def fuel g cur = Ret g' ->
  Forall (settled ADSR_TIME_UNITS) (mml_channel_states g) ->
  Forall (units_aligned ADSR_TIME_UNITS) (mml_channel_states g').
Proof.
  intros H Hall. eapply Forall_impl; [|eapply settled_loop; [exact H|exact Hall]].
  intros s (_ & Hu). exact Hu.
Qed.

(** *** What the modifier loop hands to the set-note loop *)

Lemma modifiers_ranges (fuel : nat) (g : state waveform) (isPause : Z) (isNoteCode : option Z) :
  forall (code sharp length dot customLength noteCode : Z) (content : buffer) (p : Z)
         (note : note_t),
    modifiers waveform fuel g isPause isNoteCode code sharp length dot customLength noteCode
              content p = Ret note ->
    (sharp = 0 \/ sharp = 1) ->
    (length = -1 \/ 1 <= length) ->
    0 <= dot ->
    (noteCode = -1 \/ 1 <= noteCode <= 84) ->
    (n_sharp note = 0 \/ n_sharp note = 1)
    /\ (n_length note = -1 \/ 1 <= n_length note)
    /\ 0 <= n_dot note
    /\ (n_noteCode note = -1 \/ 1 <= n_noteCode note <= 84).
Proof.
  induction fuel as [|fuel IH];
    intros code sharp length dot customLength noteCode content p note H Hs Hl Hd Hn;
    [discriminate|].
  cbn [modifiers] in H. cbv zeta in H.
  destruct (if isPause =? 0 then _ else _) as [letter| | |]; cbn [bind] in H;
    try discriminate.
  destruct (letter && _).
  { destruct (_ || _); [discriminate|]. eapply IH in H; eauto. }
  destruct (isdigit _).
  { destruct (load isNoteCode) as [n| | |]; cbn [bind] in H; try discriminate.
    destruct (negb (n =? 0)).
    - destruct (negb (noteCode =? -1)); [discriminate|].
      pose proof (read_number_never_zero content p) as Hz.
      destruct (read_number content p) as [[v c1] p1]. cbn [fst] in Hz.
      destruct ((v <? 0) || (v >? 84)) eqn:Eb; [discriminate|].
      apply orb_false_elim in Eb. destruct Eb as (E1 & E2). rewrite Z.gtb_ltb in E2.
      apply Z.ltb_ge in E1, E2.
      eapply IH in H; eauto. right. lia.
    - destruct (negb (customLength =? 0)); [discriminate|].
      pose proof (read_number_never_zero content p) as Hz.
      destruct (read_number content p) as [[v c1] p1]. cbn [fst] in Hz.
      destruct (v <? 0) eqn:E1; [discriminate|]. apply Z.ltb_ge in E1.
      eapply IH in H; eauto. right. lia. }
  destruct (_ =? ch ".").
  { eapply IH in H; eauto. lia. }
  inversion H; subst. cbn. auto.
Qed.

(** X18: what the modifier loop of a note or a pause can return.  The
    sharp flag is 0 or 1; the length is -1 (none given: the default of the
    channel is used) or at least 1, never 0; the count of dots is not
    negative; the note code is -1 (none given) or one of 1..84.  So the
    set-note loop never hands a zero length to the quantizer, which divides
    by it. *)
Theorem modifier_loop_ranges (fuel : nat) (g : state waveform) (isPause : Z)
    (isNoteCode : option Z) (code : Z) (content : buffer) (p : Z) (note : note_t) :
  modifiers waveform fuel g isPause isNoteCode code 0 (-1) 0 0 (-1) content p = Ret note ->
  (n_sharp note = 0 \/ n_sharp note = 1)
  /\ (n_length note = -1 \/ 1 <= n_length note)
  /\ 0 <= n_dot note
  /\ (n_noteCode note = -1 \/ 1 <= n_noteCode note <= 84).
Proof. intros H. eapply modifiers_ranges in H; eauto. lia. Qed.

(** *** The time scale of a note, from the quantizer to the frame *)

Lemma emit_new_frame (g g' : state waveform) (k : nat) (f ts v : Z) (a : double) :
  emit g (Z.of_nat k) f ts v a 0 = Ret g' ->
  ts <= UINT16_MAX
  /\ exists fr,
       nth k (frame_map g') [] = nth k (frame_map g) [] ++ [fr]
       /\ adsr_time_scale_1 waveform fr = to_uint16 (ts - 1).
Proof.
  intros H. unfold add_channel_frame in H. cbv zeta in H. cbn [Z.eqb negb andb] in H.
  destruct (if f =? 0 then _ else _) as [w| | |]; cbn [bind] in H; try discriminate.
  destruct (ts >? UINT16_MAX) eqn:Et; [discriminate|].
  destruct (bind (fmul _ _) _) as [rel| | |]; cbn [bind] in H; try discriminate.
  inversion H; subst. clear H. rewrite Z.gtb_ltb in Et. apply Z.ltb_ge in Et.
  pose proof (grow_frame_map_length (Z.of_nat k) (frame_map g) ltac:(lia)) as Hg.
  rewrite Nat2Z.id in Hg.
  split; [exact Et|]. eexists. cbn [frame_map set_frame_map]. rewrite Nat2Z.id. split.
  - rewrite (nth_update k) by lia.
    rewrite <- (Nat2Z.id k) at 1. rewrite nth_grow_frame_map_any, Nat2Z.id. reflexivity.
  - reflexivity.
Qed.

Lemma emit_other_channel (g g' : state waveform) (k c : nat) (f ts v : Z) (a : double) :
  emit g (Z.of_nat k) f ts v a 0 = Ret g' ->
  c <> k ->
  nth c (frame_map g') [] = nth c (frame_map g) [].
Proof.
  intros H Hc. destruct (emit_inv _ _ _ _ _ _ _ _ H) as (fr & -> & _).
  cbn [frame_map set_frame_map]. rewrite Nat2Z.id.
  rewrite nth_update_other by lia. apply nth_grow_frame_map_any.
Qed.

Lemma set_note_keeps_lower (note : note_t) (isNoteCode : option Z)
    (states states' : list mml_channel_state_t) (g g' : state waveform) (isPause : Z)
    (k c : nat) :
  set_note synth_freq ADSR_TIME_UNITS pow waveform voice_wf_setup_def
           g note 0 isNoteCode isPause (Z.of_nat k) states = Ret (states', g') ->
  (c < k)%nat ->
  nth c (frame_map g') [] = nth c (frame_map g) [].
Proof.
  intros H Hc. pose proof (set_note_outcome note isNoteCode states g isPause k) as Ho.
  rewrite H in Ho. destruct Ho as (_ & _ & _ & _ & _ & Hx & Hf).
  destruct (Hx c) as (added & E). specialize (Hf c). unfold frames_on in Hf.
  replace (Nat.leb k c) with false in Hf by (symmetry; apply Nat.leb_gt; lia).
  cbn [andb] in Hf. rewrite E, length_app in Hf.
  destruct added; [rewrite app_nil_r in E; exact E|cbn in Hf; lia].
Qed.

Lemma set_note_plays (note : note_t) (isNoteCode : option Z)
    (states : list mml_channel_state_t) :
  forall (g g' : state waveform) (isPause : Z) (k : nat)
         (states' : list mml_channel_state_t),
    set_note synth_freq ADSR_TIME_UNITS pow waveform voice_wf_setup_def
             g note 0 isNoteCode isPause (Z.of_nat k) states = Ret (states', g') ->
    forall (j : nat) (s : mml_channel_state_t),
      nth_error states j = Some s ->
      is_active s = true ->
      exists s', nth_error states' j = Some s' /\ plays g g' (k + j) s s'.
Proof.
  induction states as [|s0 r IH]; intros g g' isPause k states' H j s Hs Hact.
  { destruct j; discriminate. }
  assert (Hnext : Z.of_nat k + 1 = Z.of_nat (S k)) by lia.
  cbn [set_note] in H. rewrite Hnext in H.
  destruct (isActive s0) as [a|] eqn:Ea; cbn [load bind] in H; [|discriminate].
  destruct (a =? 0) eqn:Ez.
  - destruct (set_note _ _ _ _ _ _ _ _ _ _ _ r) as [[r' g1]| | |] eqn:Er;
      cbn [bind] in H; try discriminate.
    inversion H; subst. clear H. destruct j as [|j]; cbn [nth_error] in Hs.
    + inversion Hs; subst. unfold is_active in Hact. rewrite Ea, Ez in Hact. discriminate.
    + destruct (IH _ _ _ _ _ Er j s Hs Hact) as (s' & Hs' & Hp).
      exists s'. split; [exact Hs'|].
      replace (k + S j)%nat with (S k + j)%nat by lia. exact Hp.
  - repeat match type of H with
    | bind ?m _ = _ =>
        let E := fresh "E" in
        destruct m as [?| | |] eqn:E; cbn [bind] in H; try discriminate H
    | (let '(_, _) := ?p in _) = _ => destruct p
    end.
    inversion H; subst. clear H.
    match goal with
    | Eq : quantize _ _ _ = Ret (?ts, ?s1),
      Ee : emit g _ _ _ _ _ 0 = Ret ?g1,
      Er : set_note _ _ _ _ _ _ _ _ _ _ _ r = Ret (?r1, _) |- _ =>
        rename Eq into Hq; rename Ee into He; rename Er into Hr
    end.
    destruct j as [|j]; cbn [nth_error] in Hs.
    + inversion Hs; subst s0. clear Hs.
      destruct (emit_new_frame _ _ _ _ _ _ _ He) as (Hts & fr & Hfr & Hscale).
      pose proof (set_note_keeps_lower _ _ _ _ _ _ _ _ k Hr ltac:(lia)) as Hkeep.
      eexists. split; [reflexivity|]. rewrite Nat.add_0_r.
      do 3 eexists. exists fr. split; [exact Hq|]. split.
      { do 5 eexists. split; [exact He|]. split; [reflexivity|]. symmetry. exact Hkeep. }
      split; [rewrite Hkeep; exact Hfr|]. split; assumption.
    + destruct (IH _ _ _ _ _ Hr j s Hs Hact) as (s' & Hs' & Hp).
      exists s'. split; [exact Hs'|].
      replace (k + S j)%nat with (S k + j)%nat by lia.
      pose proof (emit_other_channel _ _ k (S k + j) _ _ _ _ He ltac:(lia)) as Hsame.
      destruct Hp as (len & dts & ts & fr & Hq' & (g1 & g2 & f & v & ar & He' & H1 & H2)
                      & Hfr & Hscale & Hts).
      exists len, dts, ts, fr. split; [exact Hq'|]. split.
      { exists g1, g2, f, v, ar. split; [exact He'|]. split; [congruence|exact H2]. }
      split; [rewrite <- Hsame; exact Hfr|]. split; assumption.
Qed.

Lemma note_step_is_set_note (g g' : state waveform) (code : Z) (content : buffer)
    (cur : cursor) :
  is_note_entry code = true ->
  step g code content = Ret (g', cur) ->
  exists (note : note_t) (isNoteCode : option Z) (isPause p : Z)
         (states' : list mml_channel_state_t) (g1 : state waveform),
    set_note synth_freq ADSR_TIME_UNITS pow waveform voice_wf_setup_def
             (set_pos p g) note 0 isNoteCode isPause 0 (mml_channel_states g)
      = Ret (states', g1)
    /\ g' = set_states states' g1.
Proof.
  intros Hn H. pose proof (note_entry_codes code Hn) as Hc.
  assert (Hcmd : step g code content =
                 command synth_freq ADSR_TIME_UNITS pow waveform voice_wf_setup_def
                         g 0 code content).
  { unfold mml_step. cbv zeta. eval_ch. settle_tests. reflexivity. }
  rewrite Hcmd in H. clear Hcmd. unfold command in H. cbv zeta in H.
  unfold is_note_entry in Hn.
  destruct (code =? ch "o") eqn:Eo; [apply Z.eqb_eq in Eo; subst code; discriminate|].
  destruct (code =? ch "l") eqn:El; [apply Z.eqb_eq in El; subst code; discriminate|].
  destruct (code =? ch "t") eqn:Et; [apply Z.eqb_eq in Et; subst code; discriminate|].
  destruct (code =? ch "v") eqn:Ev; [apply Z.eqb_eq in Ev; subst code; discriminate|].
  destruct (code =? ch "<") eqn:Ed; [apply Z.eqb_eq in Ed; subst code; discriminate|].
  destruct (code =? ch ">") eqn:Eu; [apply Z.eqb_eq in Eu; subst code; discriminate|].
  destruct (code =? ch "m") eqn:Em; [apply Z.eqb_eq in Em; subst code; discriminate|].
  destruct (negb _ || _ || _); [|discriminate].
  match type of H with
  | bind (modifiers _ ?fuel ?g0 ?p ?n ?c ?s ?l ?d ?cl ?nc ?ct ?ps) _ = _ =>
      destruct (modifiers waveform fuel g0 p n c s l d cl nc ct ps) as [note| | |]
  end; cbn [bind] in H; try discriminate.
  destruct (set_note _ _ _ _ _ _ _ _ _ _ _ _) as [[states' g1]| | |] eqn:Es;
    cbn [bind] in H; try discriminate.
  inversion H; subst. do 6 eexists. split; [exact Es|reflexivity].
Qed.

Lemma note_step_plays (g g' : state waveform) (code : Z) (content : buffer) (cur : cursor)
    (c : nat) (s : mml_channel_state_t) :
  is_note_entry code = true ->
  step g code content = Ret (g', cur) ->
  nth_error (mml_channel_states g) c = Some s ->
  is_active s = true ->
  exists s', nth_error (mml_channel_states g') c = Some s' /\ plays g g' c s s'.
Proof.
  intros Hn H Hs Hact.
  destruct (note_step_is_set_note _ _ _ _ _ Hn H)
    as (note & inc & isPause & p & states' & g1 & Es & ->).
  exact (set_note_plays note inc _ _ _ isPause 0%nat _ Es c s Hs Hact).
Qed.

(** *** What leaves the running time of a channel alone *)

Lemma keeps_refl (states : list mml_channel_state_t) : keeps_running_time states states.
Proof. intros c s H. exists s. auto. Qed.

Lemma keeps_trans (s1 s2 s3 : list mml_channel_state_t) :
  keeps_running_time s1 s2 -> keeps_running_time s2 s3 -> keeps_running_time s1 s3.
Proof.
  intros H1 H2 c s Hs. destruct (H1 c s Hs) as (s' & Hs' & Ha & Hb).
  destruct (H2 c s' Hs') as (s'' & Hs'' & Hc & Hd).
  exists s''. repeat split; congruence.
Qed.

Lemma keeps_update (i : nat) (f : mml_channel_state_t -> mml_channel_state_t)
    (states : list mml_channel_state_t) :
  (forall s, seconds (f s) = seconds s /\ time_units (f s) = time_units s) ->
  keeps_running_time states (update i f states).
Proof.
  intros Hf. revert i. induction states as [|x r IH]; intros i c s Hs.
  - destruct c; discriminate.
  - destruct i as [|i], c as [|c]; cbn in *.
    + inversion Hs; subst. exists (f s). split; [reflexivity|apply Hf].
    + exists s. auto.
    + exists s. auto.
    + apply IH. exact Hs.
Qed.

Lemma keeps_app (states more : list mml_channel_state_t) :
  keeps_running_time states (states ++ more).
Proof.
  intros c s Hs. exists s. split; [|auto].
  rewrite nth_error_app1; [exact Hs|]. apply nth_error_Some. congruence.
Qed.

Lemma keeps_enable (channel : Z) (states : list mml_channel_state_t) :
  keeps_running_time states (enable_channel channel states).
Proof.
  unfold enable_channel. cbv zeta. eapply keeps_trans; [|apply keeps_update; intros; auto].
  destruct (channel >=? _); [apply keeps_app|apply keeps_refl].
Qed.

Lemma keeps_map (f : mml_channel_state_t -> mml_channel_state_t)
    (states : list mml_channel_state_t) :
  (forall s, seconds (f s) = seconds s /\ time_units (f s) = time_units s) ->
  keeps_running_time states (map f states).
Proof.
  intros Hf c s Hs. exists (f s). split; [|apply Hf].
  rewrite nth_error_map, Hs. reflexivity.
Qed.

Lemma keeps_reset (states : list mml_channel_state_t) :
  keeps_running_time states (reset_active_state states).
Proof.
  unfold reset_active_state. cbv zeta. eapply keeps_trans; [|apply keeps_enable].
  destruct states as [|s0 r]; [apply keeps_refl|].
  intros [|c] s Hs; cbn in *.
  - exists s. auto.
  - apply (keeps_map (set_isActive 0)); [intros; auto|exact Hs].
Qed.

Lemma keeps_select (content : buffer) (states : list mml_channel_state_t) (p : Z) :
  keeps_running_time states (fst (fst (select_channels content states p))).
Proof.
  revert states p. induction content as [|c r IH]; intros states p; cbn;
    [apply keeps_refl|].
  destruct (_ && _); [|apply keeps_refl].
  eapply keeps_trans; [apply keeps_enable|apply IH].
Qed.

Lemma keeps_for_active (body : mml_channel_state_t -> result mml_channel_state_t)
    (states states' : list mml_channel_state_t) :
  (forall s s', body s = Ret s' -> seconds s' = seconds s /\ time_units s' = time_units s) ->
  for_active body states = Ret states' ->
  keeps_running_time states states'.
Proof.
  intros Hb. revert states'. induction states as [|x r IH]; intros states' H.
  - inversion H. apply keeps_refl.
  - cbn [for_active] in H.
    destruct (isActive x) as [a|]; cbn [load bind] in H; [|discriminate].
    destruct (if a =? 0 then Ret x else body x) as [x1| | |] eqn:E1; cbn [bind] in H;
      try discriminate.
    destruct (for_active body r) as [r1| | |] eqn:E2; cbn [bind] in H; try discriminate.
    inversion H; subst. intros [|c] s Hs; cbn in *.
    + inversion Hs; subst. exists x1. split; [reflexivity|].
      destruct (a =? 0); [inversion E1; auto|apply Hb; exact E1].
    + apply (IH r1 eq_refl). exact Hs.
Qed.

Ltac keeps_setter :=
  let s := fresh "s" in let s' := fresh "s'" in let Hb := fresh "Hb" in
  intros s s' Hb;
  first [ inversion Hb; split; reflexivity
        | unfold octave_down, octave_up in Hb;
          destruct (octave s); cbn [load bind] in Hb; [|discriminate Hb];
          match type of Hb with (if ?b then _ else _) = _ => destruct b end;
          [discriminate Hb | inversion Hb; split; reflexivity] ].

Lemma set_note_skips_inactive (note : note_t) (isNoteCode : option Z)
    (states : list mml_channel_state_t) :
  forall (g g' : state waveform) (isPause i : Z) (states' : list mml_channel_state_t),
    set_note synth_freq ADSR_TIME_UNITS pow waveform voice_wf_setup_def
             g note 0 isNoteCode isPause i states = Ret (states', g') ->
    forall (j : nat) (s : mml_channel_state_t),
      nth_error states j = Some s ->
      is_active s = false ->
      nth_error states' j = Some s.
Proof.
  induction states as [|s0 r IH]; intros g g' isPause i states' H j s Hs Hact.
  { destruct j; discriminate. }
  cbn [set_note] in H.
  destruct (isActive s0) as [a|] eqn:Ea; cbn [load bind] in H; [|discriminate].
  destruct (a =? 0) eqn:Ez.
  - destruct (set_note _ _ _ _ _ _ _ _ _ _ _ r) as [[r' g1]| | |] eqn:Er;
      cbn [bind] in H; try discriminate.
    inversion H; subst. destruct j as [|j]; cbn [nth_error] in *; [exact Hs|].
    eapply IH; eauto.
  - repeat match type of H with
    | bind ?m _ = _ =>
        let E := fresh "E" in
        destruct m as [?| | |] eqn:E; cbn [bind] in H; try discriminate H
    | (let '(_, _) := ?p in _) = _ => destruct p
    end.
    inversion H; subst. destruct j as [|j]; cbn [nth_error] in *.
    + inversion Hs; subst. unfold is_active in Hact. rewrite Ea, Ez in Hact. discriminate.
    + eapply IH; eauto.
Qed.

Lemma command_keeps (g g' : state waveform) (code : Z) (content : buffer) (cur : cursor) :
  is_note_entry code = false ->
  command synth_freq ADSR_TIME_UNITS pow waveform voice_wf_setup_def g 0 code content
    = Ret (g', cur) ->
  keeps_running_time (mml_channel_states g) (mml_channel_states g').
Proof.
  intros Hn H. unfold command in H. cbv zeta in H.
  destruct (code =? ch "o").
  { crack H. inversion H; subst. cbn. eapply keeps_for_active; [|eassumption]. keeps_setter. }
  destruct (code =? ch "l").
  { crack H. inversion H; subst. cbn. eapply keeps_for_active; [|eassumption]. keeps_setter. }
  destruct (code =? ch "t").
  { crack H. inversion H; subst. cbn. eapply keeps_for_active; [|eassumption]. keeps_setter. }
  destruct (code =? ch "v").
  { crack H. inversion H; subst. cbn. eapply keeps_for_active; [|eassumption]. keeps_setter. }
  destruct (code =? ch "<").
  { crack H. inversion H; subst. cbn. eapply keeps_for_active; [|eassumption]. keeps_setter. }
  destruct (code =? ch ">").
  { crack H. inversion H; subst. cbn. eapply keeps_for_active; [|eassumption]. keeps_setter. }
  destruct (code =? ch "m").
  { destruct (if _ =? ch "l" then _ else _) as [a| | |]; cbn [bind] in H; try discriminate.
    crack H. inversion H; subst. cbn. eapply keeps_for_active; [|eassumption]. keeps_setter. }
  destruct (negb _ || _ || _) eqn:En; [|discriminate].
  exfalso. revert En Hn. clear. unfold is_note_entry.
  destruct (code =? ch "p"), (code =? ch "r"), (code =? ch "n"); cbn; try discriminate.
  rewrite Z.geb_leb. intros -> ?. discriminate.
Qed.

Lemma step_keeps (g g' : state waveform) (code : Z) (content : buffer) (cur : cursor) :
  is_note_entry code = false ->
  step g code content = Ret (g', cur) ->
  keeps_running_time (mml_channel_states g) (mml_channel_states g').
Proof.
  intros Hn H. unfold mml_step in H. cbv zeta in H.
  destruct (_ || _).
  { inversion H; subst. destruct (code =? 10), (code =? 13); cbn;
      try apply keeps_reset; apply keeps_refl. }
  destruct (_ || _).
  { crack H. inversion H; subst. cbn. apply keeps_reset. }
  destruct (code =? ch "&").
  { inversion H; subst. apply keeps_refl. }
  destruct (_ && _) eqn:Eu; [destruct (pos g =? 1)|].
  - destruct (select_channels _ _ _) as [[states rest] p] eqn:E.
    inversion H; subst. cbn.
    change states with (fst (fst (states, rest, p))). rewrite <- E.
    eapply keeps_trans; [|apply keeps_select].
    eapply keeps_trans; [|apply keeps_enable].
    apply keeps_update. intros; auto.
  - rewrite uppercase_is_no_command in H by exact Eu. discriminate.
  - eapply command_keeps; eassumption.
Qed.

Lemma note_step_skips_inactive (g g' : state waveform) (code : Z) (content : buffer)
    (cur : cursor) (c : nat) (s : mml_channel_state_t) :
  is_note_entry code = true ->
  step g code content = Ret (g', cur) ->
  nth_error (mml_channel_states g) c = Some s ->
  is_active s = false ->
  nth_error (mml_channel_states g') c = Some s.
Proof.
  intros Hn H Hs Hact.
  destruct (note_step_is_set_note _ _ _ _ _ Hn H)
    as (note & inc & isPause & p & states' & g1 & Es & ->).
  exact (set_note_skips_inactive note inc _ _ _ _ _ _ Es c s Hs Hact).
Qed.

(** C2, as amended.  With a positive [ADSR_TIME_UNITS]:
    - a call of the quantizer that returns adds the time scale it returns,
      times [ADSR_TIME_UNITS], to the time-unit accumulator of the channel,
      and leaves the accumulator at most one [ADSR_TIME_UNITS] away from
      the rounded product of the running seconds and the sample rate, in
      the arithmetic of [double];
    - the turn of the main loop for a note or a pause does this once for
      every active channel, and the time scale the quantizer returned is
      the one [add_channel_frame] is called with for that channel: the
      frame it appends holds it, minus one, in its 16-bit field; the
      channels that are not active keep their state;
    - every other turn of the main loop leaves the running seconds and the
      accumulator of every channel as they are;
    - so after every turn of the main loop, and at the end of the compile,
      every channel is at most one [ADSR_TIME_UNITS] away. *)
Theorem quantizer_drift_bounded :
  0 < ADSR_TIME_UNITS ->
  (forall (st st' : mml_channel_state_t) (length dots time_scale : Z),
      get_adsr_time_scale synth_freq ADSR_TIME_UNITS st length dots = Ret (time_scale, st') ->
      exists units,
        time_units st = Some units
        /\ time_units st' = Some (units + time_scale * ADSR_TIME_UNITS)
        /\ within st' = true)
  /\ (forall (g g' : state waveform) (code : Z) (content : buffer) (cur : cursor),
      is_note_entry code = true ->
      mml_step synth_freq ADSR_TIME_UNITS pow waveform voice_wf_setup_def g code content
        = Ret (g', cur) ->
      forall (c : nat) (s : mml_channel_state_t),
        nth_error (mml_channel_states g) c = Some s ->
        (is_active s = true ->
           exists s',
             nth_error (mml_channel_states g') c = Some s'
             /\ played synth_freq ADSR_TIME_UNITS waveform voice_wf_setup_def g g' c s s')
        /\ (is_active s = false -> nth_error (mml_channel_states g') c = Some s))
  /\ (forall (g g' : state waveform) (code : Z) (content : buffer) (cur : cursor),
      is_note_entry code = false ->
      step g code content = Ret (g', cur) ->
      keeps_running_time (mml_channel_states g) (mml_channel_states g'))
  /\ (forall (g g' : state waveform) (code : Z) (content : buffer) (cur : cursor),
      step g code content = Ret (g', cur) ->
      all_inside (mml_channel_states g) -> all_inside (mml_channel_states g'))
  /\ (forall (content : string) (g : state waveform),
      parse content = Ret g -> all_inside (mml_channel_states g)).
Proof.
  intros Ha. split; [|split; [|split; [|split]]].
  - intros st st' length dots time_scale H.
    pose proof (quantize_within_envelope _ _ _ _ _ Ha H) as Hw.
    apply quantize_inv in H. destruct H as (sec & units & total & Hu & -> & _).
    exists units. repeat split; assumption.
  - intros g g' code content cur Hn H c s Hs. split; intros Hact.
    + eapply note_step_plays; eassumption.
    + eapply note_step_skips_inactive; eassumption.
  - intros g g' code content cur. apply step_keeps.
  - intros g g' code content cur. apply all_within_step. exact Ha.
  - intros content g. apply all_within_parse. exact Ha.
Qed.

End Properties.

(** * The properties on the host configuration *)

(** C1, evaluated: the turn of the main loop that reads [&] sets a [join]
    that no later turn sees, so "c4&c8" compiles like "c4 c8": two frames
    on channel 0, of 250 and 125 time units, and no frame of their sum
    375. *)
Theorem join_does_not_merge :
  (forall (synth_freq ADSR_TIME_UNITS : Z) (pow : double -> double -> double)
          (waveform : Type) (voice_wf_setup_def : Z -> Z -> option waveform)
          (g : state waveform) (content : buffer),
      mml_step synth_freq ADSR_TIME_UNITS pow waveform voice_wf_setup_def
               g (ch "&") content = Ret (g, At content))
  /\ Host.quantized [(4, 0); (8, 0)] = Ret (375, Some 24000)
  /\ Host.outcome (Host.compile "c4&c8") = Ret [[(1046, 250); (1046, 125)]]
  /\ Host.outcome (Host.compile "c4&c8") = Host.outcome (Host.compile "c4 c8").
Proof.
  split; [intros; apply join_is_skipped|].
  repeat split; vm_compute; reflexivity.
Qed.

(** C2 fails as stated: after "c4c8" the frame emitter was handed the time
    scales 250 and 125, and the time-unit accumulator of the channel holds
    24000, which is 64 times their sum. *)
Lemma accumulator_is_not_the_plain_sum :
  Host.outcome (Host.compile "c4c8") = Ret [[(1046, 250); (1046, 125)]]
  /\ running_units (Host.compile "c4c8") = Ret [Some 24000]
  /\ Host.quantized [(4, 0); (8, 0)] = Ret (250 + 125, Some (64 * (250 + 125)))
  /\ 24000 <> 250 + 125.
Proof. repeat split; vm_compute; (reflexivity || discriminate). Qed.

(** The rounding of [double] shows in what is compiled: the running
    seconds after "c3" are the [double] next to 2/3, and on the second
    text the last time scale is 75 and the accumulator 14656, where the
    arithmetic of the rationals gives 76 and 14720. *)
Lemma rounding_shows_in_the_time_scales :
  (g <- Host.compile "c3" ;; Ret (map seconds (mml_channel_states g)))
    = Ret [Some (6004799503160661 # 9007199254740992)]
  /\ Host.outcome (Host.compile "t112 c128..c128c12c64..c48...")
     = Ret [[(1046, 19); (1046, 8); (1046, 89); (1046, 38); (1046, 75)]]
  /\ running_units (Host.compile "t112 c128..c128c12c64..c48...") = Ret [Some 14656].
Proof. repeat split; vm_compute; reflexivity. Qed.

Lemma quantizer_drift_bounded_witness :
  0 < Host.ADSR_TIME_UNITS
  /\ exists g,
      mml_parse Host.synth_freq Host.ADSR_TIME_UNITS Host.pow Host.waveform
                Host.voice_wf_setup_def "c3c3" = Ret g
      /\ all_within Host.synth_freq Host.ADSR_TIME_UNITS (mml_channel_states g).
Proof.
  split; [reflexivity|].
  assert (H : match mml_parse Host.synth_freq Host.ADSR_TIME_UNITS Host.pow Host.waveform
                    Host.voice_wf_setup_def "c3c3" with
              | Ret _ => True
              | _ => False
              end) by (vm_compute; exact I).
  destruct (mml_parse Host.synth_freq Host.ADSR_TIME_UNITS Host.pow Host.waveform
              Host.voice_wf_setup_def "c3c3") as [g| | |] eqn:E; try contradiction.
  exists g. split; [reflexivity|].
  exact (proj2 (proj2 (proj2 (proj2
           (quantizer_drift_bounded Host.synth_freq Host.ADSR_TIME_UNITS Host.pow
              Host.waveform Host.voice_wf_setup_def eq_refl)))) "c3c3"%string g E).
Defined.





(** C6 fails as stated: "e-" and "b-" compile, to the d sharp and the a
    sharp of the octave. *)
Lemma flat_on_e_and_b_is_accepted :
  Host.outcome (Host.compile "e-") = Ret [[(1244, 250)]]
  /\ Host.outcome (Host.compile "d+") = Ret [[(1244, 250)]]
  /\ Host.outcome (Host.compile "b-") = Ret [[(1864, 250)]]
  /\ Host.outcome (Host.compile "a+") = Ret [[(1864, 250)]].
Proof. repeat split; vm_compute; reflexivity. Qed.

Lemma flat_shifts_to_previous_letter_witness :
  ch "a" <= ch "e" <= ch "g"
  /\ modifiers Host.waveform 2 start 0 (Some 0) (ch "e") 0 (-1) 0 0 (-1) ["-"%char] 1
     = Ret (mkNote (ch "d") 1 (-1) 0 (-1) [] 2).
Proof.
  split; [vm_compute; split; discriminate|].
  refine (proj1 (flat_shifts_to_previous_letter Host.synth_freq Host.ADSR_TIME_UNITS
                   Host.pow Host.waveform Host.voice_wf_setup_def)
                start 1%nat (ch "e") 0 (-1) 0 0 (-1) [] 1 _).
  vm_compute. split; discriminate.
Defined.

(** C7 fails as stated: after the misplaced selector the compile does not
    go on, it returns failure with a second report. *)
Lemma misplaced_selector_fails_the_compile :
  Host.compile "c A c" =
    Fail [mkReport "Misplaced channel selector" 1 3; mkReport "Unknown command" 1 3].
Proof. vm_compute. reflexivity. Qed.

Lemma misplaced_selector_aborts_witness :
  (ch "A" <= ch "B" <= ch "Z" /\ pos (set_pos 2 (@start Host.waveform)) <> 1)
  /\ mml_step Host.synth_freq Host.ADSR_TIME_UNITS Host.pow Host.waveform
              Host.voice_wf_setup_def (set_pos 2 start) (ch "B") []
     = Fail [mkReport "Misplaced channel selector" 1 2; mkReport "Unknown command" 1 2].
Proof.
  split; [split; [vm_compute; split; discriminate|discriminate]|].
  refine (misplaced_selector_aborts Host.synth_freq Host.ADSR_TIME_UNITS Host.pow
            Host.waveform Host.voice_wf_setup_def (set_pos 2 start) (ch "B") [] _ _).
  - vm_compute. split; discriminate.
  - discriminate.
Defined.

Lemma octave_command_and_steps_witness :
  6 < char_of_ascii "7" - ch "0" <= 9
  /\ mml_step Host.synth_freq Host.ADSR_TIME_UNITS Host.pow Host.waveform
              Host.voice_wf_setup_def (set_pos 1 start) (ch "o") ["7"%char]
     = Fail [mkReport "Invalid octave" 1 2].
Proof.
  split; [vm_compute; split; [reflexivity|discriminate]|].
  refine (proj1 (octave_command_and_steps Host.synth_freq Host.ADSR_TIME_UNITS Host.pow
                   Host.waveform Host.voice_wf_setup_def)
                (set_pos 1 start) "7"%char [] _).
  vm_compute. split; [reflexivity|discriminate].
Defined.

(** C9 fails as stated: a duration of 65536 is refused, and a duration of
    0 is taken and stored as 65535. *)
Lemma duration_65536_is_rejected :
  Host.emit 440 65536 = Fail [mkReport "Can't pack frame: adsr time_scale" 1 0]
  /\ Host.emit 440 65535 = Ret [[(440, 65535)]]
  /\ Host.emit 440 0 = Ret [[(440, 65536)]].
Proof. repeat split; vm_compute; reflexivity. Qed.

Lemma frame_duration_range_witness :
  (0 <= 0 /\ 1 <= 250 <= 65535)
  /\ exists g',
      add_channel_frame Host.ADSR_TIME_UNITS Host.waveform Host.voice_wf_setup_def
                        start 0 440 250 63 ARTICULATION_NORMAL 0 = Ret g' /\
      nth 0 (frame_map g') [] = [mkFrame Host.waveform (440, 63) 249 55].
Proof.
  split; [vm_compute; repeat split; discriminate|].
  refine (proj1 (frame_duration_range Host.ADSR_TIME_UNITS Host.waveform
                   Host.voice_wf_setup_def start 0 440 250 63 ARTICULATION_NORMAL
                   (440, 63) 56 _ eq_refl _) _).
  - discriminate.
  - vm_compute. reflexivity.
  - vm_compute. split; discriminate.
Defined.

Lemma comment_without_newline_overruns_witness :
  Forall (fun c => char_of_ascii c <> 10) [" "; "x"]%char
  /\ mml_step Host.synth_freq Host.ADSR_TIME_UNITS Host.pow Host.waveform
              Host.voice_wf_setup_def start (ch ";") [" "; "x"]%char
     = Undef OutOfBounds.
Proof.
  assert (H : Forall (fun c => char_of_ascii c <> 10) [" "; "x"]%char)
    by (repeat constructor; vm_compute; discriminate).
  split; [exact H|].
  exact (proj1 (comment_without_newline_overruns Host.synth_freq Host.ADSR_TIME_UNITS
                  Host.pow Host.waveform Host.voice_wf_setup_def)
               start (ch ";") [" "; "x"]%char (or_intror eq_refl) H).
Defined.

(** ** The further properties on the host configuration *)

Lemma number_after_blanks_witness :
  (blanks [" "%char] = true /\ ["9"%char] <> [] /\ digits ["9"%char] = true
   /\ stops ["c"%char] = true /\ 1 <= decimal ["9"%char] <= INT_MAX)
  /\ mml_step Host.synth_freq Host.ADSR_TIME_UNITS Host.pow Host.waveform
              Host.voice_wf_setup_def start (ch "t") [" "; "9"; "c"]%char
     = Ret (mkGlobals 1 2 [set_tempo 9 first_channel] [] [], At ["c"%char])
  /\ mml_step Host.synth_freq Host.ADSR_TIME_UNITS Host.pow Host.waveform
              Host.voice_wf_setup_def start (ch "t") [" "; "-"; "9"; "c"]%char
     = Fail [mkReport "Invalid tempo" 1 3].
Proof.
  split; [repeat split; vm_compute; reflexivity || discriminate|].
  refine (number_after_blanks Host.synth_freq Host.ADSR_TIME_UNITS Host.pow Host.waveform
            Host.voice_wf_setup_def start [" "%char] ["9"%char] ["c"%char]
            eq_refl _ eq_refl eq_refl _).
  - discriminate.
  - vm_compute. split; discriminate.
Defined.

Lemma enable_channel_keeps_state_witness :
  0 <= 2
  /\ List.length (enable_channel 2 [first_channel]) = 3%nat
  /\ nth 0 (enable_channel 2 [first_channel]) unwritten = first_channel
  /\ nth 1 (enable_channel 2 [first_channel]) unwritten = unwritten
  /\ nth 2 (enable_channel 2 [first_channel]) unwritten = first_channel.
Proof.
  split; [discriminate|].
  destruct (enable_channel_keeps_state 2 [first_channel]) as (Hlen & Hold & Hnew);
    [discriminate|].
  destruct Hnew as (Hlast & Hgap); [cbn; lia|].
  split; [exact Hlen|]. split; [exact (Hold 0%nat (Nat.lt_0_succ 0))|].
  split; [apply Hgap; cbn; lia|exact Hlast].
Defined.

Lemma skipped_channel_is_unwritten_witness :
  (selector_run ["c"%char] = [] /\ ch "C" + Z.of_nat 1 <= ch "Z")
  /\ exists g rest,
       mml_step Host.synth_freq Host.ADSR_TIME_UNITS Host.pow Host.waveform
                Host.voice_wf_setup_def (set_pos 1 start) (ch "D") ["c"%char]
         = Ret (g, At ["c"%char])
       /\ mml_channel_states g = set_isActive 0 first_channel :: unwritten :: rest
       /\ mml_step Host.synth_freq Host.ADSR_TIME_UNITS Host.pow Host.waveform
                   Host.voice_wf_setup_def (set_pos 2 g) (ch "c") []
          = Undef UninitRead.
Proof.
  split; [split; [reflexivity|discriminate]|].
  destruct (skipped_channel_is_unwritten Host.synth_freq Host.ADSR_TIME_UNITS Host.pow
              Host.waveform Host.voice_wf_setup_def 1%nat ["c"%char] eq_refl)
    as (g & rest & Hstep & Hstates & _ & Hnote); [discriminate|].
  exists g, rest. split; [exact Hstep|]. split; [exact Hstates|].
  unfold mml_step, command. cbn -[set_note]. rewrite Hnote. reflexivity.
Defined.

Lemma newline_selects_channel_A_witness :
  mml_channel_states (@start Host.waveform) <> []
  /\ exists g',
       mml_step Host.synth_freq Host.ADSR_TIME_UNITS Host.pow Host.waveform
                Host.voice_wf_setup_def start 10 ["c"%char] = Ret (g', At ["c"%char])
       /\ line g' = 2 /\ pos g' = 0
       /\ map is_active (mml_channel_states g') = [true].
Proof.
  split; [discriminate|].
  destruct (newline_selects_channel_A Host.synth_freq Host.ADSR_TIME_UNITS Host.pow
              Host.waveform Host.voice_wf_setup_def start ["c"%char])
    as (g' & Hstep & Hline & Hpos & _ & _ & Hact & _); [discriminate|].
  exists g'. repeat split; assumption.
Defined.

Lemma selector_activates_named_channels_witness :
  (pos (set_pos 1 (@start Host.waveform)) = 1 /\ isupper (char_of_ascii "B") = true
   /\ mml_channel_states (@start Host.waveform) <> [])
  /\ exists g',
       mml_step Host.synth_freq Host.ADSR_TIME_UNITS Host.pow Host.waveform
                Host.voice_wf_setup_def (set_pos 1 start) (ch "B") ["C"; " "; "c"]%char
         = Ret (g', At [" "; "c"]%char)
       /\ pos g' = 2
       /\ is_active (nth 0 (mml_channel_states g') unwritten) = false
       /\ is_active (nth 1 (mml_channel_states g') unwritten) = true
       /\ is_active (nth 2 (mml_channel_states g') unwritten) = true.
Proof.
  split; [repeat split; reflexivity || discriminate|].
  destruct (selector_activates_named_channels Host.synth_freq Host.ADSR_TIME_UNITS Host.pow
              Host.waveform Host.voice_wf_setup_def (set_pos 1 start) "B"%char
              ["C"; " "; "c"]%char eq_refl eq_refl)
    as (g' & Hstep & Hpos & _ & _ & _ & Hact); [discriminate|].
  exists g'. split; [exact Hstep|]. split; [exact Hpos|].
  split; [exact (Hact 0%nat)|]. split; [exact (Hact 1%nat)|exact (Hact 2%nat)].
Defined.

Lemma letter_semitones_witness :
  ch "a" <= ch "c" <= ch "g"
  /\ get_freq_from_note Host.pow (ch "c") 1 4 = get_freq_from_code Host.pow 49.
Proof.
  split; [vm_compute; split; discriminate|].
  refine (proj1 (letter_semitones Host.pow (ch "c") 1 4 _)).
  vm_compute. split; discriminate.
Defined.

Lemma emitter_touches_one_channel_witness :
  exists g',
    (0 <= 1
     /\ add_channel_frame Host.ADSR_TIME_UNITS Host.waveform Host.voice_wf_setup_def
                          start 1 440 250 63 ARTICULATION_NORMAL 0 = Ret g')
    /\ List.length (frame_map g') = 2%nat
    /\ nth 0 (frame_map g') [] = []
    /\ frames_on 1 (frame_map g') = 1%nat.
Proof.
  assert (H : match add_channel_frame Host.ADSR_TIME_UNITS Host.waveform
                    Host.voice_wf_setup_def start 1 440 250 63 ARTICULATION_NORMAL 0 with
              | Ret _ => True
              | _ => False
              end) by (vm_compute; exact I).
  destruct (add_channel_frame Host.ADSR_TIME_UNITS Host.waveform Host.voice_wf_setup_def
              start 1 440 250 63 ARTICULATION_NORMAL 0) as [g'| | |] eqn:E;
    try contradiction.
  exists g'. split; [split; [discriminate|reflexivity]|].
  destruct (emitter_touches_one_channel Host.ADSR_TIME_UNITS Host.waveform
              Host.voice_wf_setup_def start g' 1 440 250 63 ARTICULATION_NORMAL 0)
    as (_ & _ & _ & _ & Hlen & Hother & _ & Hcount); [discriminate|exact E|].
  split; [exact Hlen|]. split; [apply (Hother 0%nat); discriminate|exact Hcount].
Defined.

Lemma note_adds_one_frame_per_active_channel_witness :
  exists g' cur,
    (is_note_entry (ch "c") = true
     /\ mml_step Host.synth_freq Host.ADSR_TIME_UNITS Host.pow Host.waveform
                 Host.voice_wf_setup_def start (ch "c") ["4"%char] = Ret (g', cur))
    /\ frames_on 0 (frame_map g') = 1%nat
    /\ frames_on 1 (frame_map g') = 0%nat.
Proof.
  assert (H : match mml_step Host.synth_freq Host.ADSR_TIME_UNITS Host.pow Host.waveform
                    Host.voice_wf_setup_def start (ch "c") ["4"%char] with
              | Ret _ => True
              | _ => False
              end) by (vm_compute; exact I).
  destruct (mml_step Host.synth_freq Host.ADSR_TIME_UNITS Host.pow Host.waveform
              Host.voice_wf_setup_def start (ch "c") ["4"%char]) as [[g' cur]| | |] eqn:E;
    try contradiction.
  exists g', cur. split; [split; reflexivity|].
  split.
  - exact (note_adds_one_frame_per_active_channel Host.synth_freq Host.ADSR_TIME_UNITS
             Host.pow Host.waveform Host.voice_wf_setup_def start g' (ch "c") ["4"%char]
             cur 0%nat eq_refl E).
  - exact (note_adds_one_frame_per_active_channel Host.synth_freq Host.ADSR_TIME_UNITS
             Host.pow Host.waveform Host.voice_wf_setup_def start g' (ch "c") ["4"%char]
             cur 1%nat eq_refl E).
Defined.

Lemma commands_emit_no_frame_witness :
  exists g' cur,
    (is_note_entry (ch "v") = false
     /\ mml_step Host.synth_freq Host.ADSR_TIME_UNITS Host.pow Host.waveform
                 Host.voice_wf_setup_def start (ch "v") ["9"%char] = Ret (g', cur))
    /\ frame_map g' = [].
Proof.
  assert (H : match mml_step Host.synth_freq Host.ADSR_TIME_UNITS Host.pow Host.waveform
                    Host.voice_wf_setup_def start (ch "v") ["9"%char] with
              | Ret _ => True
              | _ => False
              end) by (vm_compute; exact I).
  destruct (mml_step Host.synth_freq Host.ADSR_TIME_UNITS Host.pow Host.waveform
              Host.voice_wf_setup_def start (ch "v") ["9"%char]) as [[g' cur]| | |] eqn:E;
    try contradiction.
  exists g', cur. split; [split; reflexivity|].
  exact (commands_emit_no_frame Host.synth_freq Host.ADSR_TIME_UNITS Host.pow Host.waveform
           Host.voice_wf_setup_def start g' (ch "v") ["9"%char] cur eq_refl E).
Defined.

Lemma frames_are_only_appended_witness :
  exists g g',
    (mml_step Host.synth_freq Host.ADSR_TIME_UNITS Host.pow Host.waveform
              Host.voice_wf_setup_def start (ch "c") ["4"%char] = Ret (g, At [])
     /\ mml_loop Host.synth_freq Host.ADSR_TIME_UNITS Host.pow Host.waveform
                 Host.voice_wf_setup_def 4 g (At ["d"; "8"]%char) = Ret g')
    /\ Host.notes g = [[(1046, 250)]]
    /\ extends (frame_map g) (frame_map g').
Proof.
  assert (H : match mml_step Host.synth_freq Host.ADSR_TIME_UNITS Host.pow Host.waveform
                    Host.voice_wf_setup_def start (ch "c") ["4"%char] with
              | Ret (g, cur) =>
                  match mml_loop Host.synth_freq Host.ADSR_TIME_UNITS Host.pow
                          Host.waveform Host.voice_wf_setup_def 4 g
                          (At ["d"; "8"]%char) with
                  | Ret _ => cur = At [] /\ Host.notes g = [[(1046, 250)]]
                  | _ => False
                  end
              | _ => False
              end) by (vm_compute; split; reflexivity).
  destruct (mml_step Host.synth_freq Host.ADSR_TIME_UNITS Host.pow Host.waveform
              Host.voice_wf_setup_def start (ch "c") ["4"%char]) as [[g cur]| | |];
    try contradiction.
  destruct (mml_loop Host.synth_freq Host.ADSR_TIME_UNITS Host.pow Host.waveform
              Host.voice_wf_setup_def 4 g (At ["d"; "8"]%char)) as [g'| | |] eqn:E';
    try contradiction.
  destruct H as (-> & Hn).
  exists g, g'. split; [split; [reflexivity|exact E']|]. split; [exact Hn|].
  exact (frames_are_only_appended Host.synth_freq Host.ADSR_TIME_UNITS Host.pow
           Host.waveform Host.voice_wf_setup_def 4 g g' (At ["d"; "8"]%char) E').
Defined.

Lemma compiled_fields_in_range_witness :
  exists g,
    mml_parse Host.synth_freq Host.ADSR_TIME_UNITS Host.pow Host.waveform
              Host.voice_wf_setup_def "AB o6 v100 t90 l8. ms c4" = Ret g
    /\ List.length (mml_channel_states g) = 2%nat
    /\ Forall (fun s => fields_in_range s = true) (mml_channel_states g).
Proof.
  assert (H : match mml_parse Host.synth_freq Host.ADSR_TIME_UNITS Host.pow Host.waveform
                    Host.voice_wf_setup_def "AB o6 v100 t90 l8. ms c4" with
              | Ret g => List.length (mml_channel_states g) = 2%nat
              | _ => False
              end) by (vm_compute; reflexivity).
  destruct (mml_parse Host.synth_freq Host.ADSR_TIME_UNITS Host.pow Host.waveform
              Host.voice_wf_setup_def "AB o6 v100 t90 l8. ms c4") as [g| | |] eqn:E;
    try contradiction.
  exists g. split; [reflexivity|]. split; [exact H|].
  exact (compiled_fields_in_range Host.synth_freq Host.ADSR_TIME_UNITS Host.pow
           Host.waveform Host.voice_wf_setup_def "AB o6 v100 t90 l8. ms c4" g E).
Defined.

Lemma time_units_are_whole_envelopes_witness :
  exists g',
    (mml_loop Host.synth_freq Host.ADSR_TIME_UNITS Host.pow Host.waveform
              Host.voice_wf_setup_def 4 start (At ["c"; "3"]%char) = Ret g'
     /\ Forall (settled Host.ADSR_TIME_UNITS) (mml_channel_states (@start Host.waveform)))
    /\ map time_units (mml_channel_states g') = [Some 21312]
    /\ Forall (units_aligned Host.ADSR_TIME_UNITS) (mml_channel_states g').
Proof.
  assert (H0 : Forall (settled Host.ADSR_TIME_UNITS)
                      (mml_channel_states (@start Host.waveform))).
  { constructor; [|constructor]. split; [reflexivity|].
    intros units H. inversion H; subst. exists 0. reflexivity. }
  assert (H : match mml_loop Host.synth_freq Host.ADSR_TIME_UNITS Host.pow Host.waveform
                    Host.voice_wf_setup_def 4 start (At ["c"; "3"]%char) with
              | Ret g' => map time_units (mml_channel_states g') = [Some 21312]
              | _ => False
              end) by (vm_compute; reflexivity).
  destruct (mml_loop Host.synth_freq Host.ADSR_TIME_UNITS Host.pow Host.waveform
              Host.voice_wf_setup_def 4 start (At ["c"; "3"]%char)) as [g'| | |] eqn:E;
    try contradiction.
  exists g'. split; [split; [reflexivity|exact H0]|]. split; [exact H|].
  exact (time_units_are_whole_envelopes Host.synth_freq Host.ADSR_TIME_UNITS Host.pow
           Host.waveform Host.voice_wf_setup_def 4 start g' (At ["c"; "3"]%char) E H0).
Defined.

Lemma modifier_loop_ranges_witness :
  exists note,
    modifiers Host.waveform 4 start 0 (Some 0) (ch "c") 0 (-1) 0 0 (-1)
              ["+"; "8"; "."]%char 1 = Ret note
    /\ (n_sharp note = 0 \/ n_sharp note = 1)
    /\ (n_length note = -1 \/ 1 <= n_length note)
    /\ 0 <= n_dot note
    /\ (n_noteCode note = -1 \/ 1 <= n_noteCode note <= 84).
Proof.
  assert (H : match modifiers Host.waveform 4 start 0 (Some 0) (ch "c") 0 (-1) 0 0 (-1)
                    ["+"; "8"; "."]%char 1 with
              | Ret _ => True
              | _ => False
              end) by (vm_compute; exact I).
  destruct (modifiers Host.waveform 4 start 0 (Some 0) (ch "c") 0 (-1) 0 0 (-1)
              ["+"; "8"; "."]%char 1) as [note| | |] eqn:E; try contradiction.
  exists note. split; [reflexivity|].
  exact (modifier_loop_ranges Host.waveform 4 start 0 (Some 0) (ch "c")
           ["+"; "8"; "."]%char 1 note E).
Defined.
